(** * Department service: a shallow embedding of [app/services/department.py]

    The service keeps two tables, [departments] and [employees], in a
    relational store that it reaches through a SQLAlchemy session.  The
    tables are finite maps keyed by the primary key; the session is a pair
    of a committed store and the view of the open transaction; every
    service function is a computation in a small session monad that can
    raise one of the exceptions of the service, or fail to return when the
    descendant traversal does not terminate. *)

From stdpp Require Import gmap strings list fin_maps fin_sets relations sorting.

Open Scope Z_scope.

(** ** Rows ([app/models]) *)

Module Department.
(** [app/models/department.py]; the primary key [id] is the key of the
    table, [created_at] is a timestamp. *)
Record t : Type := mk {
  name : string;
  parent_id : option Z;
  created_at : Z
}.
End Department.

Module Employee.
(** [app/models/employee.py]; [hired_at] is a date, [created_at] a
    timestamp. *)
Record t : Type := mk {
  department_id : Z;
  full_name : string;
  position : string;
  hired_at : option Z;
  created_at : Z
}.
End Employee.

#[global] Instance Department_eq_dec : EqDecision Department.t.
Proof. solve_decision. Defined.

#[global] Instance Employee_eq_dec : EqDecision Employee.t.
Proof. solve_decision. Defined.

(** ** Request schemas ([app/schemas]) *)

Module DepartmentCreate.
Record t : Type := mk { name : string; parent_id : option Z }.
End DepartmentCreate.

Module DepartmentUpdate.
Record t : Type := mk { name : option string; parent_id : option Z }.
End DepartmentUpdate.

Module EmployeeCreate.
Record t : Type := mk {
  full_name : string;
  position : string;
  hired_at : option Z
}.
End EmployeeCreate.

(** ** The store and the session *)

Record Store : Type := mkStore {
  departments : gmap Z Department.t;
  employees : gmap Z Employee.t
}.

Definition empty_store : Store := mkStore ∅ ∅.

(** A session sees the [pending] state of its open transaction; only
    [db_commit] makes it the [committed] one. *)
Record Session : Type := mkSession {
  committed : Store;
  pending : Store
}.

(** [SessionLocal()]: a new session on the committed store. *)
Definition open_session (st : Store) : Session := mkSession st st.

(** [db.close()] ([get_db]): what was not committed is rolled back. *)
Definition close_session (s : Session) : Store := committed s.

(** [DepartmentNotFoundError] and [ConflictError] are the service's own
    exceptions, [ValueError] is raised on a bad mode or a missing target,
    [IntegrityError] is what the store raises when a statement breaks the
    constraint [uq_department_name_parent] of the [departments] table,
    [CircularDependencyError] is what the session raises when it cannot
    order the deletes of a flush. *)
Inductive Error : Type :=
  | DepartmentNotFoundError
  | ConflictError
  | ValueError
  | IntegrityError
  | CircularDependencyError.

#[global] Instance Error_eq_dec : EqDecision Error.
Proof. solve_decision. Defined.

(** A computation runs in a session and either does not return ([None]),
    or leaves a session and raises or returns. *)
Definition M (A : Type) : Type := Session → option (Session * (Error + A)).

Definition ret {A} (a : A) : M A := λ s, Some (s, inr a).

Definition raise {A} (e : Error) : M A := λ s, Some (s, inl e).

Definition bind {A B} (m : M A) (k : A → M B) : M B := λ s,
  match m s with
  | None => None
  | Some (s', inl e) => Some (s', inl e)
  | Some (s', inr a) => k a s'
  end.

Notation "x <- m ;; k" := (bind m (λ x, k))
  (at level 100, m at next level, right associativity).
Notation "m ;;; k" := (bind m (λ _, k))
  (at level 100, right associativity).

(** ** Session primitives *)

(** [db.get(Department, department_id)]. *)
Definition _get_department (department_id : Z) : M (option Department.t) := λ s,
  Some (s, inr (departments (pending s) !! department_id)).

(** The key an autoincrement column gives to the next row: above every key
    of the table. *)
Definition next_id {A} (tbl : gmap Z A) : Z :=
  1 + foldr Z.max 0 (map_to_list tbl).*1.

(** The table [departments] is declared with
    [UniqueConstraint("name", "parent_id", name="uq_department_name_parent")]
    ([app/models/department.py], and the migration): the store refuses,
    with [IntegrityError], an INSERT or UPDATE that leaves a written row
    with the name and the parent of another row.  Row [i] of [tbl]
    collides when another row has the same name and the same parent; a
    null [parent_id] never collides (SQL compares nulls as distinct).
    The foreign keys are not modelled: the service checks that the
    department or parent exists before every write that refers to it. *)
Definition uq_collision (tbl : gmap Z Department.t) (i : Z) : Prop :=
  ∃ r p, tbl !! i = Some r ∧ Department.parent_id r = Some p ∧
    map_Exists (λ j r', j ≠ i ∧ Department.name r' = Department.name r ∧
                        Department.parent_id r' = Some p) tbl.

#[global] Instance uq_collision_dec tbl i : Decision (uq_collision tbl i).
Proof.
  unfold uq_collision.
  destruct (tbl !! i) as [r|] eqn:Hr.
  - destruct (Department.parent_id r) as [p|] eqn:Hp.
    + destruct (decide (map_Exists (λ j r', j ≠ i ∧
          Department.name r' = Department.name r ∧
          Department.parent_id r' = Some p) tbl)) as [H|H].
      * left. exists r, p. auto.
      * right. intros (r' & p' & Hr' & Hp' & Hex).
        inversion Hr'; subst r'. rewrite Hp in Hp'. inversion Hp'; subst p'.
        contradiction.
    + right. intros (r' & p' & Hr' & Hp' & _).
      inversion Hr'; subst r'. congruence.
  - right. intros (r' & p' & Hr' & _). congruence.
Defined.

(** A statement that wrote the rows [written] of the [departments] table,
    leaving [tbl]: the store refuses it when a written row collides. *)
Definition uq_department_name_parent
    (tbl : gmap Z Department.t) (written : gset Z) : Prop :=
  set_Forall (λ i, ¬ uq_collision tbl i) written.

Definition set_departments (tbl : gmap Z Department.t) : M unit := λ s,
  Some (mkSession (committed s) (mkStore tbl (employees (pending s))), inr tt).

Definition set_employees (tbl : gmap Z Employee.t) : M unit := λ s,
  Some (mkSession (committed s) (mkStore (departments (pending s)) tbl), inr tt).

Definition get_pending : M Store := λ s, Some (s, inr (pending s)).

(** A write to the [departments] table, checked by the store. *)
Definition write_departments
    (tbl : gmap Z Department.t) (written : gset Z) : M unit :=
  if decide (uq_department_name_parent tbl written)
  then set_departments tbl
  else raise IntegrityError.

(** [db.add(Department(name=..., parent_id=...))]: the store gives the row
    its key and its [created_at] (the server default [now()]). *)
Definition db_add_department
    (name : string) (parent_id : option Z) (now : Z) : M (Z * Department.t) :=
  st <- get_pending ;;
  let i := next_id (departments st) in
  let row := Department.mk name parent_id now in
  write_departments (<[i := row]> (departments st)) {[i]} ;;;
  ret (i, row).

(** [db.add(Employee(...))]. *)
Definition db_add_employee
    (department_id : Z) (data : EmployeeCreate.t) (now : Z)
    : M (Z * Employee.t) :=
  st <- get_pending ;;
  let i := next_id (employees st) in
  let row := Employee.mk department_id (EmployeeCreate.full_name data)
               (EmployeeCreate.position data) (EmployeeCreate.hired_at data) now in
  set_employees (<[i := row]> (employees st)) ;;;
  ret (i, row).

(** [db.commit()]. *)
Definition db_commit : M unit := λ s,
  Some (mkSession (pending s) (pending s), inr tt).

(** ** Queries and the descendant traversal *)

(** [select(Department.id).where(Department.parent_id == current)]: the
    keys of the rows whose parent is [current], in the order of the
    store. *)
Definition child_ids (tbl : gmap Z Department.t) (current : Z) : list Z :=
  (map_to_list (filter (λ kv, Department.parent_id kv.2 = Some current) tbl)).*1.

(** The body of [for child_id in rows]: add to [result], push on [stack]
    (the head of the list is the top of the stack). *)
Definition visit_rows (rows : list Z) (result : gset Z) (stack : list Z)
    : gset Z * list Z :=
  foldl (λ acc child_id, ({[child_id]} ∪ acc.1, child_id :: acc.2))
        (result, stack) rows.

(** [while stack: current = stack.pop(); ...]; one unit of [fuel] per
    iteration, [None] when the loop is still running after [fuel]
    iterations. *)
Fixpoint _get_descendant_ids_loop (fuel : nat) (tbl : gmap Z Department.t)
    (stack : list Z) (result : gset Z) : option (gset Z) :=
  match stack with
  | [] => Some result
  | current :: stack' =>
    match fuel with
    | O => None
    | S fuel' =>
      let rows := child_ids tbl current in
      let acc := visit_rows rows result stack' in
      _get_descendant_ids_loop fuel' tbl acc.2 acc.1
    end
  end.

Definition _get_descendant_ids (fuel : nat) (department_id : Z) : M (gset Z) := λ s,
  match _get_descendant_ids_loop fuel (departments (pending s)) [department_id] ∅ with
  | None => None
  | Some result => Some (s, inr result)
  end.

(** The query of [_check_name_unique_under_parent]: same name, same
    parent (a null parent matches the rows with a null parent), and not
    the excluded row when one is given. *)
Definition name_parent_query (tbl : gmap Z Department.t) (name : string)
    (parent_id : option Z) (exclude_department_id : option Z)
    : gmap Z Department.t :=
  let q := filter (λ kv, Department.name kv.2 = name ∧
                         Department.parent_id kv.2 = parent_id) tbl in
  match exclude_department_id with
  | Some e => filter (λ kv, kv.1 ≠ e) q
  | None => q
  end.

Definition _check_name_unique_under_parent (name : string)
    (parent_id : option Z) (exclude_department_id : option Z) : M unit :=
  st <- get_pending ;;
  let existing :=
    head (map_to_list (name_parent_query (departments st) name parent_id
                                         exclude_department_id)) in
  match existing with
  | Some _ => raise ConflictError
  | None => ret tt
  end.

(** ** Deleting through the ORM *)

(** The rows whose parent is in [S]. *)
Definition parent_in (S : gset Z) (d : Department.t) : Prop :=
  ∃ p, Department.parent_id d = Some p ∧ p ∈ S.

#[global] Instance parent_in_dec S d : Decision (parent_in S d).
Proof.
  unfold parent_in. destruct (Department.parent_id d) as [p|].
  - destruct (decide (p ∈ S)); [left; eauto | right].
    intros (q & Hq & ?). inversion Hq; subst. contradiction.
  - right. intros (q & Hq & ?). discriminate.
Defined.

Definition children_of (tbl : gmap Z Department.t) (S : gset Z) : gset Z :=
  dom (filter (λ kv, parent_in S kv.2) tbl).

(** The relationship [children] has [cascade="all, delete-orphan"]:
    [db.delete(department)] marks the department, its children, their
    children and so on.  The marked set is obtained by adding the children
    of the marked rows once per row of the table. *)
Definition cascade_closure (tbl : gmap Z Department.t) (department_id : Z) : gset Z :=
  Nat.iter (size tbl) (λ S, S ∪ children_of tbl S) {[department_id]}.

(** [db.delete(department)], with the flush of the [db.commit()] that
    follows it in both modes.  The unit of work deletes the children of a
    department before the department.  When the department is itself the
    child of a marked department, the marked departments depend on each
    other in a circle and have no such order: the flush raises
    [CircularDependencyError] and no row goes.  Otherwise the marked
    departments go, and through the relationship [employees] (same
    cascade) the employees of each of them; no row that stays refers to a
    row that went, so the foreign keys' own [ON DELETE] actions find
    nothing to do. *)
Definition db_delete_department (department_id : Z) : M unit :=
  st <- get_pending ;;
  let marked := cascade_closure (departments st) department_id in
  if decide (department_id ∈ children_of (departments st) marked)
  then raise CircularDependencyError
  else
    set_employees (filter (λ kv, Employee.department_id kv.2 ∉ marked)
                          (employees st)) ;;;
    set_departments (filter (λ kv, kv.1 ∉ marked) (departments st)).

(** [update(Employee).where(Employee.department_id == department_id)
      .values(department_id=reassign_to_department_id)]. *)
Definition relink_employee (department_id target : Z) (e : Employee.t) : Employee.t :=
  if decide (Employee.department_id e = department_id)
  then Employee.mk target (Employee.full_name e) (Employee.position e)
                   (Employee.hired_at e) (Employee.created_at e)
  else e.

Definition db_update_employees_department (department_id target : Z) : M unit :=
  st <- get_pending ;;
  set_employees (relink_employee department_id target <$> employees st).

(** [update(Department).where(Department.parent_id == department_id)
      .values(parent_id=reassign_to_department_id)]: the children are
    written, and the store checks them against
    [uq_department_name_parent]. *)
Definition relink_child (department_id target : Z) (d : Department.t) : Department.t :=
  if decide (Department.parent_id d = Some department_id)
  then Department.mk (Department.name d) (Some target) (Department.created_at d)
  else d.

Definition db_update_departments_parent (department_id target : Z) : M unit :=
  st <- get_pending ;;
  write_departments
    (relink_child department_id target <$> departments st)
    (dom (filter (λ kv, Department.parent_id kv.2 = Some department_id)
                 (departments st))).

(** ** The service *)

Definition create_department (data : DepartmentCreate.t) (now : Z)
    : M (Z * Department.t) :=
  match DepartmentCreate.parent_id data with
  | Some pid =>
    parent <- _get_department pid ;;
    match parent with
    | None => raise DepartmentNotFoundError
    | Some _ => ret tt
    end
  | None => ret tt
  end ;;;
  _check_name_unique_under_parent (DepartmentCreate.name data)
                                  (DepartmentCreate.parent_id data) None ;;;
  department <- db_add_department (DepartmentCreate.name data)
                                  (DepartmentCreate.parent_id data) now ;;
  db_commit ;;;
  ret department.

Definition create_employee (department_id : Z) (data : EmployeeCreate.t) (now : Z)
    : M (Z * Employee.t) :=
  department <- _get_department department_id ;;
  match department with
  | None => raise DepartmentNotFoundError
  | Some _ =>
    employee <- db_add_employee department_id data now ;;
    db_commit ;;;
    ret employee
  end.

(** [data.parent_id if data.parent_id is not None else department.parent_id] *)
Definition effective_parent_id (data : DepartmentUpdate.t) (department : Department.t)
    : option Z :=
  match DepartmentUpdate.parent_id data with
  | Some p => Some p
  | None => Department.parent_id department
  end.

(** [data.name if data.name is not None else department.name] *)
Definition effective_name (data : DepartmentUpdate.t) (department : Department.t)
    : string :=
  match DepartmentUpdate.name data with
  | Some n => n
  | None => Department.name department
  end.

Definition update_department (fuel : nat) (department_id : Z)
    (data : DepartmentUpdate.t) : M (Z * Department.t) :=
  department <- _get_department department_id ;;
  match department with
  | None => raise DepartmentNotFoundError
  | Some department =>
    let new_parent_id := effective_parent_id data department in
    let new_name := effective_name data department in
    if decide (new_parent_id = Some department_id) then raise ConflictError
    else
      match new_parent_id with
      | Some p =>
        descendants <- _get_descendant_ids fuel department_id ;;
        if decide (p ∈ descendants) then raise ConflictError
        else
          parent <- _get_department p ;;
          match parent with
          | None => raise DepartmentNotFoundError
          | Some _ => ret tt
          end
      | None => ret tt
      end ;;;
      _check_name_unique_under_parent new_name new_parent_id (Some department_id) ;;;
      let row := Department.mk new_name new_parent_id
                               (Department.created_at department) in
      st <- get_pending ;;
      write_departments (<[department_id := row]> (departments st))
                        {[department_id]} ;;;
      db_commit ;;;
      ret (department_id, row)
  end.

Definition delete_department (department_id : Z) (mode : string)
    (reassign_to_department_id : option Z) : M unit :=
  department <- _get_department department_id ;;
  match department with
  | None => raise DepartmentNotFoundError
  | Some _ =>
    if decide (mode = "cascade") then
      db_delete_department department_id ;;;
      db_commit
    else if decide (mode = "reassign") then
      match reassign_to_department_id with
      | None => raise ValueError
      | Some target_id =>
        target <- _get_department target_id ;;
        match target with
        | None => raise DepartmentNotFoundError
        | Some _ =>
          if decide (target_id = department_id) then raise ConflictError
          else
            db_update_employees_department department_id target_id ;;;
            db_update_departments_parent department_id target_id ;;;
            db_delete_department department_id ;;;
            db_commit
        end
      end
    else raise ValueError
  end.

(** ** The tree view ([get_department_tree]) *)

Module DepartmentResponse.
Record t : Type := mk {
  id : Z;
  name : string;
  parent_id : option Z;
  created_at : Z
}.
Definition model_validate (dept : Z * Department.t) : t :=
  mk dept.1 (Department.name dept.2) (Department.parent_id dept.2)
     (Department.created_at dept.2).
End DepartmentResponse.

Module EmployeeResponse.
Record t : Type := mk {
  id : Z;
  department_id : Z;
  full_name : string;
  position : string;
  hired_at : option Z;
  created_at : Z
}.
Definition model_validate (e : Z * Employee.t) : t :=
  mk e.1 (Employee.department_id e.2) (Employee.full_name e.2)
     (Employee.position e.2) (Employee.hired_at e.2) (Employee.created_at e.2).
End EmployeeResponse.

#[local] Unset Elimination Schemes.
Inductive DepartmentTreeResponse : Type :=
  | Tree (department : DepartmentResponse.t)
         (employees : list EmployeeResponse.t)
         (children : list DepartmentTreeResponse).
#[local] Set Elimination Schemes.

Definition tree_department (t : DepartmentTreeResponse) : DepartmentResponse.t :=
  match t with Tree d _ _ => d end.
Definition tree_employees (t : DepartmentTreeResponse) : list EmployeeResponse.t :=
  match t with Tree _ es _ => es end.
Definition tree_children (t : DepartmentTreeResponse) : list DepartmentTreeResponse :=
  match t with Tree _ _ cs => cs end.

(** Python compares the key tuples [(k, id)] component by component: the
    first components decide unless they are equal. *)
Definition lex_le {K} (R : relation K) (a b : K * Z) : Prop :=
  (a.1 ≠ b.1 ∧ R a.1 b.1) ∨ (a.1 = b.1 ∧ a.2 ≤ b.2).

#[global] Instance lex_le_dec {K} `{EqDecision K} (R : relation K)
  `{∀ x y, Decision (R x y)} (a b : K * Z) : Decision (lex_le R a b).
Proof. unfold lex_le. apply _. Defined.

(** [sorted(xs, key=...)] and [xs.sort(key=...)] for a key [(k, id)]. *)
Definition sorted_by {A K} `{EqDecision K} (R : relation K)
    `{∀ x y, Decision (R x y)} (key : A → K * Z) (xs : list A) : list A :=
  merge_sort (λ x y, lex_le R (key x) (key y)) xs.

(** [dept.employees] and [dept.children]: the rows that refer to the
    department, as the store lists them. *)
Definition employees_of (st : Store) (department_id : Z) : list (Z * Employee.t) :=
  map_to_list (filter (λ kv, Employee.department_id kv.2 = department_id)
                      (employees st)).

Definition direct_children (st : Store) (department_id : Z) : list (Z * Department.t) :=
  map_to_list (filter (λ kv, Department.parent_id kv.2 = Some department_id)
                      (departments st)).

Definition sort_employees (sort_employees_by : string)
    (emps : list (Z * Employee.t)) : list (Z * Employee.t) :=
  if decide (sort_employees_by = "full_name")
  then sorted_by String.le (λ e, (Employee.full_name e.2, e.1)) emps
  else sorted_by Z.le (λ e, (Employee.created_at e.2, e.1)) emps.

Definition sort_children (cs : list (Z * Department.t)) : list (Z * Department.t) :=
  sorted_by String.le (λ c, (Department.name c.2, c.1)) cs.

(** [current_depth] counts down to zero; [get_department_tree] starts it
    at [Z.to_nat depth], so that a depth that is not positive gives no
    children. *)
Fixpoint _build_tree (st : Store) (include_employees : bool)
    (sort_employees_by : string) (current_depth : nat)
    (dept : Z * Department.t) : DepartmentTreeResponse :=
  let employees_list :=
    if include_employees
    then EmployeeResponse.model_validate <$>
           sort_employees sort_employees_by (employees_of st dept.1)
    else [] in
  let children_list :=
    match current_depth with
    | O => []
    | S depth' =>
      _build_tree st include_employees sort_employees_by depth' <$>
        sort_children (direct_children st dept.1)
    end in
  Tree (DepartmentResponse.model_validate dept) employees_list children_list.

Definition get_department_tree (department_id : Z) (depth : Z)
    (include_employees : bool) (sort_employees_by : string)
    : M DepartmentTreeResponse :=
  department <- _get_department department_id ;;
  match department with
  | None => raise DepartmentNotFoundError
  | Some department =>
    st <- get_pending ;;
    ret (_build_tree st include_employees sort_employees_by (Z.to_nat depth)
                     (department_id, department))
  end.

(** ** The PATCH body and its validation ([DepartmentUpdate]) *)

(** A field of the JSON body: absent, [null], or a value. *)
Inductive Field (A : Type) : Type :=
  | Omitted
  | Null
  | Given (v : A).
Arguments Omitted {A}.
Arguments Null {A}.
Arguments Given {A} v.

Module PatchBody.
Record t : Type := mk { name : Field string; parent_id : Field Z }.
End PatchBody.

(** A Python [str] is held as the [string] of the bytes of its UTF-8
    encoding, as the store and the body of a request hold it.  Two strs
    are equal, or in order, as their encodings are; their white space and
    their length are read off the encoding. *)

(** The UTF-8 encoding of a code point: one byte below [0x80], two below
    [0x800], three below [0x10000], four above. *)
Definition utf8 (c : N) : string :=
  let byte (n : N) := Ascii.ascii_of_N n in
  let continuation (n : N) := byte (0x80 + n mod 64)%N in
  if (c <? 0x80)%N then String (byte c) ""
  else if (c <? 0x800)%N then
    String (byte (0xC0 + c / 64)%N) (String (continuation c) "")
  else if (c <? 0x10000)%N then
    String (byte (0xE0 + c / 4096)%N)
      (String (continuation (c / 64)%N) (String (continuation c) ""))
  else
    String (byte (0xF0 + c / 262144)%N)
      (String (continuation (c / 4096)%N)
         (String (continuation (c / 64)%N) (String (continuation c) ""))).

(** The code points that [str.isspace] holds of, and that [str.strip]
    removes: the ASCII white space and separators, [U+0085], [U+00A0],
    [U+1680], [U+2000] to [U+200A], [U+2028], [U+2029], [U+202F],
    [U+205F] and [U+3000]. *)
Definition whitespace : list N :=
  [ 0x09; 0x0A; 0x0B; 0x0C; 0x0D; 0x1C; 0x1D; 0x1E; 0x1F; 0x20; 0x85; 0xA0;
    0x1680; 0x2000; 0x2001; 0x2002; 0x2003; 0x2004; 0x2005; 0x2006; 0x2007;
    0x2008; 0x2009; 0x200A; 0x2028; 0x2029; 0x202F; 0x205F; 0x3000 ]%N.

(** [s] without its prefix [w], when it starts with [w]. *)
Fixpoint drop_prefix (w s : string) : option string :=
  match w, s with
  | EmptyString, _ => Some s
  | String a w', String b s' => if decide (a = b) then drop_prefix w' s' else None
  | String _ _, EmptyString => None
  end.

(** [s] without its prefix, when it starts with one of [ws]. *)
Fixpoint drop_any (ws : list string) (s : string) : option string :=
  match ws with
  | [] => None
  | w :: ws' =>
    match drop_prefix w s with
    | Some r => Some r
    | None => drop_any ws' s
    end
  end.

(** Drops prefixes among [ws] as long as there is one, at most [n]
    times. *)
Fixpoint lstrip_loop (n : nat) (ws : list string) (s : string) : string :=
  match n with
  | O => s
  | S n' =>
    match drop_any ws s with
    | Some r => lstrip_loop n' ws r
    | None => s
    end
  end.

(** [str.lstrip()]: the leading white space goes, a character at a time;
    a string has no more characters than bytes. *)
Definition lstrip (s : string) : string :=
  lstrip_loop (String.length s) (utf8 <$> whitespace) s.

(** [str.rstrip()]: the same from the end, on the reversed bytes. *)
Definition rstrip (s : string) : string :=
  String.rev (lstrip_loop (String.length s) (String.rev ∘ utf8 <$> whitespace)
                          (String.rev s)).

(** [str.strip()]. *)
Definition strip (s : string) : string := rstrip (lstrip s).

(** [len(s)], the number of code points of [s]: in UTF-8 every code
    point has one byte that is not a continuation byte [10xxxxxx]. *)
Definition is_continuation (b : Ascii.ascii) : bool :=
  let n := Ascii.nat_of_ascii b in ((128 <=? n) && (n <? 192))%nat.

Fixpoint len (s : string) : nat :=
  match s with
  | EmptyString => O
  | String b s' => if is_continuation b then len s' else S (len s')
  end.

(** The validator [trim_name] of [DepartmentUpdate]:
    [None] stays, a string becomes [v.strip() or None]. *)
Definition trim_name (v : option string) : option string :=
  match v with
  | None => None
  | Some s => let s' := strip s in if decide (s' = "") then None else Some s'
  end.

(** The field [name]: the default when absent (validators do not run on
    it), else [trim_name], then the length bounds of the field and
    [name_not_empty_if_present] on a string; [None] is a validation
    error. *)
Definition validate_name (f : Field string) : option (option string) :=
  match f with
  | Omitted => Some None
  | Null => Some (trim_name None)
  | Given s =>
    match trim_name (Some s) with
    | None => Some None
    | Some s' =>
      if decide (1 ≤ len s' ≤ 200)%nat then Some (Some s') else None
    end
  end.

(** The field [parent_id: int | None = None]. *)
Definition validate_parent_id (f : Field Z) : option Z :=
  match f with
  | Omitted => None
  | Null => None
  | Given p => Some p
  end.

Definition DepartmentUpdate_validate (body : PatchBody.t) : option DepartmentUpdate.t :=
  match validate_name (PatchBody.name body) with
  | None => None
  | Some n => Some (DepartmentUpdate.mk n (validate_parent_id (PatchBody.parent_id body)))
  end.

(** ** Requests and reachable stores *)

(** A call of one of the four functions of the service that write; an
    update comes with the number of iterations its traversal is given. *)

Inductive Request : Type :=
  | CreateDepartment (data : DepartmentCreate.t) (now : Z)
  | CreateEmployee (department_id : Z) (data : EmployeeCreate.t) (now : Z)
  | UpdateDepartment (fuel : nat) (department_id : Z) (data : DepartmentUpdate.t)
  | DeleteDepartment (department_id : Z) (mode : string)
                     (reassign_to_department_id : option Z).

Definition handle (r : Request) : M unit :=
  match r with
  | CreateDepartment data now => create_department data now ;;; ret tt
  | CreateEmployee department_id data now =>
    create_employee department_id data now ;;; ret tt
  | UpdateDepartment fuel department_id data =>
    update_department fuel department_id data ;;; ret tt
  | DeleteDepartment department_id mode target =>
    delete_department department_id mode target
  end.

(** One call of the service in a session of its own: the store it leaves
    and what it raised or returned. *)
Definition run {A} (m : M A) (st : Store) : option (Store * (Error + A)) :=
  match m (open_session st) with
  | None => None
  | Some (s, r) => Some (close_session s, r)
  end.

(** The stores that calls of the service reach from the empty store; a
    call that does not return leads nowhere. *)
Inductive reachable : Store → Prop :=
  | reachable_empty : reachable empty_store
  | reachable_request st r st' res :
      reachable st → run (handle r) st = Some (st', res) → reachable st'.

(** ** The tree of departments *)

(** [child_of tbl p c]: row [c] exists and its parent is [p]. *)
Definition child_of (tbl : gmap Z Department.t) (p c : Z) : Prop :=
  ∃ d, tbl !! c = Some d ∧ Department.parent_id d = Some p.

(** [descendant tbl a x]: [x] is below [a], one level or more; read the
    other way, [a] is an ancestor of [x]. *)
Definition descendant (tbl : gmap Z Department.t) : relation Z :=
  tc (child_of tbl).

(** No department is its own ancestor. *)
Definition acyclic (tbl : gmap Z Department.t) : Prop :=
  ∀ d, ¬ descendant tbl d d.

(** Siblings, the roots among themselves included, have distinct names. *)
Definition sibling_names_unique (tbl : gmap Z Department.t) : Prop :=
  ∀ i j di dj, tbl !! i = Some di → tbl !! j = Some dj → i ≠ j →
    Department.parent_id di = Department.parent_id dj →
    Department.name di ≠ Department.name dj.

(** ** The POST bodies and their validation ([DepartmentCreate], [EmployeeCreate]) *)

Module PostDepartmentBody.
Record t : Type := mk { name : Field string; parent_id : Field Z }.
End PostDepartmentBody.

Module PostEmployeeBody.
Record t : Type := mk {
  full_name : Field string;
  position : Field string;
  hired_at : Field Z
}.
End PostEmployeeBody.

(** The value a validator sees for a field that is in the body: [None]
    for [null]. *)
Definition field_value {A} (f : Field A) : option A :=
  match f with
  | Given v => Some v
  | _ => None
  end.

(** The "before" validators [DepartmentBase.trim_name] and
    [EmployeeBase.trim_str]: a string is stripped, anything else is passed
    on as it is. *)
Definition trim_str (v : option string) : option string :=
  match v with
  | Some s => Some (strip s)
  | None => None
  end.

(** A [str] field with [min_length] and [max_length]: [null] is not a
    string, and the length must be within the bounds; [None] is a
    validation error. *)
Definition str_field (min_length max_length : nat) (v : option string)
    : option string :=
  match v with
  | Some s =>
    if decide (min_length ≤ len s ≤ max_length)%nat then Some s else None
  | None => None
  end.

(** The "after" validators [name_not_empty] and [not_empty]:
    [if not v: raise ValueError]. *)
Definition not_empty (v : string) : option string :=
  if decide (v = "") then None else Some v.

(** The "after" validator [name_not_empty_if_present] of
    [DepartmentUpdate]: [if v is not None and not v: raise ValueError]. *)
Definition name_not_empty_if_present (v : option string) : option (option string) :=
  match v with
  | Some s => if decide (s = "") then None else Some (Some s)
  | None => Some None
  end.

(** A required field declared [Field(..., min_length=1, max_length=200)]
    with a stripping "before" validator and a non-empty "after"
    validator; a field that is absent is a validation error. *)
Definition required_str (f : Field string) : option string :=
  match f with
  | Omitted => None
  | _ =>
    match str_field 1 200 (trim_str (field_value f)) with
    | Some s => not_empty s
    | None => None
    end
  end.

Definition DepartmentCreate_validate (body : PostDepartmentBody.t)
    : option DepartmentCreate.t :=
  match required_str (PostDepartmentBody.name body) with
  | Some name =>
    Some (DepartmentCreate.mk name
            (validate_parent_id (PostDepartmentBody.parent_id body)))
  | None => None
  end.

Definition EmployeeCreate_validate (body : PostEmployeeBody.t)
    : option EmployeeCreate.t :=
  match required_str (PostEmployeeBody.full_name body),
        required_str (PostEmployeeBody.position body) with
  | Some full_name, Some position =>
    Some (EmployeeCreate.mk full_name position
            (field_value (PostEmployeeBody.hired_at body)))
  | _, _ => None
  end.

(** ** The endpoints ([app/api/departments.py]) and the exception handlers
    ([app/main.py]) *)

(** What the client gets: a status with the content of a success, or the
    status of a failure. *)
Inductive Reply (A : Type) : Type :=
  | Success (status_code : Z) (content : A)
  | Failure (status_code : Z).
Arguments Success {A} status_code content.
Arguments Failure {A} status_code.

Definition status_code {A} (r : Reply A) : Z :=
  match r with
  | Success c _ => c
  | Failure c => c
  end.

(** [department_not_found_handler], [conflict_handler] and
    [value_error_handler]; an exception without a handler is answered
    with 500. *)
Definition exception_status (e : Error) : Z :=
  match e with
  | DepartmentNotFoundError => 404
  | ConflictError => 409
  | ValueError => 400
  | IntegrityError => 500
  | CircularDependencyError => 500
  end.

(** An endpoint calls the service in the session of the request
    ([get_db]) and answers with its result or with the status of the
    exception. *)
Definition respond {A B} (ok : Z) (content : A → B) (m : M A) (st : Store)
    : option (Store * Reply B) :=
  match run m st with
  | None => None
  | Some (st', inl e) => Some (st', Failure (exception_status e))
  | Some (st', inr a) => Some (st', Success ok (content a))
  end.

(** [POST /departments/]; a body that is not valid is answered with 422
    before the endpoint runs. *)
Definition post_department (body : PostDepartmentBody.t) (now : Z) (st : Store)
    : option (Store * Reply DepartmentResponse.t) :=
  match DepartmentCreate_validate body with
  | None => Some (st, Failure 422)
  | Some data =>
    respond 200 DepartmentResponse.model_validate (create_department data now) st
  end.

(** [POST /departments/{department_id}/employees/]. *)
Definition post_employee (department_id : Z) (body : PostEmployeeBody.t) (now : Z)
    (st : Store) : option (Store * Reply EmployeeResponse.t) :=
  match EmployeeCreate_validate body with
  | None => Some (st, Failure 422)
  | Some data =>
    respond 200 EmployeeResponse.model_validate
            (create_employee department_id data now) st
  end.

(** [GET /departments/{department_id}]: [depth] is
    [Query(1, ge=1, le=5)], [include_employees] is [Query(True)],
    [sort_employees] is a [Literal["created_at", "full_name"]] with the
    default ["created_at"]; a parameter that is absent takes its
    default. *)
Definition get_department (department_id : Z) (depth : option Z)
    (include_employees : option bool) (sort_employees : option string)
    (st : Store) : option (Store * Reply DepartmentTreeResponse) :=
  let depth := default 1 depth in
  let include_employees := default true include_employees in
  let sort_employees := default "created_at" sort_employees in
  if decide (1 ≤ depth ≤ 5 ∧
             (sort_employees = "created_at" ∨ sort_employees = "full_name"))
  then respond 200 id
         (get_department_tree department_id depth include_employees sort_employees)
         st
  else Some (st, Failure 422).

(** [PATCH /departments/{department_id}]. *)
Definition patch_department (fuel : nat) (department_id : Z) (body : PatchBody.t)
    (st : Store) : option (Store * Reply DepartmentResponse.t) :=
  match DepartmentUpdate_validate body with
  | None => Some (st, Failure 422)
  | Some data =>
    respond 200 DepartmentResponse.model_validate
            (update_department fuel department_id data) st
  end.

(** [DELETE /departments/{department_id}]: [mode] is a required
    [Literal["cascade", "reassign"]]; the endpoint itself answers 400 when
    the mode is ["reassign"] and there is no target. *)
Definition delete_department_endpoint (department_id : Z) (mode : option string)
    (reassign_to_department_id : option Z) (st : Store)
    : option (Store * Reply unit) :=
  match mode with
  | None => Some (st, Failure 422)
  | Some mode =>
    if decide (mode = "cascade" ∨ mode = "reassign") then
      if decide (mode = "reassign" ∧ reassign_to_department_id = None)
      then Some (st, Failure 400)
      else respond 204 id
             (delete_department department_id mode reassign_to_department_id) st
    else Some (st, Failure 422)
  end.

(** A call of one of the endpoints that write. *)
Inductive ApiCall : Type :=
  | PostDepartment (body : PostDepartmentBody.t) (now : Z)
  | PostEmployee (department_id : Z) (body : PostEmployeeBody.t) (now : Z)
  | PatchDepartment (fuel : nat) (department_id : Z) (body : PatchBody.t)
  | DeleteDepartmentCall (department_id : Z) (mode : option string)
                         (reassign_to_department_id : option Z).

(** The store that a call leaves, and the status of its answer. *)
Definition api_call (c : ApiCall) (st : Store) : option (Store * Z) :=
  match c with
  | PostDepartment body now =>
    prod_map id status_code <$> post_department body now st
  | PostEmployee department_id body now =>
    prod_map id status_code <$> post_employee department_id body now st
  | PatchDepartment fuel department_id body =>
    prod_map id status_code <$> patch_department fuel department_id body st
  | DeleteDepartmentCall department_id mode target =>
    prod_map id status_code <$> delete_department_endpoint department_id mode target st
  end.

(** The stores that calls of the endpoints reach from the empty store. *)
Inductive api_reachable : Store → Prop :=
  | api_reachable_empty : api_reachable empty_store
  | api_reachable_call st c st' status :
      api_reachable st → api_call c st = Some (st', status) → api_reachable st'.

(** * Predicates of the specification *)

(** The slot [(name, parent_id)] is taken by a row other than the
    excluded one. *)
Definition slot_taken (tbl : gmap Z Department.t) (name : string)
    (parent_id : option Z) (exclude : option Z) : Prop :=
  ∃ j d, tbl !! j = Some d ∧ Department.name d = name ∧
         Department.parent_id d = parent_id ∧ exclude ≠ Some j.

(** The parent named by the request does not exist. *)
Definition parent_missing (tbl : gmap Z Department.t) (parent_id : option Z) : Prop :=
  ∃ p, parent_id = Some p ∧ tbl !! p = None.

#[global] Instance parent_missing_dec tbl parent_id :
  Decision (parent_missing tbl parent_id).
Proof.
  unfold parent_missing. destruct parent_id as [p|].
  - destruct (tbl !! p) eqn:Hp; [right|left; eauto].
    intros (q & [= <-] & Hq). congruence.
  - right. by intros (q & ? & _).
Defined.

(** [no_commit m]: [m] never changes the committed store. *)
Definition no_commit {A} (m : M A) : Prop :=
  ∀ s s' r, m s = Some (s', r) → committed s' = committed s.

(** [raise_safe m]: when [m] raises, the committed store is the one it
    started from. *)
Definition raise_safe {A} (m : M A) : Prop :=
  ∀ s s' e, m s = Some (s', inl e) → committed s' = committed s.

(** The checks on the new parent, as [update_department] makes them. *)
Definition parent_checks (fuel : nat) (department_id : Z) (new_parent_id : option Z)
    : M unit :=
  match new_parent_id with
  | Some p =>
    descendants <- _get_descendant_ids fuel department_id ;;
    if decide (p ∈ descendants) then raise ConflictError
    else
      parent <- _get_department p ;;
      match parent with
      | None => raise DepartmentNotFoundError
      | Some _ => ret tt
      end
  | None => ret tt
  end.

(** What the loop maintains: everything collected or stacked is below
    [x] (or is [x], on the stack), and everything below [x] is collected
    or below something stacked. *)
Definition traversal_inv (tbl : gmap Z Department.t) (x : Z)
    (stack : list Z) (result : gset Z) : Prop :=
  (∀ y, y ∈ result → descendant tbl x y) ∧
  (∀ z, z ∈ stack → z = x ∨ descendant tbl x z) ∧
  (∀ y, descendant tbl x y →
     y ∈ result ∨ ∃ z, z ∈ stack ∧ descendant tbl z y).

(** The effective values as the specification words them: the current
    value exactly when the field is absent from the body, the value of
    the field whenever it is there, a [null] or an empty string included
    (for the name, which is a string, [null] has no value to give). *)
Definition effective_name_as_worded (body : PatchBody.t)
    (data : DepartmentUpdate.t) (department : Department.t) : Prop :=
  match PatchBody.name body with
  | Omitted => effective_name data department = Department.name department
  | Null => False
  | Given s => effective_name data department = s
  end.

Definition effective_parent_id_as_worded (body : PatchBody.t)
    (data : DepartmentUpdate.t) (department : Department.t) : Prop :=
  match PatchBody.parent_id body with
  | Omitted => effective_parent_id data department = Department.parent_id department
  | Null => effective_parent_id data department = None
  | Given p => effective_parent_id data department = Some p
  end.

(** The set marked after [k] rounds. *)
Definition marked_after (tbl : gmap Z Department.t) (department_id : Z) (k : nat)
    : gset Z :=
  Nat.iter k (λ S, S ∪ children_of tbl S) {[department_id]}.

(** The store after [db.delete(department)]. *)
Definition after_delete (st : Store) (department_id : Z) : Store :=
  let marked := cascade_closure (departments st) department_id in
  mkStore (filter (λ kv, kv.1 ∉ marked) (departments st))
          (filter (λ kv, Employee.department_id kv.2 ∉ marked) (employees st)).

(** The store after the two bulk updates of the reassign mode. *)
Definition relinked (st : Store) (department_id target : Z) : Store :=
  mkStore (relink_child department_id target <$> departments st)
          (relink_employee department_id target <$> employees st).

(** The rows of [departments] that the second bulk update writes. *)
Definition relinked_rows (st : Store) (department_id : Z) : gset Z :=
  dom (filter (λ kv, Department.parent_id kv.2 = Some department_id)
              (departments st)).

(** [removed tbl department_id x]: [x] is the department or below it. *)
Definition removed (tbl : gmap Z Department.t) (department_id x : Z) : Prop :=
  x = department_id ∨ descendant tbl department_id x.

(** [read_only m]: [m] leaves the session as it found it. *)
Definition read_only {A} (m : M A) : Prop :=
  ∀ s s' r, m s = Some (s', r) → s' = s.

(** [raises_only_integrity m]: the only exception of [m] is the store's. *)
Definition raises_only_integrity {A} (m : M A) : Prop :=
  ∀ s s' e, m s = Some (s', inl e) → e = IntegrityError.

(** [raise_clean m]: when [m] raises an exception of the service, no
    statement has changed the session. *)
Definition raise_clean {A} (m : M A) : Prop :=
  ∀ s s' e, m s = Some (s', inl e) → e ≠ IntegrityError → s' = s.

(** The order of the children of a node: by [(name, id)]. *)
Definition child_order (a b : Z * Department.t) : Prop :=
  lex_le String.le (Department.name a.2, a.1) (Department.name b.2, b.1).

(** The order of the employees of a node: by [(full_name, id)] when the
    request asks for ["full_name"], else by [(created_at, id)]. *)
Definition employee_order (sort_employees_by : string) (a b : Z * Employee.t) : Prop :=
  if decide (sort_employees_by = "full_name")
  then lex_le String.le (Employee.full_name a.2, a.1) (Employee.full_name b.2, b.1)
  else lex_le Z.le (Employee.created_at a.2, a.1) (Employee.created_at b.2, b.1).

(** [l] lists the rows of [m] that satisfy [P], each once. *)
Definition lists_rows {A} (m : gmap Z A) (P : Z → A → Prop)
    (l : list (Z * A)) : Prop :=
  NoDup l ∧ ∀ i a, (i, a) ∈ l ↔ m !! i = Some a ∧ P i a.

(** The tree view of a department at a given depth: the department, its
    direct employees in order when they are asked for, and, unless the
    depth is zero, its direct children in order, each with its own view
    one level less deep. *)
Fixpoint tree_view (st : Store) (include_employees : bool)
    (sort_employees_by : string) (depth : nat) (dept : Z * Department.t)
    (t : DepartmentTreeResponse) : Prop :=
  tree_department t = DepartmentResponse.model_validate dept ∧
  (if include_employees
   then ∃ emps,
     lists_rows (employees st) (λ _ e, Employee.department_id e = dept.1) emps ∧
     Sorted (employee_order sort_employees_by) emps ∧
     tree_employees t = EmployeeResponse.model_validate <$> emps
   else tree_employees t = []) ∧
  match depth with
  | O => tree_children t = []
  | S depth' => ∃ cs,
     lists_rows (departments st) (λ _ d, Department.parent_id d = Some dept.1) cs ∧
     Sorted child_order cs ∧
     Forall2 (tree_view st include_employees sort_employees_by depth') cs
             (tree_children t)
  end.

(** Every parent is a department of the table. *)
Definition parents_exist (tbl : gmap Z Department.t) : Prop :=
  ∀ c d p, tbl !! c = Some d → Department.parent_id d = Some p → is_Some (tbl !! p).

(** A reassign delete whose target is not below the deleted department;
    any other call. *)
Definition target_outside_subtree (st : Store) (r : Request) : Prop :=
  match r with
  | DeleteDepartment department_id mode (Some target_id) =>
    mode = "reassign" → ¬ descendant (departments st) department_id target_id
  | _ => True
  end.

(** The stores reached by calls none of which is a reassign delete with
    its target below the deleted department. *)
Inductive reachable_outside : Store → Prop :=
  | reachable_outside_empty : reachable_outside empty_store
  | reachable_outside_request st r st' res :
      reachable_outside st → target_outside_subtree st r →
      run (handle r) st = Some (st', res) → reachable_outside st'.

(** The store that [create "Engineering"], [create "Backend" under 1] and
    [delete 1, reassign to 2] reach. *)
Definition store_with_cycle : Store :=
  mkStore {[2 := Department.mk "Backend" (Some 2) 11]} ∅.

(** The calls of [rs] one after the other. *)
Fixpoint run_requests (rs : list Request) (st : Store) : option Store :=
  match rs with
  | [] => Some st
  | r :: rs' =>
    match run (handle r) st with
    | Some (st', _) => run_requests rs' st'
    | None => None
    end
  end.

Definition sample_requests : list Request :=
  [ CreateDepartment (DepartmentCreate.mk "Engineering" None) 10;
    CreateDepartment (DepartmentCreate.mk "Platform" (Some 1)) 11;
    CreateDepartment (DepartmentCreate.mk "Backend" (Some 1)) 12;
    CreateDepartment (DepartmentCreate.mk "API" (Some 3)) 13;
    CreateDepartment (DepartmentCreate.mk "Sales" None) 14;
    CreateEmployee 1 (EmployeeCreate.mk "Alice" "Lead" None) 20;
    CreateEmployee 3 (EmployeeCreate.mk "Carol" "Developer" (Some 100)) 21;
    CreateEmployee 3 (EmployeeCreate.mk "Bob" "Developer" None) 22;
    CreateEmployee 4 (EmployeeCreate.mk "Dave" "Developer" None) 23 ].

(** Engineering (1) has the children Platform (2) and Backend (3),
    Backend has the child API (4), Sales (5) is a second root. *)
Definition sample_store : Store :=
  mkStore
    (<[1 := Department.mk "Engineering" None 10]>
     (<[2 := Department.mk "Platform" (Some 1) 11]>
     (<[3 := Department.mk "Backend" (Some 1) 12]>
     (<[4 := Department.mk "API" (Some 3) 13]>
     (<[5 := Department.mk "Sales" None 14]> ∅)))))
    (<[1 := Employee.mk 1 "Alice" "Lead" None 20]>
     (<[2 := Employee.mk 3 "Carol" "Developer" (Some 100) 21]>
     (<[3 := Employee.mk 3 "Bob" "Developer" None 22]>
     (<[4 := Employee.mk 4 "Dave" "Developer" None 23]> ∅)))).

(** Two roots A (1) and B (2), each with a child named X (3 and 4). *)
Definition same_name_store : Store :=
  mkStore
    (<[1 := Department.mk "A" None 10]>
     (<[2 := Department.mk "B" None 11]>
     (<[3 := Department.mk "X" (Some 1) 12]>
     (<[4 := Department.mk "X" (Some 2) 13]> ∅)))) ∅.

(** The number of levels below the root of a tree view. *)
Fixpoint tree_height (t : DepartmentTreeResponse) : nat :=
  match t with
  | Tree _ _ cs =>
    (fix height_below (cs : list DepartmentTreeResponse) : nat :=
       match cs with
       | [] => 0
       | c :: cs' => S (tree_height c) `max` height_below cs'
       end) cs
  end%nat.

(** [P] holds of every node of a tree view. *)
Fixpoint tree_all (P : DepartmentTreeResponse → Prop) (t : DepartmentTreeResponse)
    : Prop :=
  P t ∧
  match t with
  | Tree _ _ cs =>
    (fix all_below (cs : list DepartmentTreeResponse) : Prop :=
       match cs with
       | [] => True
       | c :: cs' => tree_all P c ∧ all_below cs'
       end) cs
  end.

(** When the store accepts the relink of a reassign delete: no child of
    the deleted department has the name of another department that is, or
    comes, under the target. *)
Definition relink_name_clash (tbl : gmap Z Department.t)
    (department_id target_id : Z) : Prop :=
  ∃ c j dc dj, c ≠ j ∧ tbl !! c = Some dc ∧ tbl !! j = Some dj ∧
    Department.parent_id dc = Some department_id ∧
    (Department.parent_id dj = Some target_id ∨
     Department.parent_id dj = Some department_id) ∧
    Department.name dc = Department.name dj.

(** Every employee belongs to a department of the store. *)
Definition employees_have_department (st : Store) : Prop :=
  ∀ i e, employees st !! i = Some e →
    is_Some (departments st !! Employee.department_id e).

(** The string starts with none of the white space characters. *)
Definition no_leading_space (s : string) : Prop :=
  drop_any (utf8 <$> whitespace) s = None.

(** The string ends with none of the white space characters. *)
Definition no_trailing_space (s : string) : Prop :=
  drop_any (String.rev ∘ utf8 <$> whitespace) (String.rev s) = None.

(** A name as the validators let it through: stripped, not empty, and
    of at most 200 characters. *)
Definition valid_name (s : string) : Prop :=
  strip s = s ∧ s ≠ "" ∧ (1 ≤ len s ≤ 200)%nat.

(** The names in the store are all as the validators let names through. *)
Definition names_valid (st : Store) : Prop :=
  (∀ i d, departments st !! i = Some d → valid_name (Department.name d)) ∧
  (∀ i e, employees st !! i = Some e →
     valid_name (Employee.full_name e) ∧ valid_name (Employee.position e)).

(** The calls of a list, one after the other, through the endpoints. *)
Fixpoint run_calls (cs : list ApiCall) (st : Store) : option Store :=
  match cs with
  | [] => Some st
  | c :: cs' =>
    match api_call c st with
    | Some (st', _) => run_calls cs' st'
    | None => None
    end
  end.

(** The bodies that build the sample store, with the white space a client
    may leave around the names. *)
Definition sample_calls : list ApiCall :=
  [ PostDepartment (PostDepartmentBody.mk (Given "  Engineering") Omitted) 10;
    PostDepartment (PostDepartmentBody.mk (Given "Platform ") (Given 1)) 11;
    PostDepartment (PostDepartmentBody.mk (Given "Backend") (Given 1)) 12;
    PostDepartment (PostDepartmentBody.mk (Given " API ") (Given 3)) 13;
    PostDepartment (PostDepartmentBody.mk (Given "Sales") Null) 14;
    PostEmployee 1 (PostEmployeeBody.mk (Given "Alice ") (Given "Lead") Omitted) 20;
    PostEmployee 3 (PostEmployeeBody.mk (Given "Carol") (Given " Developer")
                                        (Given 100)) 21;
    PostEmployee 3 (PostEmployeeBody.mk (Given "Bob") (Given "Developer") Null) 22;
    PostEmployee 4 (PostEmployeeBody.mk (Given "Dave") (Given "Developer")
                                        Omitted) 23 ].

(** * Proofs *)

#[local] Set Warnings "-clear-no-such-hyp".

(** ** The session monad *)

Lemma bind_ok {A B} (m : M A) (k : A → M B) s s' a :
  m s = Some (s', inr a) → bind m k s = k a s'.
Proof. unfold bind. by intros ->. Qed.

Lemma bind_raise {A B} (m : M A) (k : A → M B) s s' e :
  m s = Some (s', inl e) → bind m k s = Some (s', inl e).
Proof. unfold bind. by intros ->. Qed.

Lemma bind_None {A B} (m : M A) (k : A → M B) s :
  m s = None → bind m k s = None.
Proof. unfold bind. by intros ->. Qed.

Lemma bind_get_department {B} i (k : option Department.t → M B) s :
  bind (_get_department i) k s = k (departments (pending s) !! i) s.
Proof. done. Qed.

Lemma bind_get_pending {B} (k : Store → M B) s :
  bind get_pending k s = k (pending s) s.
Proof. done. Qed.

Lemma bind_inv {A B} (m : M A) (k : A → M B) s s'' r :
  bind m k s = Some (s'', r) →
  (∃ e, m s = Some (s'', inl e) ∧ r = inl e) ∨
  (∃ s' a, m s = Some (s', inr a) ∧ k a s' = Some (s'', r)).
Proof.
  unfold bind. destruct (m s) as [[s' [e|a]]|]; [|eauto|done].
  intros [= <- <-]. eauto.
Qed.

(** ** The store's keys and queries *)

Lemma foldr_max_ge (l : list Z) (k : Z) : k ∈ l → k ≤ foldr Z.max 0 l.
Proof.
  induction l as [|x l IH]; intros Hk.
  - by apply elem_of_nil in Hk.
  - apply elem_of_cons in Hk as [->|Hk]; simpl; [lia|].
    specialize (IH Hk). lia.
Qed.

Lemma next_id_fresh {A} (tbl : gmap Z A) : tbl !! next_id tbl = None.
Proof.
  destruct (tbl !! next_id tbl) as [a|] eqn:Hl; [|done].
  exfalso. apply elem_of_map_to_list in Hl.
  assert (next_id tbl ∈ (map_to_list tbl).*1) as Hin.
  { apply list_elem_of_fmap. by exists (next_id tbl, a). }
  apply foldr_max_ge in Hin. unfold next_id in Hin. lia.
Qed.

Lemma name_parent_query_lookup tbl name parent_id exclude j d :
  name_parent_query tbl name parent_id exclude !! j = Some d ↔
  tbl !! j = Some d ∧ Department.name d = name ∧
  Department.parent_id d = parent_id ∧ exclude ≠ Some j.
Proof.
  unfold name_parent_query. destruct exclude as [e|].
  - rewrite !map_lookup_filter_Some. simpl. split.
    + intros [(? & ? & ?) ?]. repeat split; auto. congruence.
    + intros (? & ? & ? & ?). repeat split; auto. congruence.
  - rewrite map_lookup_filter_Some. simpl. naive_solver.
Qed.

Lemma head_map_to_list_None {A} (m : gmap Z A) :
  head (map_to_list m) = None ↔ m = ∅.
Proof.
  rewrite <- map_to_list_empty_iff. destruct (map_to_list m); simpl; split; congruence.
Qed.

Lemma check_name_taken name parent_id exclude s :
  slot_taken (departments (pending s)) name parent_id exclude →
  _check_name_unique_under_parent name parent_id exclude s = Some (s, inl ConflictError).
Proof.
  intros (j & d & Hj). apply name_parent_query_lookup in Hj.
  unfold _check_name_unique_under_parent, bind, get_pending.
  destruct (head _) as [x|] eqn:Hh; [done|].
  apply head_map_to_list_None in Hh. rewrite Hh in Hj.
  by rewrite lookup_empty in Hj.
Qed.

Lemma check_name_free name parent_id exclude s :
  ¬ slot_taken (departments (pending s)) name parent_id exclude →
  _check_name_unique_under_parent name parent_id exclude s = Some (s, inr tt).
Proof.
  intros Hfree.
  unfold _check_name_unique_under_parent, bind, get_pending.
  destruct (head _) as [[j d]|] eqn:Hh; [|done].
  exfalso. apply Hfree. exists j, d. apply name_parent_query_lookup.
  apply elem_of_map_to_list. destruct (map_to_list _) as [|y l]; simplify_eq/=.
  apply elem_of_cons. by left.
Qed.

Lemma check_name_inv name parent_id exclude s s' r :
  _check_name_unique_under_parent name parent_id exclude s = Some (s', r) →
  s' = s ∧
  (r = inl ConflictError ∧
     slot_taken (departments (pending s)) name parent_id exclude ∨
   r = inr tt ∧
     ¬ slot_taken (departments (pending s)) name parent_id exclude).
Proof.
  intros H.
  destruct (decide (slot_taken (departments (pending s)) name parent_id exclude))
    as [Ht|Ht].
  - rewrite (check_name_taken _ _ _ _ Ht) in H. simplify_eq. auto.
  - rewrite (check_name_free _ _ _ _ Ht) in H. simplify_eq. auto.
Qed.

Lemma slot_taken_exclude tbl name parent_id i :
  slot_taken tbl name parent_id (Some i) → slot_taken tbl name parent_id None.
Proof. intros (j & d & ? & ? & ? & _). by exists j, d. Qed.

(** A row written in a slot that no other row has does not collide. *)
Lemma uq_insert_free tbl i row :
  ¬ slot_taken tbl (Department.name row) (Department.parent_id row) (Some i) →
  uq_department_name_parent (<[i := row]> tbl) {[i]}.
Proof.
  intros Hfree k Hk (r & p & Hr & Hp & j & r' & Hj & Hne & Hn & Hp').
  apply elem_of_singleton in Hk as ->.
  rewrite lookup_insert_eq in Hr. simplify_eq.
  rewrite lookup_insert_ne in Hj by done.
  apply Hfree. exists j, r'. repeat split; auto; congruence.
Qed.

Lemma db_add_department_ok name parent_id now s :
  ¬ slot_taken (departments (pending s)) name parent_id None →
  db_add_department name parent_id now s =
    Some (mkSession (committed s)
            (mkStore (<[next_id (departments (pending s)) :=
                          Department.mk name parent_id now]>
                        (departments (pending s)))
                     (employees (pending s))),
          inr (next_id (departments (pending s)), Department.mk name parent_id now)).
Proof.
  intros Hfree. unfold db_add_department.
  rewrite (bind_ok _ _ s s (pending s)); [|done].
  unfold write_departments. rewrite decide_True.
  - by erewrite bind_ok.
  - apply (uq_insert_free _ _ (Department.mk name parent_id now)).
    intros Ht. by apply slot_taken_exclude in Ht.
Qed.

(** ** Creating a department *)

Lemma create_department_run st data now :
  let tbl := departments st in
  let name := DepartmentCreate.name data in
  let parent_id := DepartmentCreate.parent_id data in
  let row := Department.mk name parent_id now in
  run (create_department data now) st =
    if decide (parent_missing tbl parent_id)
    then Some (st, inl DepartmentNotFoundError)
    else if decide (slot_taken tbl name parent_id None)
    then Some (st, inl ConflictError)
    else Some (mkStore (<[next_id tbl := row]> tbl) (employees st),
               inr (next_id tbl, row)).
Proof.
  destruct data as [name parent_id]. simpl.
  set (s := open_session st).
  unfold run, create_department. fold s.
  cbn [DepartmentCreate.parent_id DepartmentCreate.name].
  case_decide as Hpm.
  { destruct Hpm as (p & -> & Hp).
    rewrite (bind_raise _ _ s s DepartmentNotFoundError); [done|].
    rewrite (bind_ok _ _ s s (departments st !! p)); [|done]. by rewrite Hp. }
  assert ((match parent_id with
           | Some pid =>
             parent <- _get_department pid ;;
             match parent with
             | None => raise DepartmentNotFoundError
             | Some _ => ret tt
             end
           | None => ret tt
           end) s = Some (s, inr tt)) as Hcheck.
  { destruct parent_id as [p|]; [|done].
    rewrite bind_get_department. simpl.
    destruct (departments st !! p) eqn:Hp; [done|].
    exfalso. apply Hpm. by exists p. }
  rewrite (bind_ok _ _ _ _ _ Hcheck).
  case_decide as Htaken.
  - by rewrite (bind_raise _ _ s s ConflictError); [|apply check_name_taken].
  - erewrite bind_ok; [|by apply check_name_free].
    erewrite bind_ok; [|by apply db_add_department_ok].
    by rewrite (bind_ok _ _ _ _ tt eq_refl).
Qed.

(** C9: [create_department] raises [DepartmentNotFoundError] and leaves
    the store as it was when the request names a parent that does not
    exist; otherwise it raises [ConflictError] when a department with the
    same name has the same [parent_id] (two roots included); otherwise it
    commits one new row, with the name and parent of the request, under a
    key that was free, and returns it. *)
Theorem create_department_spec (st : Store) (data : DepartmentCreate.t) (now : Z) :
  let tbl := departments st in
  let name := DepartmentCreate.name data in
  let parent_id := DepartmentCreate.parent_id data in
  (parent_missing tbl parent_id →
     run (create_department data now) st = Some (st, inl DepartmentNotFoundError)) ∧
  (¬ parent_missing tbl parent_id → slot_taken tbl name parent_id None →
     run (create_department data now) st = Some (st, inl ConflictError)) ∧
  (¬ parent_missing tbl parent_id → ¬ slot_taken tbl name parent_id None →
     ∃ i, tbl !! i = None ∧
       run (create_department data now) st =
         Some (mkStore (<[i := Department.mk name parent_id now]> tbl) (employees st),
               inr (i, Department.mk name parent_id now))).
Proof.
  intros tbl name parent_id. rewrite create_department_run.
  fold tbl name parent_id. split; [|split].
  - intros Hpm. by rewrite decide_True.
  - intros Hpm Htaken. by rewrite decide_False, decide_True.
  - intros Hpm Hfree. exists (next_id tbl). split; [apply next_id_fresh|].
    by rewrite !decide_False.
Qed.

(** ** Failure atomicity *)

Lemma no_commit_raise_safe {A} (m : M A) : no_commit m → raise_safe m.
Proof. intros H s s' e. apply H. Qed.

Lemma no_commit_ret {A} (a : A) : no_commit (ret a).
Proof. by intros s s' r [= <- <-]. Qed.

Lemma no_commit_raise {A} e : no_commit (@raise A e).
Proof. by intros s s' r [= <- <-]. Qed.

Lemma no_commit_bind {A B} (m : M A) (k : A → M B) :
  no_commit m → (∀ a, no_commit (k a)) → no_commit (bind m k).
Proof.
  intros Hm Hk s s'' r [(e & H1 & ->)|(s' & a & H1 & H2)]%bind_inv.
  - by apply Hm in H1.
  - apply Hm in H1. apply Hk in H2. congruence.
Qed.

Lemma raise_safe_bind {A B} (m : M A) (k : A → M B) :
  no_commit m → (∀ a, raise_safe (k a)) → raise_safe (bind m k).
Proof.
  intros Hm Hk s s'' e [(e' & H1 & _)|(s' & a & H1 & H2)]%bind_inv.
  - by apply Hm in H1.
  - apply Hm in H1. apply Hk in H2. congruence.
Qed.

Lemma raise_safe_commit_ret {A} (a : A) : raise_safe (db_commit ;;; ret a).
Proof. by intros s s' e. Qed.

Lemma raise_safe_commit : raise_safe db_commit.
Proof. by intros s s' e. Qed.

Lemma no_commit_get_department i : no_commit (_get_department i).
Proof. by intros s s' r [= <- <-]. Qed.

Lemma no_commit_get_pending : no_commit get_pending.
Proof. by intros s s' r [= <- <-]. Qed.

Lemma no_commit_set_departments tbl : no_commit (set_departments tbl).
Proof. by intros s s' r [= <- <-]. Qed.

Lemma no_commit_set_employees tbl : no_commit (set_employees tbl).
Proof. by intros s s' r [= <- <-]. Qed.

Lemma no_commit_write_departments tbl written :
  no_commit (write_departments tbl written).
Proof.
  unfold write_departments. case_decide;
    [apply no_commit_set_departments | apply no_commit_raise].
Qed.

Lemma no_commit_get_descendant_ids fuel i : no_commit (_get_descendant_ids fuel i).
Proof.
  intros s s' r. unfold _get_descendant_ids.
  destruct (_get_descendant_ids_loop _ _ _ _); by intros [= <- <-].
Qed.

Lemma no_commit_check_name name parent_id exclude :
  no_commit (_check_name_unique_under_parent name parent_id exclude).
Proof. intros s s' r H. by apply check_name_inv in H as [-> _]. Qed.

Create HintDb session discriminated.
#[local] Hint Resolve no_commit_ret no_commit_raise no_commit_get_department
  no_commit_get_pending no_commit_set_departments no_commit_set_employees
  no_commit_write_departments no_commit_get_descendant_ids
  no_commit_check_name raise_safe_commit_ret raise_safe_commit : session.

(** Goes through the statements of a service function. *)
Ltac session_step :=
  match goal with
  | |- no_commit (bind _ _) => apply no_commit_bind; [|intros ?]
  | |- raise_safe (bind db_commit _) => apply raise_safe_commit_ret
  | |- raise_safe (bind _ _) => apply raise_safe_bind; [|intros ?]
  | |- raise_safe (ret _) => apply no_commit_raise_safe
  | |- raise_safe (raise _) => apply no_commit_raise_safe
  | |- context [match ?x with _ => _ end] => destruct x
  | |- _ => solve [auto with session]
  end.

Lemma no_commit_db_add_department name parent_id now :
  no_commit (db_add_department name parent_id now).
Proof. unfold db_add_department. repeat session_step. Qed.

Lemma no_commit_db_add_employee department_id data now :
  no_commit (db_add_employee department_id data now).
Proof. unfold db_add_employee. repeat session_step. Qed.

Lemma no_commit_db_delete_department i : no_commit (db_delete_department i).
Proof. unfold db_delete_department. repeat session_step. Qed.

Lemma no_commit_db_update_employees i t :
  no_commit (db_update_employees_department i t).
Proof. unfold db_update_employees_department. repeat session_step. Qed.

Lemma no_commit_db_update_departments i t :
  no_commit (db_update_departments_parent i t).
Proof. unfold db_update_departments_parent. repeat session_step. Qed.

#[local] Hint Resolve no_commit_db_add_department no_commit_db_add_employee
  no_commit_db_delete_department no_commit_db_update_employees
  no_commit_db_update_departments : session.

Lemma raise_safe_create_department data now :
  raise_safe (create_department data now).
Proof. unfold create_department. repeat session_step. Qed.

Lemma raise_safe_create_employee department_id data now :
  raise_safe (create_employee department_id data now).
Proof. unfold create_employee. repeat session_step. Qed.

Lemma raise_safe_update_department fuel department_id data :
  raise_safe (update_department fuel department_id data).
Proof. unfold update_department. repeat session_step. Qed.

Lemma raise_safe_delete_department department_id mode target :
  raise_safe (delete_department department_id mode target).
Proof. unfold delete_department. repeat session_step. Qed.

Lemma run_raise_unchanged {A} (m : M A) st st' e :
  raise_safe m → run m st = Some (st', inl e) → st' = st.
Proof.
  intros Hm. unfold run.
  destruct (m (open_session st)) as [[s r]|] eqn:H; [|done].
  intros [= <- ->]. by apply Hm in H.
Qed.

Lemma raise_safe_then_ret {A B} (m : M A) (b : B) :
  raise_safe m → raise_safe (m ;;; ret b).
Proof.
  intros Hm s s' e [(e' & H & _)|(s1 & a & _ & ?)]%bind_inv; [|done].
  by apply Hm in H.
Qed.

Lemma raise_safe_handle r : raise_safe (handle r).
Proof.
  destruct r; simpl.
  - apply raise_safe_then_ret, raise_safe_create_department.
  - apply raise_safe_then_ret, raise_safe_create_employee.
  - apply raise_safe_then_ret, raise_safe_update_department.
  - apply raise_safe_delete_department.
Qed.

(** ** What a call of [update_department] can do *)

Lemma parent_checks_inv fuel department_id new_parent_id s s' r :
  parent_checks fuel department_id new_parent_id s = Some (s', r) →
  s' = s ∧
  match new_parent_id with
  | None => r = inr tt
  | Some p =>
    ∃ descendants,
      _get_descendant_ids_loop fuel (departments (pending s)) [department_id] ∅
        = Some descendants ∧
      (if decide (p ∈ descendants) then r = inl ConflictError
       else match departments (pending s) !! p with
            | None => r = inl DepartmentNotFoundError
            | Some _ => r = inr tt
            end)
  end.
Proof.
  unfold parent_checks. destruct new_parent_id as [p|]; [|by intros [= <- <-]].
  unfold bind at 1, _get_descendant_ids.
  destruct (_get_descendant_ids_loop _ _ _ _) as [descendants|]; [|done].
  case_decide.
  - intros [= <- <-]. split; [done|]. exists descendants. by rewrite decide_True.
  - rewrite bind_get_department.
    destruct (departments (pending s) !! p) eqn:Hp; intros [= <- <-];
      (split; [done|]); exists descendants; by rewrite decide_False.
Qed.

Lemma update_department_unfold fuel department_id data department s :
  departments (pending s) !! department_id = Some department →
  update_department fuel department_id data s =
    let new_parent_id := effective_parent_id data department in
    let new_name := effective_name data department in
    if decide (new_parent_id = Some department_id) then Some (s, inl ConflictError)
    else
      (parent_checks fuel department_id new_parent_id ;;;
       _check_name_unique_under_parent new_name new_parent_id (Some department_id) ;;;
       let row := Department.mk new_name new_parent_id
                                (Department.created_at department) in
       st <- get_pending ;;
       write_departments (<[department_id := row]> (departments st))
                         {[department_id]} ;;;
       db_commit ;;;
       ret (department_id, row)) s.
Proof.
  intros H. unfold update_department. rewrite bind_get_department, H.
  simpl. by case_decide.
Qed.

(** The outcome of a call on an existing department: it raised and the
    store is as before, or it passed every check and wrote the row. *)
Lemma update_department_inv fuel department_id data department st st' res :
  departments st !! department_id = Some department →
  run (update_department fuel department_id data) st = Some (st', res) →
  let new_parent_id := effective_parent_id data department in
  let new_name := effective_name data department in
  let row := Department.mk new_name new_parent_id (Department.created_at department) in
  (∃ e, res = inl e ∧ st' = st) ∨
  (res = inr (department_id, row) ∧
   st' = mkStore (<[department_id := row]> (departments st)) (employees st) ∧
   new_parent_id ≠ Some department_id ∧
   ¬ slot_taken (departments st) new_name new_parent_id (Some department_id) ∧
   ∀ p, new_parent_id = Some p →
     is_Some (departments st !! p) ∧
     ∃ descendants,
       _get_descendant_ids_loop fuel (departments st) [department_id] ∅
         = Some descendants ∧ p ∉ descendants).
Proof.
  intros Hd Hrun. simpl.
  destruct res as [e|res].
  { left. exists e. split; [done|].
    eapply run_raise_unchanged; [|done]. apply raise_safe_update_department. }
  right. unfold run in Hrun.
  rewrite (update_department_unfold _ _ _ department) in Hrun by done.
  simpl in Hrun. case_decide as Hself; [done|].
  set (s := open_session st) in *.
  destruct (bind _ _ s) as [[s4 r4]|] eqn:H; [|done]. simplify_eq.
  apply bind_inv in H as [(? & _ & ?)|(s1 & [] & Hpc & H)]; [done|].
  apply parent_checks_inv in Hpc as [-> Hpc].
  apply bind_inv in H as [(? & _ & ?)|(s2 & [] & Hname & H)]; [done|].
  apply check_name_inv in Hname as [-> [[? _]|[_ Hfree]]]; [done|].
  rewrite bind_get_pending in H. unfold write_departments in H.
  case_decide as Huq; [|done].
  rewrite (bind_ok _ _ _ _ tt eq_refl) in H.
  rewrite (bind_ok _ _ _ _ tt eq_refl) in H.
  injection H as <- <-. simpl.
  split; [done|]. split; [done|]. split; [done|]. split; [done|].
  intros p Hp. rewrite Hp in Hpc. destruct Hpc as (descendants & Hloop & Hpc).
    case_decide; [done|]. simpl in *.
    destruct (departments st !! p); [|done].
    split; [by eexists|]. eauto.
Qed.

(** ** The descendant traversal *)

Lemma elem_of_child_ids tbl p c : c ∈ child_ids tbl p ↔ child_of tbl p c.
Proof.
  unfold child_ids, child_of. rewrite list_elem_of_fmap. split.
  - intros ([c' d] & -> & Hin). apply elem_of_map_to_list in Hin.
    apply map_lookup_filter_Some in Hin as [? ?]. eauto.
  - intros (d & Hc & Hp). exists (c, d). split; [done|].
    apply elem_of_map_to_list, map_lookup_filter_Some. auto.
Qed.

Lemma visit_rows_eq rows result stack :
  visit_rows rows result stack = (list_to_set rows ∪ result, reverse rows ++ stack).
Proof.
  unfold visit_rows. revert result stack.
  induction rows as [|c rows IH]; intros result stack; simpl.
  - f_equal. set_solver.
  - rewrite IH. simpl. rewrite reverse_cons, <- app_assoc. simpl.
    f_equal. set_solver.
Qed.

Lemma descendant_inv tbl x y :
  descendant tbl x y ↔
  child_of tbl x y ∨ ∃ c, child_of tbl x c ∧ descendant tbl c y.
Proof.
  split.
  - intros H. destruct H as [x y H|x c y H1 H2]; eauto.
  - intros [H|(c & H1 & H2)]; [by apply tc_once|by eapply tc_l].
Qed.

Lemma descendant_exists tbl x y : descendant tbl x y → is_Some (tbl !! y).
Proof.
  intros H.
  induction H as [x y (d & Hd & _)|x c y _ _ IH]; [by eexists|done].
Qed.

Lemma traversal_inv_init tbl x : traversal_inv tbl x [x] ∅.
Proof.
  split; [set_solver|]. split.
  - intros z ->%list_elem_of_singleton. by left.
  - intros y Hy. right. exists x. split; [by apply list_elem_of_singleton|done].
Qed.

Lemma traversal_inv_step tbl x current stack result :
  traversal_inv tbl x (current :: stack) result →
  traversal_inv tbl x (reverse (child_ids tbl current) ++ stack)
                (list_to_set (child_ids tbl current) ∪ result).
Proof.
  intros (Hres & Hstack & Hall).
  assert (∀ c, child_of tbl current c → descendant tbl x c) as Hchild.
  { intros c Hc. destruct (Hstack current) as [->|Hx]; [by left|by apply tc_once|].
    by eapply tc_r. }
  split; [|split].
  - intros y [Hy|Hy]%elem_of_union; [|by apply Hres].
    apply elem_of_list_to_set, elem_of_child_ids in Hy. by apply Hchild.
  - intros z [Hz|Hz]%elem_of_app.
    + right. apply elem_of_reverse, elem_of_child_ids in Hz. by apply Hchild.
    + apply Hstack. by right.
  - intros y Hy. destruct (Hall y Hy) as [?|(z & Hz & Hzy)]; [left; set_solver|].
    apply elem_of_cons in Hz as [->|Hz].
    + apply descendant_inv in Hzy as [Hc|(c & Hc & Hcy)].
      * left. apply elem_of_union. left.
        by apply elem_of_list_to_set, elem_of_child_ids.
      * right. exists c. split; [|done].
        apply elem_of_app. left. by apply elem_of_reverse, elem_of_child_ids.
    + right. exists z. split; [|done]. apply elem_of_app. by right.
Qed.

Lemma traversal_loop_correct fuel tbl x stack result descendants :
  traversal_inv tbl x stack result →
  _get_descendant_ids_loop fuel tbl stack result = Some descendants →
  ∀ y, y ∈ descendants ↔ descendant tbl x y.
Proof.
  revert stack result. induction fuel as [|fuel IH]; intros stack result Hinv.
  - destruct stack; [|done]. intros [= <-] y. destruct Hinv as (H1 & _ & H3).
    split; [apply H1|]. intros Hy. destruct (H3 y Hy) as [?|(z & Hz & _)]; [done|].
    by apply elem_of_nil in Hz.
  - destruct stack as [|current stack].
    + intros [= <-] y. destruct Hinv as (H1 & _ & H3).
      split; [apply H1|]. intros Hy. destruct (H3 y Hy) as [?|(z & Hz & _)]; [done|].
      by apply elem_of_nil in Hz.
    + simpl. rewrite visit_rows_eq. simpl. apply IH.
      by apply traversal_inv_step.
Qed.

(** When [_get_descendant_ids] returns, it returns the ids below the
    department, all of them and nothing else. *)
Lemma get_descendant_ids_correct fuel tbl x descendants :
  _get_descendant_ids_loop fuel tbl [x] ∅ = Some descendants →
  ∀ y, y ∈ descendants ↔ descendant tbl x y.
Proof. apply traversal_loop_correct, traversal_inv_init. Qed.

(** The loop returns with an empty stack whatever fuel is left. *)
Lemma traversal_loop_nil fuel tbl result :
  _get_descendant_ids_loop fuel tbl [] result = Some result.
Proof. by destruct fuel. Qed.

(** Below a department from which the children relation is well founded,
    the loop works its way through the node and what it pushes, in a
    number of iterations that does not depend on the rest of the stack. *)
Lemma traversal_list_terminates tbl (l : list Z) :
  (∀ c, c ∈ l → ∃ n, ∀ m stack result, ∃ result',
      _get_descendant_ids_loop (n + m) tbl (c :: stack) result =
      _get_descendant_ids_loop m tbl stack result') →
  ∃ n, ∀ m stack result, ∃ result',
    _get_descendant_ids_loop (n + m) tbl (l ++ stack) result =
    _get_descendant_ids_loop m tbl stack result'.
Proof.
  induction l as [|c l IH]; intros Hl.
  - exists 0%nat. intros m stack result. by exists result.
  - destruct (Hl c) as [n1 H1]; [by left|].
    destruct IH as [n2 H2]; [intros c' Hc'; apply Hl; by right|].
    exists (n1 + n2)%nat. intros m stack result.
    destruct (H1 (n2 + m)%nat (l ++ stack) result) as [r1 Hr1].
    destruct (H2 m stack r1) as [r2 Hr2].
    exists r2. simpl. rewrite <- Nat.add_assoc. congruence.
Qed.

Lemma traversal_node_terminates tbl x :
  sn (child_of tbl) x →
  ∃ n, ∀ m stack result, ∃ result',
    _get_descendant_ids_loop (n + m) tbl (x :: stack) result =
    _get_descendant_ids_loop m tbl stack result'.
Proof.
  induction 1 as [x _ IH].
  destruct (traversal_list_terminates tbl (reverse (child_ids tbl x))) as [n Hn].
  { intros c Hc. apply IH. by apply elem_of_reverse, elem_of_child_ids in Hc. }
  exists (S n). intros m stack result. simpl. rewrite visit_rows_eq. simpl.
  apply Hn.
Qed.

Lemma acyclic_sn tbl x : acyclic tbl → sn (child_of tbl) x.
Proof.
  intros Hacyclic. apply tc_finite_sn.
  - intros d. apply Hacyclic.
  - exists (map_to_list tbl).*1. intros y Hy.
    destruct (descendant_exists tbl x y Hy) as [d Hd].
    apply list_elem_of_fmap. exists (y, d). split; [done|].
    by apply elem_of_map_to_list.
Qed.

(** In a table without cycles the traversal returns: some amount of fuel
    is enough, and so is any larger amount. *)
Lemma get_descendant_ids_terminates tbl x :
  acyclic tbl →
  ∃ n descendants, ∀ fuel, (n ≤ fuel)%nat →
    _get_descendant_ids_loop fuel tbl [x] ∅ = Some descendants.
Proof.
  intros Hacyclic.
  destruct (traversal_node_terminates tbl x (acyclic_sn tbl x Hacyclic)) as [n Hn].
  destruct (Hn 0%nat [] ∅) as [descendants Hd].
  rewrite traversal_loop_nil in Hd.
  exists n, descendants. intros fuel Hfuel.
  destruct (Hn (fuel - n)%nat [] ∅) as [d' Hd'].
  rewrite traversal_loop_nil in Hd'.
  replace (n + (fuel - n))%nat with fuel in Hd' by lia.
  rewrite Hd'. f_equal.
  apply set_eq. intros y.
  rewrite (get_descendant_ids_correct _ _ _ _ Hd').
  rewrite Nat.add_0_r in Hd.
  by rewrite (get_descendant_ids_correct _ _ _ _ Hd).
Qed.

(** ** The checks of [update_department] *)

(** The statements of [update_department] after the checks on the new
    parent: the name check, the write and the commit. *)
Lemma update_department_finish fuel department_id data department st :
  departments st !! department_id = Some department →
  let new_parent_id := effective_parent_id data department in
  let new_name := effective_name data department in
  let row := Department.mk new_name new_parent_id (Department.created_at department) in
  new_parent_id ≠ Some department_id →
  parent_checks fuel department_id new_parent_id (open_session st)
    = Some (open_session st, inr tt) →
  run (update_department fuel department_id data) st =
    if decide (slot_taken (departments st) new_name new_parent_id (Some department_id))
    then Some (st, inl ConflictError)
    else Some (mkStore (<[department_id := row]> (departments st)) (employees st),
               inr (department_id, row)).
Proof.
  intros Hd new_parent_id new_name row Hself Hpc. unfold run.
  rewrite (update_department_unfold _ _ _ department) by done.
  fold new_parent_id new_name. cbv zeta. rewrite decide_False by done.
  rewrite (bind_ok _ _ _ _ _ Hpc). case_decide as Htaken.
  - by rewrite (bind_raise _ _ _ _ _ (check_name_taken _ _ _ (open_session st) Htaken)).
  - rewrite (bind_ok _ _ _ _ _ (check_name_free _ _ _ (open_session st) Htaken)).
    rewrite bind_get_pending. unfold write_departments.
    rewrite decide_True by (by apply (uq_insert_free _ _ (Department.mk _ _ _))).
    by rewrite !(bind_ok _ _ _ _ tt eq_refl).
Qed.


(** [update_department] returns as soon as the traversal does. *)
Lemma update_department_returns fuel department_id data st :
  (∀ department p, departments st !! department_id = Some department →
     effective_parent_id data department = Some p → p ≠ department_id →
     is_Some (_get_descendant_ids_loop fuel (departments st) [department_id] ∅)) →
  is_Some (run (update_department fuel department_id data) st).
Proof.
  intros Hloop.
  destruct (departments st !! department_id) as [department|] eqn:Hd; cycle 1.
  { unfold run, update_department. rewrite bind_get_department. simpl.
    rewrite Hd. by eexists. }
  specialize (Hloop department).
  destruct (decide (effective_parent_id data department = Some department_id))
    as [Hself|Hself].
  { unfold run. rewrite (update_department_unfold _ _ _ department) by done.
    cbv zeta. rewrite decide_True by done. by eexists. }
  destruct (parent_checks fuel department_id (effective_parent_id data department)
              (open_session st)) as [[s r]|] eqn:Hpc.
  - pose proof Hpc as [-> _]%parent_checks_inv. destruct r as [e|[]].
    + unfold run. rewrite (update_department_unfold _ _ _ department) by done.
      cbv zeta. rewrite decide_False by done.
      rewrite (bind_raise _ _ _ _ _ Hpc). by eexists.
    + rewrite (update_department_finish _ _ _ department) by done.
      case_decide; by eexists.
  - exfalso. unfold parent_checks in Hpc.
    destruct (effective_parent_id data department) as [p|] eqn:Hp; [|done].
    destruct (Hloop p) as [descendants Hdesc]; [done|done|congruence|].
    unfold bind at 1, _get_descendant_ids in Hpc. simpl in Hpc.
    rewrite Hdesc in Hpc. case_decide; [done|].
    rewrite bind_get_department in Hpc. by destruct (_ !! p).
Qed.

(** ** The effective values of an update *)

(** C10: [update_department] cannot make a department a root.  After a
    call on a department that has a parent, whatever the request and
    whether the call raised or not, the department still has a parent;
    and a request whose [parent_id] is [None] (the field absent from the
    body, or [null]) leaves the department the parent it had.  In a table
    without cycles the call returns, given enough fuel. *)
Theorem update_department_never_makes_root (st : Store) (department_id : Z)
    (department : Department.t) (data : DepartmentUpdate.t) :
  departments st !! department_id = Some department →
  (∀ fuel st' res,
     run (update_department fuel department_id data) st = Some (st', res) →
     (∀ p, Department.parent_id department = Some p →
        ∃ d' q, departments st' !! department_id = Some d' ∧
                Department.parent_id d' = Some q) ∧
     (DepartmentUpdate.parent_id data = None →
        ∃ d', departments st' !! department_id = Some d' ∧
              Department.parent_id d' = Department.parent_id department)) ∧
  validate_parent_id Omitted = None ∧ validate_parent_id Null = None ∧
  (acyclic (departments st) → ∃ n, ∀ fuel, (n ≤ fuel)%nat →
     is_Some (run (update_department fuel department_id data) st)).
Proof.
  intros Hd. split; [|split; [done|split; [done|]]].
  - intros fuel st' res Hrun.
    destruct (update_department_inv _ _ _ _ _ _ _ Hd Hrun)
      as [(e & -> & ->)|(-> & -> & _)].
    + split; [intros p Hp; eauto|eauto].
    + simpl. rewrite lookup_insert_eq. split.
      * intros p Hp.
        destruct (DepartmentUpdate.parent_id data) as [q|] eqn:Hq;
          [eexists _, q|eexists _, p]; (split; [reflexivity|]); simpl;
          unfold effective_parent_id; by rewrite Hq.
      * intros Hnone. eexists. split; [done|]. simpl.
        unfold effective_parent_id. by rewrite Hnone.
  - intros Hacyclic.
    destruct (get_descendant_ids_terminates _ department_id Hacyclic)
      as (n & descendants & Hn).
    exists n. intros fuel Hfuel. apply update_department_returns.
    intros _ _ _ _ _. rewrite (Hn fuel Hfuel). by eexists.
Qed.

(** A body that sets [name] to the empty string and [parent_id] to [null]
    is valid, and [update_department] keeps the current name and the
    current parent for it: neither value is the one of the body. *)
Lemma effective_values_null_counterexample :
  let body := PatchBody.mk (Given "") Null in
  let department := Department.mk "Backend" (Some 1) 11 in
  ∃ data, DepartmentUpdate_validate body = Some data ∧
    effective_name data department = "Backend" ∧
    effective_parent_id data department = Some 1 ∧
    ¬ effective_name_as_worded body data department ∧
    ¬ effective_parent_id_as_worded body data department.
Proof.
  simpl. eexists. split; [reflexivity|]. split; [reflexivity|].
  split; [reflexivity|]. split; intros H; discriminate H.
Qed.

(** C6, as the code has it: for a valid body, the effective name is the
    stripped name of the body when the body has a name that is not empty
    once stripped, and the current name otherwise (field absent, [null],
    empty or blank); the effective parent is the [parent_id] of the body
    when it is an id, and the current parent otherwise (field absent or
    [null]). *)
Theorem effective_values_spec (body : PatchBody.t) (data : DepartmentUpdate.t)
    (department : Department.t) :
  DepartmentUpdate_validate body = Some data →
  effective_name data department =
    match PatchBody.name body with
    | Given s => if decide (strip s = "") then Department.name department else strip s
    | _ => Department.name department
    end ∧
  effective_parent_id data department =
    match PatchBody.parent_id body with
    | Given p => Some p
    | _ => Department.parent_id department
    end.
Proof.
  destruct body as [n p]. unfold DepartmentUpdate_validate. simpl.
  destruct (validate_name n) as [n'|] eqn:Hn; [|done]. intros [= <-].
  unfold effective_name, effective_parent_id. simpl. split.
  - destruct n as [| |s]; simpl in Hn; try by simplify_eq.
    case_decide; simplify_eq; [done|]. by case_decide; simplify_eq.
  - by destruct p.
Qed.

(** ** The rows that a delete marks *)

Lemma elem_of_children_of tbl (S : gset Z) x :
  x ∈ children_of tbl S ↔ ∃ p, p ∈ S ∧ child_of tbl p x.
Proof.
  unfold children_of, child_of, parent_in. rewrite elem_of_dom. split.
  - intros [d Hd]. apply map_lookup_filter_Some in Hd as [Hx (p & Hp & Hin)].
    simpl in *. eauto.
  - intros (p & Hin & d & Hx & Hp). exists d.
    apply map_lookup_filter_Some. split; [done|]. simpl. eauto.
Qed.

Lemma marked_after_S tbl x k :
  marked_after tbl x (S k) =
    marked_after tbl x k ∪ children_of tbl (marked_after tbl x k).
Proof. done. Qed.

Lemma marked_after_root tbl x k : x ∈ marked_after tbl x k.
Proof.
  induction k as [|k IH]; [by apply elem_of_singleton_2|].
  rewrite marked_after_S. set_solver.
Qed.

Lemma marked_after_sound tbl x k y :
  y ∈ marked_after tbl x k → rtc (child_of tbl) x y.
Proof.
  revert y. induction k as [|k IH]; intros y.
  - change (marked_after tbl x 0) with ({[x]} : gset Z).
    by intros ->%elem_of_singleton.
  - rewrite marked_after_S. intros [Hy|Hy]%elem_of_union; [by apply IH|].
    apply elem_of_children_of in Hy as (p & Hp & Hc).
    eapply rtc_r; [by apply IH|done].
Qed.

Lemma marked_after_dom tbl x k :
  is_Some (tbl !! x) → marked_after tbl x k ⊆ dom tbl.
Proof.
  intros Hx. induction k as [|k IH].
  - change (marked_after tbl x 0) with ({[x]} : gset Z).
    intros y ->%elem_of_singleton. by apply elem_of_dom.
  - rewrite marked_after_S. intros y [Hy|Hy]%elem_of_union; [by apply IH|].
    apply elem_of_children_of in Hy as (p & _ & d & Hd & _).
    apply elem_of_dom. by eexists.
Qed.

(** Each round marks a new row unless the marked set is already closed
    under the children relation. *)
Lemma marked_after_closed_or_grows tbl x k :
  children_of tbl (marked_after tbl x k) ⊆ marked_after tbl x k ∨
  (k + 1 ≤ size (marked_after tbl x k))%nat.
Proof.
  induction k as [|k IH].
  - right. change (marked_after tbl x 0) with ({[x]} : gset Z).
    by rewrite size_singleton.
  - destruct (decide (children_of tbl (marked_after tbl x k) ⊆ marked_after tbl x k))
      as [Hclosed|Hopen].
    + left. rewrite marked_after_S.
      replace (marked_after tbl x k ∪ children_of tbl (marked_after tbl x k))
        with (marked_after tbl x k) by set_solver.
      done.
    + right. destruct IH as [?|Hsize]; [done|].
      assert (marked_after tbl x k ⊂ marked_after tbl x (S k)) as Hlt.
      { rewrite marked_after_S. split; [set_solver|].
        intros Hsub. apply Hopen. set_solver. }
      apply subset_size in Hlt. lia.
Qed.

Lemma cascade_closure_closed tbl x :
  is_Some (tbl !! x) →
  children_of tbl (cascade_closure tbl x) ⊆ cascade_closure tbl x.
Proof.
  intros Hx. change (cascade_closure tbl x) with (marked_after tbl x (size tbl)).
  destruct (marked_after_closed_or_grows tbl x (size tbl)) as [?|Hsize]; [done|].
  pose proof (subseteq_size _ _ (marked_after_dom tbl x (size tbl) Hx)) as Hle.
  rewrite size_dom in Hle. lia.
Qed.

(** A delete marks the department and what is below it. *)
Lemma elem_of_cascade_closure tbl x y :
  is_Some (tbl !! x) →
  y ∈ cascade_closure tbl x ↔ y = x ∨ descendant tbl x y.
Proof.
  intros Hx. split.
  - intros Hy%marked_after_sound. apply rtc_tc in Hy as [->|?]; auto.
  - intros Hy. assert (rtc (child_of tbl) x y) as Hrtc.
    { apply rtc_tc. destruct Hy as [->|?]; auto. }
    clear Hy. revert y Hrtc.
    apply (rtc_ind_r (λ y, y ∈ cascade_closure tbl x)).
    + apply (marked_after_root tbl x (size tbl)).
    + intros y z _ Hc IH.
      apply (cascade_closure_closed tbl x Hx), elem_of_children_of. eauto.
Qed.

(** ** What a call of [delete_department] can do *)

Lemma db_delete_department_run department_id s :
  let tbl := departments (pending s) in
  db_delete_department department_id s =
    if decide (department_id ∈ children_of tbl (cascade_closure tbl department_id))
    then Some (s, inl CircularDependencyError)
    else Some (mkSession (committed s) (after_delete (pending s) department_id),
               inr tt).
Proof.
  unfold db_delete_department. rewrite bind_get_pending. cbv zeta.
  by case_decide.
Qed.

Lemma descendant_last tbl x z :
  descendant tbl x z → ∃ y, rtc (child_of tbl) x y ∧ child_of tbl y z.
Proof.
  induction 1 as [x z H|x c z H _ (y & Hy & Hz)].
  - by exists x.
  - exists y. split; [by eapply rtc_l|done].
Qed.

(** The department is the child of a department that its delete marks
    exactly when it is below itself. *)
Lemma delete_order_descendant tbl department_id :
  is_Some (tbl !! department_id) →
  department_id ∈ children_of tbl (cascade_closure tbl department_id) ↔
  descendant tbl department_id department_id.
Proof.
  intros Hd. rewrite elem_of_children_of. split.
  - intros (p & Hp & Hc). apply elem_of_cascade_closure in Hp; [|done].
    destruct Hp as [->|Hp]; [by apply tc_once|by eapply tc_r].
  - intros (p & Hp & Hc)%descendant_last. exists p. split; [|done].
    apply elem_of_cascade_closure; [done|].
    apply rtc_tc in Hp as [->|Hp]; auto.
Qed.

(** A department above a department that is below itself is below
    itself: a department has one parent. *)
Lemma descendant_above_cycle tbl a c :
  descendant tbl a c → descendant tbl c c → descendant tbl a a.
Proof.
  intros Hac Hcc.
  assert (∀ p x, child_of tbl p x → descendant tbl c x → descendant tbl c p)
    as Hparent.
  { intros p x (d & Hx & Hp) (y & Hy & d' & Hx' & Hp')%descendant_last.
    assert (y = p) as -> by congruence.
    apply rtc_tc in Hy as [<-|Hy]; done. }
  assert (descendant tbl c a) as Hca; [|by etrans].
  induction Hac as [a c Hc|a b c Hab _ IH]; [by apply (Hparent a c)|].
  apply (Hparent a b); [done|]. by apply IH.
Qed.

(** So the delete has no order exactly when one of the departments it
    marks is below itself. *)
Lemma delete_order_marked tbl department_id :
  is_Some (tbl !! department_id) →
  department_id ∈ children_of tbl (cascade_closure tbl department_id) ↔
  ∃ c, c ∈ cascade_closure tbl department_id ∧ descendant tbl c c.
Proof.
  intros Hd. rewrite delete_order_descendant by done. split.
  - intros Hcycle. exists department_id. split; [|done].
    apply elem_of_cascade_closure; auto.
  - intros (c & Hc & Hcycle). apply elem_of_cascade_closure in Hc; [|done].
    destruct Hc as [->|Hc]; [done|]. by eapply descendant_above_cycle.
Qed.

Lemma db_update_departments_parent_run department_id target_id s :
  db_update_departments_parent department_id target_id s =
    if decide (uq_department_name_parent
                 (relink_child department_id target_id <$> departments (pending s))
                 (relinked_rows (pending s) department_id))
    then Some (mkSession (committed s)
                 (mkStore (relink_child department_id target_id
                             <$> departments (pending s))
                          (employees (pending s))), inr tt)
    else Some (s, inl IntegrityError).
Proof.
  unfold db_update_departments_parent. rewrite bind_get_pending.
  unfold write_departments, relinked_rows. by case_decide.
Qed.

(** After the two bulk updates of the reassign mode the department has no
    child, so its delete marks no other department and has its order. *)
Lemma relinked_children tbl department_id target_id :
  target_id ≠ department_id →
  children_of (relink_child department_id target_id <$> tbl) {[department_id]} = ∅.
Proof.
  intros Hne. apply set_eq. intros x. split; [|set_solver].
  intros (p & ->%elem_of_singleton & d & Hx & Hp)%elem_of_children_of.
  rewrite lookup_fmap in Hx. destruct (tbl !! x) as [d0|]; simplify_eq/=.
  unfold relink_child in Hp. case_decide; simplify_eq/=.
Qed.

Lemma relinked_cascade_closure tbl department_id target_id :
  target_id ≠ department_id →
  cascade_closure (relink_child department_id target_id <$> tbl) department_id
    = {[department_id]}.
Proof.
  intros Hne.
  change (cascade_closure ?t ?x) with (marked_after t x (size t)).
  induction (size (relink_child department_id target_id <$> tbl)) as [|k IH];
    [done|].
  rewrite marked_after_S, IH, relinked_children by done. set_solver.
Qed.

Lemma relinked_delete_order tbl department_id target_id :
  target_id ≠ department_id →
  let tbl' := relink_child department_id target_id <$> tbl in
  department_id ∉ children_of tbl' (cascade_closure tbl' department_id).
Proof.
  intros Hne. cbv zeta.
  rewrite relinked_cascade_closure, relinked_children by done. set_solver.
Qed.

Lemma delete_department_cascade_run department_id target st :
  is_Some (departments st !! department_id) →
  run (delete_department department_id "cascade" target) st =
    if decide (department_id ∈ children_of (departments st)
                 (cascade_closure (departments st) department_id))
    then Some (st, inl CircularDependencyError)
    else Some (after_delete st department_id, inr tt).
Proof.
  intros [d Hd]. unfold run, delete_department.
  rewrite bind_get_department. cbn [pending open_session]. rewrite Hd.
  rewrite decide_True by done.
  pose proof (db_delete_department_run department_id (open_session st)) as Hrun.
  cbv zeta in Hrun. cbn [pending open_session] in Hrun.
  case_decide.
  - by rewrite (bind_raise _ _ _ _ _ Hrun).
  - by rewrite (bind_ok _ _ _ _ _ Hrun).
Qed.


(** The cascade delete of a department that is below itself deletes
    nothing. *)
Lemma delete_department_cascade_cycle department_id target st :
  descendant (departments st) department_id department_id →
  run (delete_department department_id "cascade" target) st =
    Some (st, inl CircularDependencyError).
Proof.
  intros Hcycle. pose proof (descendant_exists _ _ _ Hcycle) as Hd.
  rewrite delete_department_cascade_run by done.
  rewrite decide_True; [done|]. by rewrite delete_order_descendant.
Qed.

Lemma delete_department_reassign_run department_id target_id st :
  is_Some (departments st !! department_id) →
  is_Some (departments st !! target_id) →
  target_id ≠ department_id →
  run (delete_department department_id "reassign" (Some target_id)) st =
    if decide (uq_department_name_parent
                 (departments (relinked st department_id target_id))
                 (relinked_rows st department_id))
    then Some (after_delete (relinked st department_id target_id) department_id,
               inr tt)
    else Some (st, inl IntegrityError).
Proof.
  intros [d Hd] [t Ht] Hne. unfold run, delete_department.
  rewrite bind_get_department. cbn [pending open_session]. rewrite Hd.
  rewrite decide_False by done. rewrite decide_True by done.
  rewrite bind_get_department. cbn [pending open_session]. rewrite Ht.
  rewrite decide_False by done.
  unfold db_update_employees_department.
  rewrite (bind_ok _ _ _ _ tt eq_refl).
  match goal with |- context [bind _ _ ?s] => set (s1 := s) end.
  pose proof (db_update_departments_parent_run department_id target_id s1) as Hrun.
  change (uq_department_name_parent _ _)
    with (uq_department_name_parent
            (departments (relinked st department_id target_id))
            (relinked_rows st department_id)) in Hrun.
  destruct (decide (uq_department_name_parent
                      (departments (relinked st department_id target_id))
                      (relinked_rows st department_id))) as [Huq|Huq].
  - rewrite (bind_ok _ _ _ _ _ Hrun).
    pose proof (db_delete_department_run department_id
                  (mkSession (committed s1)
                     (mkStore (relink_child department_id target_id
                                 <$> departments (pending s1))
                              (employees (pending s1))))) as Hdel.
    cbv zeta in Hdel. cbn [pending departments] in Hdel.
    rewrite decide_False in Hdel by (by apply relinked_delete_order).
    rewrite (bind_ok _ _ _ _ _ Hdel). reflexivity.
  - by rewrite (bind_raise _ _ _ _ _ Hrun).
Qed.

Lemma delete_department_inv department_id mode target st st' res :
  run (delete_department department_id mode target) st = Some (st', res) →
  (∃ e, res = inl e ∧ st' = st) ∨
  (res = inr tt ∧ mode = "cascade" ∧ is_Some (departments st !! department_id) ∧
   st' = after_delete st department_id) ∨
  (res = inr tt ∧ mode = "reassign" ∧
   ∃ target_id, target = Some target_id ∧ target_id ≠ department_id ∧
     is_Some (departments st !! department_id) ∧
     is_Some (departments st !! target_id) ∧
     uq_department_name_parent (departments (relinked st department_id target_id))
                               (relinked_rows st department_id) ∧
     st' = after_delete (relinked st department_id target_id) department_id).
Proof.
  intros Hrun. destruct res as [e|[]].
  { left. exists e. split; [done|].
    eapply run_raise_unchanged; [|done]. apply raise_safe_delete_department. }
  right.
  destruct (departments st !! department_id) as [d|] eqn:Hd; cycle 1.
  { unfold run, delete_department in Hrun.
    rewrite bind_get_department in Hrun. cbn [pending open_session] in Hrun.
    by rewrite Hd in Hrun. }
  destruct (decide (mode = "cascade")) as [->|Hc].
  { left. rewrite delete_department_cascade_run in Hrun by (by eexists).
    case_decide; simplify_eq. eauto. }
  right.
  destruct (decide (mode = "reassign")) as [->|Hr]; cycle 1.
  { unfold run, delete_department in Hrun.
    rewrite bind_get_department in Hrun. cbn [pending open_session] in Hrun.
    rewrite Hd in Hrun.
    by rewrite !decide_False in Hrun by done. }
  destruct target as [target_id|]; cycle 1.
  { unfold run, delete_department in Hrun.
    rewrite bind_get_department in Hrun. cbn [pending open_session] in Hrun.
    by rewrite Hd in Hrun. }
  destruct (departments st !! target_id) as [t|] eqn:Ht; cycle 1.
  { unfold run, delete_department in Hrun.
    rewrite bind_get_department in Hrun. cbn [pending open_session] in Hrun.
    rewrite Hd in Hrun.
    rewrite decide_False, decide_True in Hrun by done.
    rewrite bind_get_department in Hrun. cbn [pending open_session] in Hrun.
    by rewrite Ht in Hrun. }
  destruct (decide (target_id = department_id)) as [->|Hne].
  { unfold run, delete_department in Hrun.
    rewrite bind_get_department in Hrun. cbn [pending open_session] in Hrun.
    rewrite Hd in Hrun.
    rewrite decide_False, decide_True in Hrun by done.
    rewrite bind_get_department in Hrun. cbn [pending open_session] in Hrun.
    rewrite Hd in Hrun.
    by rewrite decide_True in Hrun. }
  rewrite delete_department_reassign_run in Hrun by (done || by eexists).
  case_decide; [|done]. simplify_eq.
  split; [done|]. split; [done|]. exists target_id. eauto 10.
Qed.

Lemma after_delete_departments_removed st department_id x :
  is_Some (departments st !! department_id) →
  removed (departments st) department_id x →
  departments (after_delete st department_id) !! x = None.
Proof.
  intros Hd Hgone. unfold after_delete. simpl.
  apply map_lookup_filter_None. right. intros d _ Hx. simpl in Hx.
  by apply Hx, elem_of_cascade_closure.
Qed.

Lemma after_delete_departments_kept st department_id x :
  is_Some (departments st !! department_id) →
  ¬ removed (departments st) department_id x →
  departments (after_delete st department_id) !! x = departments st !! x.
Proof.
  intros Hd Hkeep. unfold after_delete. simpl.
  destruct (departments st !! x) as [d|] eqn:Hx.
  - apply map_lookup_filter_Some. split; [done|]. simpl.
    by rewrite elem_of_cascade_closure.
  - apply map_lookup_filter_None. by left.
Qed.


Lemma after_delete_employees_kept st department_id i e :
  is_Some (departments st !! department_id) →
  employees st !! i = Some e →
  ¬ removed (departments st) department_id (Employee.department_id e) →
  employees (after_delete st department_id) !! i = Some e.
Proof.
  intros Hd Hi Hkeep. unfold after_delete. simpl.
  apply map_lookup_filter_Some. split; [done|]. simpl.
  by rewrite elem_of_cascade_closure.
Qed.

Lemma after_delete_employees_inv st department_id i e :
  is_Some (departments st !! department_id) →
  employees (after_delete st department_id) !! i = Some e →
  employees st !! i = Some e ∧
  ¬ removed (departments st) department_id (Employee.department_id e).
Proof.
  intros Hd. unfold after_delete. simpl.
  intros [Hi Hkeep]%map_lookup_filter_Some. split; [done|]. simpl in Hkeep.
  by rewrite elem_of_cascade_closure in Hkeep.
Qed.

(** A department that stays after [db.delete] does not refer to one that
    went: the [ON DELETE SET NULL] of [parent_id] has nothing to do. *)
Lemma after_delete_parent_kept st department_id x d p :
  is_Some (departments st !! department_id) →
  departments (after_delete st department_id) !! x = Some d →
  Department.parent_id d = Some p →
  ¬ removed (departments st) department_id p.
Proof.
  intros Hd Hx Hp Hgone. unfold after_delete in Hx. simpl in Hx.
  apply map_lookup_filter_Some in Hx as [Hx Hkeep]. simpl in Hkeep.
  apply Hkeep, elem_of_cascade_closure; [done|]. right.
  assert (child_of (departments st) p x) as Hc by (by exists d).
  destruct Hgone as [->|Hdesc]; [by apply tc_once|by eapply tc_r].
Qed.

(** ** Cascade delete *)


(** ** Reassign delete *)

Lemma relinked_no_child st department_id target_id x :
  target_id ≠ department_id →
  ¬ descendant (departments (relinked st department_id target_id)) department_id x.
Proof.
  intros Hne Hdesc.
  assert (∃ c, child_of (departments (relinked st department_id target_id))
                        department_id c) as (c & d & Hc & Hp).
  { apply descendant_inv in Hdesc as [?|(c & ? & _)]; eauto. }
  simpl in Hc. rewrite lookup_fmap in Hc.
  destruct (departments st !! c) as [d0|]; simplify_eq/=.
  unfold relink_child in Hp. case_decide; simplify_eq/=.
Qed.

(** C2: a reassign delete of [department_id] that succeeds had a target
    that exists and is another department.  It leaves a store where
    [department_id] no longer resolves; where every employee of the
    deleted department is the same row with [department_id] set to the
    target; where every child of the deleted department (a department
    other than itself whose parent it was) is the same row with
    [parent_id] set to the target; and where every other department, the
    deeper descendants among them, has the row it had, and its employees
    the rows they had; unless it is the target, it has no other employees
    than it had. *)
Theorem reassign_delete_spec (st st' : Store) (department_id : Z)
    (target : option Z) :
  run (delete_department department_id "reassign" target) st = Some (st', inr tt) →
  ∃ target_id, target = Some target_id ∧ target_id ≠ department_id ∧
    is_Some (departments st !! department_id) ∧
    is_Some (departments st !! target_id) ∧
    departments st' !! department_id = None ∧
    (∀ i e, employees st !! i = Some e → Employee.department_id e = department_id →
       employees st' !! i =
         Some (Employee.mk target_id (Employee.full_name e) (Employee.position e)
                           (Employee.hired_at e) (Employee.created_at e))) ∧
    (∀ c d, departments st !! c = Some d → c ≠ department_id →
       Department.parent_id d = Some department_id →
       departments st' !! c =
         Some (Department.mk (Department.name d) (Some target_id)
                             (Department.created_at d))) ∧
    (∀ g d, departments st !! g = Some d → g ≠ department_id →
       Department.parent_id d ≠ Some department_id →
       departments st' !! g = Some d ∧
       (∀ i e, employees st !! i = Some e → Employee.department_id e = g →
          employees st' !! i = Some e) ∧
       (g ≠ target_id →
        ∀ i e, employees st' !! i = Some e → Employee.department_id e = g →
          employees st !! i = Some e)).
Proof.
  intros Hrun. apply delete_department_inv in Hrun
    as [(e & ? & _)|[(_ & ? & _)|(_ & _ & target_id & -> & Hne & Hd & Ht & _ & ->)]];
    [done..|].
  exists target_id. split; [done|]. split; [done|]. split; [done|]. split; [done|].
  assert (is_Some (departments (relinked st department_id target_id) !! department_id))
    as Hd'.
  { simpl. rewrite lookup_fmap. destruct Hd as [d ->]. by eexists. }
  assert (∀ x, x ≠ department_id →
            ¬ removed (departments (relinked st department_id target_id))
                      department_id x) as Hkeep.
  { intros x Hx [?|Hdesc]; [done|]. by apply relinked_no_child in Hdesc. }
  split; [|split; [|split]].
  - apply after_delete_departments_removed; [done|by left].
  - intros i e Hi He.
    apply after_delete_employees_kept; [done| |by apply Hkeep].
    simpl. rewrite lookup_fmap, Hi. simpl. unfold relink_employee.
    by rewrite decide_True.
  - intros c d Hc Hcne Hp. rewrite after_delete_departments_kept by auto.
    simpl. rewrite lookup_fmap, Hc. simpl.
    unfold relink_child. by rewrite decide_True.
  - intros g d Hg Hgne Hp. split.
    + rewrite after_delete_departments_kept by auto.
      simpl. rewrite lookup_fmap, Hg. simpl.
      unfold relink_child. by rewrite decide_False.
    + split.
      * intros i e Hi He.
        apply after_delete_employees_kept; [done| |apply Hkeep; congruence].
        simpl. rewrite lookup_fmap, Hi. simpl. unfold relink_employee.
        rewrite decide_False; [done|congruence].
      * intros Hgt i e Hi He.
        apply after_delete_employees_inv in Hi as [Hi _]; [|done].
        simpl in Hi. rewrite lookup_fmap in Hi.
        destruct (employees st !! i) as [e0|]; [|done].
        simpl in Hi. injection Hi as <-. unfold relink_employee in *.
        case_decide; [|done]. simpl in He. congruence.
Qed.

Lemma read_only_ret {A} (a : A) : read_only (ret a).
Proof. by intros s s' r [= <- <-]. Qed.

Lemma read_only_raise {A} e : read_only (@raise A e).
Proof. by intros s s' r [= <- <-]. Qed.

Lemma read_only_get_department i : read_only (_get_department i).
Proof. by intros s s' r [= <- <-]. Qed.

Lemma read_only_get_pending : read_only get_pending.
Proof. by intros s s' r [= <- <-]. Qed.

Lemma read_only_get_descendant_ids fuel i : read_only (_get_descendant_ids fuel i).
Proof.
  intros s s' r. unfold _get_descendant_ids.
  destruct (_get_descendant_ids_loop _ _ _ _); by intros [= <- <-].
Qed.

Lemma read_only_check_name name parent_id exclude :
  read_only (_check_name_unique_under_parent name parent_id exclude).
Proof. intros s s' r H. by apply check_name_inv in H as [-> _]. Qed.

Lemma read_only_bind {A B} (m : M A) (k : A → M B) :
  read_only m → (∀ a, read_only (k a)) → read_only (bind m k).
Proof.
  intros Hm Hk s s'' r [(e & H1 & ->)|(s' & a & H1 & H2)]%bind_inv.
  - by apply Hm in H1.
  - apply Hm in H1. apply Hk in H2. congruence.
Qed.

Lemma read_only_raise_clean {A} (m : M A) : read_only m → raise_clean m.
Proof. intros H s s' e He _. by apply H in He. Qed.

Lemma raises_only_integrity_raise_clean {A} (m : M A) :
  raises_only_integrity m → raise_clean m.
Proof. intros H s s' e He Hne. by apply H in He. Qed.

Lemma raise_clean_bind {A B} (m : M A) (k : A → M B) :
  read_only m → (∀ a, raise_clean (k a)) → raise_clean (bind m k).
Proof.
  intros Hm Hk s s'' e [(e' & H1 & _)|(s' & a & H1 & H2)]%bind_inv Hne.
  - by apply Hm in H1.
  - apply Hm in H1. subst s'. by apply (Hk a s s'' e).
Qed.

Lemma raises_only_integrity_bind {A B} (m : M A) (k : A → M B) :
  raises_only_integrity m → (∀ a, raises_only_integrity (k a)) →
  raises_only_integrity (bind m k).
Proof.
  intros Hm Hk s s'' e [(e' & H1 & [= ->])|(s' & a & H1 & H2)]%bind_inv.
  - by apply Hm in H1.
  - by apply Hk in H2.
Qed.

Lemma raises_only_integrity_ret {A} (a : A) : raises_only_integrity (ret a).
Proof. by intros s s' e. Qed.

Lemma raises_only_integrity_raise {A} : raises_only_integrity (@raise A IntegrityError).
Proof. by intros s s' e [= _ <-]. Qed.

Lemma raises_only_integrity_get_pending : raises_only_integrity get_pending.
Proof. by intros s s' e. Qed.

Lemma raises_only_integrity_set_departments tbl :
  raises_only_integrity (set_departments tbl).
Proof. by intros s s' e. Qed.

Lemma raises_only_integrity_set_employees tbl :
  raises_only_integrity (set_employees tbl).
Proof. by intros s s' e. Qed.

Lemma raises_only_integrity_commit : raises_only_integrity db_commit.
Proof. by intros s s' e. Qed.

#[local] Hint Resolve read_only_ret read_only_raise read_only_get_department
  read_only_get_pending read_only_get_descendant_ids read_only_check_name
  raises_only_integrity_ret raises_only_integrity_raise
  raises_only_integrity_get_pending raises_only_integrity_set_departments
  raises_only_integrity_set_employees raises_only_integrity_commit : session.

(** Goes through the statements of a service function: the checks are
    read-only, and what follows the first write raises nothing but the
    store's exception. *)
Ltac clean_step :=
  match goal with
  | |- raises_only_integrity (bind _ _) =>
      apply raises_only_integrity_bind; [|intros ?]
  | |- raise_clean (bind (db_add_department _ _ _) _) =>
      apply raises_only_integrity_raise_clean
  | |- raise_clean (bind (db_add_employee _ _ _) _) =>
      apply raises_only_integrity_raise_clean
  | |- raise_clean (bind (write_departments _ _) _) =>
      apply raises_only_integrity_raise_clean
  | |- read_only (bind _ _) => apply read_only_bind; [|intros ?]
  | |- raise_clean (bind _ _) => apply raise_clean_bind; [|intros ?]
  | |- raise_clean (ret _) => apply read_only_raise_clean
  | |- raise_clean (raise _) => apply read_only_raise_clean
  | |- context [match ?x with _ => _ end] => destruct x
  | |- _ => solve [auto with session]
  end.

Lemma raises_only_integrity_write_departments tbl written :
  raises_only_integrity (write_departments tbl written).
Proof. unfold write_departments. repeat clean_step. Qed.

#[local] Hint Resolve raises_only_integrity_write_departments : session.

Lemma raises_only_integrity_db_add_department name parent_id now :
  raises_only_integrity (db_add_department name parent_id now).
Proof. unfold db_add_department. repeat clean_step. Qed.

Lemma raises_only_integrity_db_add_employee department_id data now :
  raises_only_integrity (db_add_employee department_id data now).
Proof. unfold db_add_employee. repeat clean_step. Qed.

Lemma raises_only_integrity_db_update_employees i t :
  raises_only_integrity (db_update_employees_department i t).
Proof. unfold db_update_employees_department. repeat clean_step. Qed.

Lemma raises_only_integrity_db_update_departments i t :
  raises_only_integrity (db_update_departments_parent i t).
Proof. unfold db_update_departments_parent. repeat clean_step. Qed.

#[local] Hint Resolve raises_only_integrity_db_add_department
  raises_only_integrity_db_add_employee
  raises_only_integrity_db_update_employees
  raises_only_integrity_db_update_departments : session.

(** [db.delete] raises before it writes, and only when the department is
    the child of a department that it marks. *)
Lemma db_delete_department_inv department_id s s' r :
  db_delete_department department_id s = Some (s', r) →
  (department_id ∈ children_of (departments (pending s))
     (cascade_closure (departments (pending s)) department_id) ∧
   s' = s ∧ r = inl CircularDependencyError) ∨
  ((department_id ∉ children_of (departments (pending s))
      (cascade_closure (departments (pending s)) department_id)) ∧
   s' = mkSession (committed s) (after_delete (pending s) department_id) ∧
   r = inr tt).
Proof.
  unfold db_delete_department. rewrite bind_get_pending. cbv zeta.
  case_decide; intros [= <- <-]; auto.
Qed.

Lemma raise_clean_db_delete_commit department_id :
  raise_clean (db_delete_department department_id ;;; db_commit).
Proof.
  intros s s' e [(e' & H & _)|(s1 & a & _ & ?)]%bind_inv _; [|done].
  by apply db_delete_department_inv in H as [(_ & -> & _)|(_ & _ & ?)].
Qed.

Lemma raises_only_integrity_reassign department_id target_id :
  target_id ≠ department_id →
  raises_only_integrity
    (db_update_employees_department department_id target_id ;;;
     db_update_departments_parent department_id target_id ;;;
     db_delete_department department_id ;;;
     db_commit).
Proof.
  intros Hne s s' e.
  intros [(e' & H & [= ->])|(s1 & [] & _ & H)]%bind_inv.
  { by apply raises_only_integrity_db_update_employees in H. }
  apply bind_inv in H as [(e' & H & [= ->])|(s2 & [] & H1 & H)].
  { by apply raises_only_integrity_db_update_departments in H. }
  apply bind_inv in H as [(e' & H & _)|(s3 & [] & _ & ?)]; [|done].
  exfalso. rewrite db_update_departments_parent_run in H1.
  case_decide; [|done]. injection H1 as <-.
  apply db_delete_department_inv in H as [(Hin & _)|(_ & _ & ?)]; [|done].
  cbn [pending departments] in Hin.
  by apply (relinked_delete_order _ _ _ Hne) in Hin.
Qed.

(** The statements of [delete_department]. *)
Ltac delete_step :=
  first
    [ apply raise_clean_db_delete_commit
    | match goal with
      | H : ?t ≠ ?d
        |- raise_clean (bind (db_update_employees_department ?d ?t) _) =>
          apply raises_only_integrity_raise_clean, raises_only_integrity_reassign, H
      end
    | clean_step ].

Lemma raise_clean_create_department data now :
  raise_clean (create_department data now).
Proof. unfold create_department. repeat clean_step. Qed.

Lemma raise_clean_create_employee department_id data now :
  raise_clean (create_employee department_id data now).
Proof. unfold create_employee. repeat clean_step. Qed.

Lemma raise_clean_update_department fuel department_id data :
  raise_clean (update_department fuel department_id data).
Proof. unfold update_department. repeat clean_step. Qed.

Lemma raise_clean_delete_department department_id mode target :
  raise_clean (delete_department department_id mode target).
Proof. unfold delete_department. repeat delete_step. Qed.

Lemma raise_clean_then_ret {A B} (m : M A) (b : B) :
  raise_clean m → raise_clean (m ;;; ret b).
Proof.
  intros Hm s s' e [(e' & H & [= ->])|(s1 & a & _ & ?)]%bind_inv; [|done].
  by apply Hm.
Qed.

Lemma raise_clean_handle r : raise_clean (handle r).
Proof.
  destruct r; simpl.
  - apply raise_clean_then_ret, raise_clean_create_department.
  - apply raise_clean_then_ret, raise_clean_create_employee.
  - apply raise_clean_then_ret, raise_clean_update_department.
  - apply raise_clean_delete_department.
Qed.

(** C4: whatever the operation ([create_department], [create_employee],
    [update_department], [delete_department] in either mode or with a bad
    mode) and whatever it raises, the store after the call is the store
    before it; and when the exception is one of the service
    ([DepartmentNotFoundError], [ConflictError], [ValueError]), or the
    [CircularDependencyError] of the session, the call has not issued a
    single write: the session is as it was opened. *)
Theorem failure_atomicity (st : Store) (r : Request) (s : Session) (e : Error) :
  handle r (open_session st) = Some (s, inl e) →
  run (handle r) st = Some (st, inl e) ∧
  (e ≠ IntegrityError → s = open_session st).
Proof.
  intros H. split.
  - unfold run. rewrite H. f_equal. f_equal.
    by apply raise_safe_handle in H.
  - apply (raise_clean_handle r _ _ _ H).
Qed.

(** ** Reachable stores: sibling names *)

Lemma run_then_ret {A} (m : M A) st st' (res : Error + unit) :
  run (m ;;; ret tt) st = Some (st', res) →
  ∃ res0, run m st = Some (st', res0).
Proof.
  unfold run.
  destruct (bind m _ (open_session st)) as [[s r]|] eqn:H; [|done].
  intros [= <- <-].
  apply bind_inv in H as [(e & H & _)|(s' & a & H & [= <- _])];
    rewrite H; eauto.
Qed.

Lemma create_employee_departments department_id data now st st' res :
  run (create_employee department_id data now) st = Some (st', res) →
  departments st' = departments st.
Proof.
  unfold run, create_employee. rewrite bind_get_department.
  destruct (departments _ !! department_id); by intros [= <- _].
Qed.

Lemma sibling_names_unique_subseteq (tbl tbl' : gmap Z Department.t) :
  tbl' ⊆ tbl → sibling_names_unique tbl → sibling_names_unique tbl'.
Proof.
  intros Hsub Huniq i j di dj Hi Hj. apply Huniq; by eapply lookup_weaken.
Qed.

Lemma sibling_names_unique_insert tbl i row :
  sibling_names_unique tbl →
  ¬ slot_taken tbl (Department.name row) (Department.parent_id row) (Some i) →
  sibling_names_unique (<[i := row]> tbl).
Proof.
  intros Huniq Hfree j k dj dk Hj Hk Hne Hp Hn.
  destruct (decide (j = i)) as [->|Hji]; destruct (decide (k = i)) as [->|Hki];
    [done| | |].
  - rewrite lookup_insert_eq in Hj. rewrite lookup_insert_ne in Hk by done.
    simplify_eq. apply Hfree. exists k, dk. repeat split; auto; congruence.
  - rewrite lookup_insert_eq in Hk. rewrite lookup_insert_ne in Hj by done.
    simplify_eq. apply Hfree. exists j, dj. repeat split; auto; congruence.
  - rewrite lookup_insert_ne in Hj, Hk by done. by eapply (Huniq j k).
Qed.

Lemma relink_child_name department_id target_id d :
  Department.name (relink_child department_id target_id d) = Department.name d.
Proof. unfold relink_child. by case_decide. Qed.

Lemma relink_child_parent_hit department_id target_id d :
  Department.parent_id d = Some department_id →
  Department.parent_id (relink_child department_id target_id d) = Some target_id.
Proof. intros H. unfold relink_child. by rewrite decide_True. Qed.

Lemma relink_child_parent_miss department_id target_id d :
  Department.parent_id d ≠ Some department_id →
  Department.parent_id (relink_child department_id target_id d)
    = Department.parent_id d.
Proof. intros H. unfold relink_child. by rewrite decide_False. Qed.

(** The second bulk update of the reassign mode, once the store has
    accepted it, leaves sibling names distinct. *)
Lemma sibling_names_unique_relinked st department_id target_id :
  sibling_names_unique (departments st) →
  uq_department_name_parent (departments (relinked st department_id target_id))
                            (relinked_rows st department_id) →
  sibling_names_unique (departments (relinked st department_id target_id)).
Proof.
  intros Huniq Huq.
  assert (∀ i j di dj,
    departments st !! i = Some di → departments st !! j = Some dj → i ≠ j →
    Department.parent_id di = Some department_id →
    Department.parent_id dj ≠ Some department_id →
    Department.parent_id dj = Some target_id →
    Department.name di ≠ Department.name dj) as Hmixed.
  { intros i j di dj Hi Hj Hne Hpi Hpj Hpj' Hn.
    apply (Huq i).
    - apply elem_of_dom. exists di. by apply map_lookup_filter_Some.
    - exists (relink_child department_id target_id di), target_id.
      split; [by simpl; rewrite lookup_fmap, Hi|].
      split; [by apply relink_child_parent_hit|].
      exists j, (relink_child department_id target_id dj).
      split; [by simpl; rewrite lookup_fmap, Hj|].
      split; [done|]. rewrite !relink_child_name.
      by rewrite relink_child_parent_miss. }
  intros i j di' dj' Hi Hj Hne Hp. simpl in Hi, Hj.
  rewrite lookup_fmap in Hi, Hj.
  destruct (departments st !! i) as [di|] eqn:Hi0; [|done].
  destruct (departments st !! j) as [dj|] eqn:Hj0; [|done].
  simplify_eq/=. rewrite !relink_child_name.
  destruct (decide (Department.parent_id di = Some department_id)) as [Hpi|Hpi];
    destruct (decide (Department.parent_id dj = Some department_id)) as [Hpj|Hpj].
  - apply (Huniq i j); auto. congruence.
  - rewrite relink_child_parent_hit, relink_child_parent_miss in Hp by done.
    by apply (Hmixed i j).
  - rewrite (relink_child_parent_miss _ _ di),
      (relink_child_parent_hit _ _ dj) in Hp by done.
    intros Hn. by apply (Hmixed j i dj di).
  - rewrite !relink_child_parent_miss in Hp by done. by apply (Huniq i j).
Qed.

Lemma after_delete_departments_subseteq st department_id :
  departments (after_delete st department_id) ⊆ departments st.
Proof. apply map_filter_subseteq. Qed.

(** One call of the service keeps sibling names distinct. *)
Lemma sibling_names_unique_step st r st' res :
  sibling_names_unique (departments st) →
  run (handle r) st = Some (st', res) →
  sibling_names_unique (departments st').
Proof.
  intros Huniq Hrun. destruct r as [data now|d data now|fuel d data|d mode target];
    simpl in Hrun.
  - apply run_then_ret in Hrun as [res0 Hrun].
    rewrite create_department_run in Hrun.
    repeat case_decide; simplify_eq; [done..|]. simpl.
    apply sibling_names_unique_insert; [done|]. simpl.
    intros Ht. by apply slot_taken_exclude in Ht.
  - apply run_then_ret in Hrun as [res0 Hrun].
    apply create_employee_departments in Hrun. by rewrite Hrun.
  - apply run_then_ret in Hrun as [res0 Hrun].
    destruct (departments st !! d) as [department|] eqn:Hd.
    + destruct (update_department_inv _ _ _ _ _ _ _ Hd Hrun)
        as [(e & _ & ->)|(_ & -> & _ & Hfree & _)]; [done|]. simpl.
      by apply sibling_names_unique_insert.
    + unfold run, update_department in Hrun.
      rewrite bind_get_department in Hrun. simpl in Hrun. rewrite Hd in Hrun.
      injection Hrun as <- _. exact Huniq.
  - apply delete_department_inv in Hrun
      as [(e & _ & ->)|[(_ & _ & _ & ->)|(_ & _ & t & _ & _ & _ & _ & Huq & ->)]];
      [done| |].
    + eapply sibling_names_unique_subseteq;
        [apply after_delete_departments_subseteq|done].
    + eapply sibling_names_unique_subseteq;
        [apply after_delete_departments_subseteq|].
      by apply sibling_names_unique_relinked.
Qed.

(** C3: in every store that a sequence of calls of the service reaches
    from the empty store, two different departments with the same
    [parent_id] (two roots included) have different names.
    [create_department] and [update_department] make the check
    themselves; the relink of a reassign delete is checked by the store
    against [uq_department_name_parent], and its target is never null. *)
Theorem sibling_names_unique_reachable (st : Store) :
  reachable st → sibling_names_unique (departments st).
Proof.
  induction 1 as [|st r st' res _ IH Hrun].
  - intros i j di dj Hi. simpl in Hi. by rewrite lookup_empty in Hi.
  - by eapply sibling_names_unique_step.
Qed.

(** ** The tree view *)

Lemma lex_le_total {K} `{EqDecision K} (R : relation K) `{!Total R} :
  Total (lex_le R).
Proof.
  intros [k1 i1] [k2 i2]. unfold lex_le. simpl.
  destruct (decide (k1 = k2)) as [->|Hne].
  - destruct (Z.le_total i1 i2); auto.
  - destruct (total R k1 k2); [left; left|right; left]; split; auto.
Qed.

Lemma sorted_by_spec {A K} `{EqDecision K} (R : relation K)
    `{∀ x y, Decision (R x y)} `{!Total R} (key : A → K * Z) (xs : list A) :
  Sorted (λ x y, lex_le R (key x) (key y)) (sorted_by R key xs) ∧
  sorted_by R key xs ≡ₚ xs.
Proof.
  unfold sorted_by. split.
  - assert (Total (λ x y : A, lex_le R (key x) (key y))) as Htotal.
    { intros x y. apply (lex_le_total R). }
    apply (Sorted_merge_sort _).
  - apply merge_sort_Permutation.
Qed.

Lemma lists_rows_filter {A} (m : gmap Z A) (P : Z * A → Prop)
    `{∀ x, Decision (P x)} (l : list (Z * A)) :
  l ≡ₚ map_to_list (filter P m) → lists_rows m (λ i a, P (i, a)) l.
Proof.
  intros Hl. split.
  - rewrite Hl. apply NoDup_map_to_list.
  - intros i a. rewrite Hl, elem_of_map_to_list. apply map_lookup_filter_Some.
Qed.

Lemma sort_employees_spec sort_employees_by st department_id :
  let emps := sort_employees sort_employees_by (employees_of st department_id) in
  lists_rows (employees st) (λ _ e, Employee.department_id e = department_id) emps ∧
  Sorted (employee_order sort_employees_by) emps.
Proof.
  unfold sort_employees, employee_order, employees_of. simpl. case_decide.
  - destruct (sorted_by_spec String.le (λ e : Z * Employee.t,
        (Employee.full_name e.2, e.1))
        (map_to_list (filter (λ kv : Z * Employee.t,
           Employee.department_id kv.2 = department_id) (employees st))))
      as [Hs Hp].
    split; [|done].
    by apply (lists_rows_filter _
      (λ kv : Z * Employee.t, Employee.department_id kv.2 = department_id)).
  - destruct (sorted_by_spec Z.le (λ e : Z * Employee.t,
        (Employee.created_at e.2, e.1))
        (map_to_list (filter (λ kv : Z * Employee.t,
           Employee.department_id kv.2 = department_id) (employees st))))
      as [Hs Hp].
    split; [|done].
    by apply (lists_rows_filter _
      (λ kv : Z * Employee.t, Employee.department_id kv.2 = department_id)).
Qed.

Lemma sort_children_spec st department_id :
  let cs := sort_children (direct_children st department_id) in
  lists_rows (departments st)
             (λ _ d, Department.parent_id d = Some department_id) cs ∧
  Sorted child_order cs.
Proof.
  unfold sort_children, child_order, direct_children. simpl.
  destruct (sorted_by_spec String.le (λ c : Z * Department.t,
      (Department.name c.2, c.1))
      (map_to_list (filter (λ kv : Z * Department.t,
         Department.parent_id kv.2 = Some department_id) (departments st))))
    as [Hs Hp].
  split; [|done].
  by apply (lists_rows_filter _
    (λ kv : Z * Department.t, Department.parent_id kv.2 = Some department_id)).
Qed.

Lemma build_tree_view st include_employees sort_employees_by depth dept :
  tree_view st include_employees sort_employees_by depth dept
    (_build_tree st include_employees sort_employees_by depth dept).
Proof.
  revert dept. induction depth as [|depth IH]; intros dept.
  - simpl. split; [done|]. split; [|done].
    destruct include_employees; [|done].
    destruct (sort_employees_spec sort_employees_by st dept.1) as [Hl Hs].
    eexists. split; [exact Hl|]. split; [exact Hs|done].
  - simpl. split; [done|]. split.
    + destruct include_employees; [|done].
      destruct (sort_employees_spec sort_employees_by st dept.1) as [Hl Hs].
      eexists. split; [exact Hl|]. split; [exact Hs|done].
    + destruct (sort_children_spec st dept.1) as [Hl Hs].
      eexists. split; [exact Hl|]. split; [exact Hs|].
      apply Forall2_fmap_r, Forall_Forall2_diag, Forall_forall.
      intros c _. apply IH.
Qed.

(** C8: for an existing department [get_department_tree] returns, and
    leaves the store as it is; the tree it returns has the department at
    its root; with depth zero (or less) no children, with a greater depth
    the direct children, in ascending order of [(name, id)], each with
    the tree of one level less; and at every node, when
    [include_employees] is set, the direct employees in ascending order
    of [(full_name, id)] or of [(created_at, id)], as the request asks,
    and no employees otherwise. *)
Theorem get_department_tree_spec (st : Store) (department_id : Z)
    (department : Department.t) (depth : Z) (include_employees : bool)
    (sort_employees_by : string) :
  departments st !! department_id = Some department →
  ∃ t, run (get_department_tree department_id depth include_employees
                                sort_employees_by) st = Some (st, inr t) ∧
    tree_view st include_employees sort_employees_by (Z.to_nat depth)
              (department_id, department) t ∧
    (depth ≤ 0 → tree_children t = []).
Proof.
  intros Hd. eexists. split; [|split].
  - unfold run, get_department_tree. rewrite bind_get_department.
    cbn [pending open_session]. rewrite Hd. reflexivity.
  - apply build_tree_view.
  - intros Hdepth. replace (Z.to_nat depth) with 0%nat by lia. done.
Qed.

(** ** Cycles *)

(** [update_department] keeps a table without cycles free of cycles: a
    path of the new table either is a path of the old one or goes through
    the new parent and leaves from the department. *)
Lemma descendant_insert tbl i row p x y :
  Department.parent_id row = Some p →
  descendant (<[i := row]> tbl) x y →
  descendant tbl x y ∨
  (rtc (child_of tbl) x p ∧ rtc (child_of tbl) i y).
Proof.
  intros Hp.
  assert (∀ q c, child_of (<[i := row]> tbl) q c →
            child_of tbl q c ∨ (c = i ∧ q = p)) as Hedge.
  { intros q c (d & Hc & Hq). destruct (decide (c = i)) as [->|Hne].
    - rewrite lookup_insert_eq in Hc. simplify_eq. right. split; congruence.
    - rewrite lookup_insert_ne in Hc by done. left. by exists d. }
  induction 1 as [x y Hxy|x z y Hxz _ IH].
  - destruct (Hedge _ _ Hxy) as [?|[-> ->]].
    + left. by apply tc_once.
    + right. split; reflexivity.
  - destruct (Hedge _ _ Hxz) as [Hold|[-> ->]]; destruct IH as [IH|[IH1 IH2]].
    + left. by eapply tc_l.
    + right. split; [by eapply rtc_l|done].
    + right. split; [reflexivity|by apply tc_rtc].
    + right. split; [reflexivity|done].
Qed.

Lemma descendant_insert_root tbl i row x y :
  Department.parent_id row = None →
  descendant (<[i := row]> tbl) x y → descendant tbl x y.
Proof.
  intros Hp.
  assert (∀ q c, child_of (<[i := row]> tbl) q c → child_of tbl q c) as Hedge.
  { intros q c (d & Hc & Hq). destruct (decide (c = i)) as [->|Hne].
    - rewrite lookup_insert_eq in Hc. congruence.
    - rewrite lookup_insert_ne in Hc by done. by exists d. }
  induction 1 as [x y Hxy|x z y Hxz _ IH].
  - by apply tc_once, Hedge.
  - eapply tc_l; [by apply Hedge|done].
Qed.

Lemma update_department_preserves_acyclic fuel department_id data st st' res :
  acyclic (departments st) →
  run (update_department fuel department_id data) st = Some (st', res) →
  acyclic (departments st').
Proof.
  intros Hacyclic Hrun.
  destruct (departments st !! department_id) as [department|] eqn:Hd; cycle 1.
  { unfold run, update_department in Hrun.
    rewrite bind_get_department in Hrun. simpl in Hrun. rewrite Hd in Hrun.
    by injection Hrun as <- _. }
  destruct (update_department_inv _ _ _ _ _ _ _ Hd Hrun)
    as [(e & _ & ->)|(_ & -> & Hself & _ & Hparent)]; [done|].
  simpl. intros d Hcycle.
  destruct (effective_parent_id data department) as [p|] eqn:Hp.
  - destruct (Hparent p eq_refl) as (_ & descendants & Hloop & Hnotin).
    apply descendant_insert with (p := p) in Hcycle; [|done].
    destruct Hcycle as [?|[H1 H2]]; [by apply (Hacyclic d)|].
    assert (rtc (child_of (departments st)) department_id p) as Hrtc
      by (by etrans).
    apply rtc_tc in Hrtc as [->|Hdesc]; [done|].
    by apply Hnotin, (get_descendant_ids_correct _ _ _ _ Hloop).
  - apply descendant_insert_root in Hcycle; [|done]. by apply (Hacyclic d).
Qed.

Lemma descendant_subrel (tbl tbl' : gmap Z Department.t) x y :
  (∀ p c, child_of tbl' p c → child_of tbl p c) →
  descendant tbl' x y → descendant tbl x y.
Proof.
  intros Hsub. induction 1 as [x y Hxy|x z y Hxz _ IH].
  - by apply tc_once, Hsub.
  - eapply tc_l; [by apply Hsub|done].
Qed.

Lemma acyclic_subseteq (tbl tbl' : gmap Z Department.t) :
  tbl' ⊆ tbl → acyclic tbl → acyclic tbl'.
Proof.
  intros Hsub Hacyclic d Hd. apply (Hacyclic d).
  eapply descendant_subrel; [|exact Hd].
  intros p c (row & Hc & Hp). exists row. split; [|done]. by eapply lookup_weaken.
Qed.

Lemma parents_exist_after_delete st department_id :
  is_Some (departments st !! department_id) →
  parents_exist (departments st) →
  parents_exist (departments (after_delete st department_id)).
Proof.
  intros Hd Hfk c d p Hc Hp.
  pose proof (after_delete_parent_kept _ _ _ _ _ Hd Hc Hp) as Hkeep.
  rewrite after_delete_departments_kept by done.
  apply (Hfk c d p); [|done].
  eapply lookup_weaken; [exact Hc|apply after_delete_departments_subseteq].
Qed.

Lemma parents_exist_insert tbl i row :
  parents_exist tbl →
  (∀ p, Department.parent_id row = Some p → is_Some (tbl !! p)) →
  parents_exist (<[i := row]> tbl).
Proof.
  intros Hfk Hrow c d p Hc Hp. apply lookup_insert_is_Some'. right.
  destruct (decide (c = i)) as [->|Hne].
  - rewrite lookup_insert_eq in Hc. simplify_eq. by apply Hrow.
  - rewrite lookup_insert_ne in Hc by done. by apply (Hfk c d p).
Qed.

(** A new row, under a key that no row refers to, closes no cycle. *)
Lemma acyclic_insert_fresh tbl i row :
  acyclic tbl → parents_exist tbl → tbl !! i = None →
  (∀ p, Department.parent_id row = Some p → is_Some (tbl !! p)) →
  acyclic (<[i := row]> tbl).
Proof.
  intros Hacyclic Hfk Hi Hrow.
  assert (∀ y, ¬ descendant tbl i y) as Hleaf.
  { intros y Hy.
    assert (∃ c, child_of tbl i c) as (c & d & Hc & Hp).
    { apply descendant_inv in Hy as [?|(c & ? & _)]; eauto. }
    destruct (Hfk c d i Hc Hp) as [? ?]. congruence. }
  intros d Hcycle.
  destruct (Department.parent_id row) as [p|] eqn:Hp.
  - apply descendant_insert with (p := p) in Hcycle; [|done].
    destruct Hcycle as [?|[H1 H2]]; [by apply (Hacyclic d)|].
    apply rtc_tc in H2 as [<-|H2]; [|by apply Hleaf in H2].
    apply rtc_tc in H1 as [<-|H1]; [|by apply Hleaf in H1].
    destruct (Hrow i eq_refl) as [? ?]. congruence.
  - apply descendant_insert_root in Hcycle; [|done]. by apply (Hacyclic d).
Qed.

(** The relink of a reassign delete: a path of the new table either is a
    path of the old one or goes through the target and leaves from a
    child of the deleted department. *)
Lemma descendant_relinked st department_id target_id x y :
  descendant (departments (relinked st department_id target_id)) x y →
  descendant (departments st) x y ∨
  (rtc (child_of (departments st)) x target_id ∧
   ∃ c, child_of (departments st) department_id c ∧
        rtc (child_of (departments st)) c y).
Proof.
  assert (∀ q c, child_of (departments (relinked st department_id target_id)) q c →
            child_of (departments st) q c ∨
            (q = target_id ∧ child_of (departments st) department_id c)) as Hedge.
  { intros q c (d' & Hc & Hq). simpl in Hc. rewrite lookup_fmap in Hc.
    destruct (departments st !! c) as [d|] eqn:Hc0; [|done].
    simpl in Hc. injection Hc as <-.
    destruct (decide (Department.parent_id d = Some department_id)) as [Hd|Hd].
    - rewrite relink_child_parent_hit in Hq by done. right.
      split; [congruence|]. by exists d.
    - rewrite relink_child_parent_miss in Hq by done. left. by exists d. }
  induction 1 as [x y Hxy|x z y Hxz _ IH].
  - destruct (Hedge _ _ Hxy) as [?|[-> Hc]].
    + left. by apply tc_once.
    + right. split; [reflexivity|]. exists y. split; [done|reflexivity].
  - destruct (Hedge _ _ Hxz) as [Hold|[-> Hc]]; destruct IH as [IH|[IH1 IH2]].
    + left. by eapply tc_l.
    + right. split; [by eapply rtc_l|done].
    + right. split; [reflexivity|]. exists z. split; [done|by apply tc_rtc].
    + right. split; [reflexivity|done].
Qed.

Lemma acyclic_relinked st department_id target_id :
  acyclic (departments st) →
  ¬ descendant (departments st) department_id target_id →
  acyclic (departments (relinked st department_id target_id)).
Proof.
  intros Hacyclic Houtside d Hcycle.
  apply descendant_relinked in Hcycle as [?|(H1 & c & Hc & H2)];
    [by apply (Hacyclic d)|].
  apply Houtside. eapply tc_rtc_r; [by apply tc_once|]. by etrans.
Qed.

Lemma parents_exist_relinked st department_id target_id :
  parents_exist (departments st) →
  is_Some (departments st !! target_id) →
  parents_exist (departments (relinked st department_id target_id)).
Proof.
  intros Hfk Ht c d' p Hc Hp. simpl in *. rewrite lookup_fmap in Hc.
  rewrite lookup_fmap.
  destruct (departments st !! c) as [d|] eqn:Hc0; [|done].
  simpl in Hc. injection Hc as <-. apply fmap_is_Some.
  destruct (decide (Department.parent_id d = Some department_id)) as [Hd|Hd].
  - rewrite relink_child_parent_hit in Hp by done. congruence.
  - rewrite relink_child_parent_miss in Hp by done. by apply (Hfk c d p).
Qed.

(** One call of the service keeps the table a forest, unless it is a
    reassign delete with its target below the deleted department. *)
Lemma acyclic_step st r st' res :
  acyclic (departments st) → parents_exist (departments st) →
  target_outside_subtree st r →
  run (handle r) st = Some (st', res) →
  acyclic (departments st') ∧ parents_exist (departments st').
Proof.
  intros Hacyclic Hfk Hsafe Hrun.
  destruct r as [data now|d data now|fuel d data|d mode target]; simpl in Hrun.
  - apply run_then_ret in Hrun as [res0 Hrun].
    rewrite create_department_run in Hrun.
    case_decide as Hpm; [by simplify_eq|].
    case_decide as Htaken; [by simplify_eq|]. simplify_eq. simpl.
    assert (∀ p, DepartmentCreate.parent_id data = Some p →
              is_Some (departments st !! p)) as Hparent.
    { intros p Hp. destruct (departments st !! p) eqn:Hl; [by eexists|].
      destruct Hpm. by exists p. }
    split.
    + by apply acyclic_insert_fresh; [..|apply next_id_fresh|].
    + by apply parents_exist_insert.
  - apply run_then_ret in Hrun as [res0 Hrun].
    apply create_employee_departments in Hrun. by rewrite Hrun.
  - apply run_then_ret in Hrun as [res0 Hrun].
    split; [by eapply update_department_preserves_acyclic|].
    destruct (departments st !! d) as [department|] eqn:Hd.
    + destruct (update_department_inv _ _ _ _ _ _ _ Hd Hrun)
        as [(e & _ & ->)|(_ & -> & _ & _ & Hparent)]; [done|]. simpl.
      apply parents_exist_insert; [done|]. simpl. intros p Hp.
      by destruct (Hparent p Hp).
    + unfold run, update_department in Hrun.
      rewrite bind_get_department in Hrun. simpl in Hrun. rewrite Hd in Hrun.
      by injection Hrun as <- _.
  - apply delete_department_inv in Hrun
      as [(e & _ & ->)|[(_ & _ & Hd & ->)
                       |(_ & -> & t & -> & Hne & Hd & Ht & _ & ->)]]; [done| |].
    + split.
      * eapply acyclic_subseteq; [apply after_delete_departments_subseteq|done].
      * by apply parents_exist_after_delete.
    + assert (is_Some (departments (relinked st d t) !! d)) as Hd'.
      { simpl. rewrite lookup_fmap. by apply fmap_is_Some. }
      split.
      * eapply acyclic_subseteq; [apply after_delete_departments_subseteq|].
        apply acyclic_relinked; [done|]. by apply Hsafe.
      * apply parents_exist_after_delete; [done|].
        by apply parents_exist_relinked.
Qed.

(** As long as no reassign delete names a target below the department it
    deletes, no department is its own ancestor. *)
Lemma acyclic_reachable_outside st :
  reachable_outside st →
  acyclic (departments st) ∧ parents_exist (departments st).
Proof.
  induction 1 as [|st r st' res _ [IH1 IH2] Hsafe Hrun].
  - split.
    + intros d Hd. apply descendant_exists in Hd as [? Hd].
      simpl in Hd. by rewrite lookup_empty in Hd.
    + intros c d p Hc. simpl in Hc. by rewrite lookup_empty in Hc.
  - by eapply acyclic_step.
Qed.

(** With a department that is its own parent on the stack, the loop of
    [_get_descendant_ids] pushes it again each time it pops it. *)
Lemma traversal_loop_self_parent fuel tbl c d stack result :
  tbl !! c = Some d → Department.parent_id d = Some c → c ∈ stack →
  _get_descendant_ids_loop fuel tbl stack result = None.
Proof.
  intros Hc Hp. revert stack result.
  induction fuel as [|fuel IH]; intros stack result Hin.
  - destruct stack; [by apply elem_of_nil in Hin|done].
  - destruct stack as [|x stack]; [by apply elem_of_nil in Hin|].
    simpl. rewrite visit_rows_eq. simpl. apply IH.
    apply elem_of_app. apply elem_of_cons in Hin as [<-|Hin]; [left|by right].
    apply elem_of_reverse, elem_of_child_ids. by exists d.
Qed.

Lemma update_department_on_cycle fuel :
  run (update_department fuel 2 (DepartmentUpdate.mk None (Some 99)))
      store_with_cycle = None.
Proof.
  unfold run.
  rewrite (update_department_unfold _ _ _ (Department.mk "Backend" (Some 2) 11))
    by (vm_compute; reflexivity).
  cbv zeta. change (effective_parent_id _ _) with (Some 99).
  rewrite decide_False by discriminate.
  rewrite bind_None; [done|]. unfold parent_checks.
  rewrite bind_None; [done|]. unfold _get_descendant_ids.
  rewrite (traversal_loop_self_parent _ _ 2 (Department.mk "Backend" (Some 2) 11));
    [done|vm_compute; reflexivity|done|by apply list_elem_of_singleton].
Qed.

(** C1, at the input where it fails: the store [store_with_cycle] is
    reached by three calls of the service, the last of them a reassign
    delete whose target is a child of the deleted department, and in it
    department 2 is its own parent, hence its own ancestor; an update of
    department 2 that names a parent (here 99, which does not exist) then
    never returns. *)
Theorem reassign_delete_creates_cycle :
  run (handle (CreateDepartment (DepartmentCreate.mk "Engineering" None) 10))
      empty_store
    = Some (mkStore {[1 := Department.mk "Engineering" None 10]} ∅, inr tt) ∧
  run (handle (CreateDepartment (DepartmentCreate.mk "Backend" (Some 1)) 11))
      (mkStore {[1 := Department.mk "Engineering" None 10]} ∅)
    = Some (mkStore (<[2 := Department.mk "Backend" (Some 1) 11]>
                       {[1 := Department.mk "Engineering" None 10]}) ∅, inr tt) ∧
  run (handle (DeleteDepartment 1 "reassign" (Some 2)))
      (mkStore (<[2 := Department.mk "Backend" (Some 1) 11]>
                  {[1 := Department.mk "Engineering" None 10]}) ∅)
    = Some (store_with_cycle, inr tt) ∧
  reachable store_with_cycle ∧
  descendant (departments store_with_cycle) 2 2 ∧
  ¬ acyclic (departments store_with_cycle) ∧
  ∀ fuel,
    run (update_department fuel 2 (DepartmentUpdate.mk None (Some 99)))
        store_with_cycle = None.
Proof.
  assert (run (handle (CreateDepartment (DepartmentCreate.mk "Engineering" None) 10))
              empty_store
            = Some (mkStore {[1 := Department.mk "Engineering" None 10]} ∅, inr tt))
    as H1 by (vm_compute; reflexivity).
  assert (run (handle (CreateDepartment (DepartmentCreate.mk "Backend" (Some 1)) 11))
              (mkStore {[1 := Department.mk "Engineering" None 10]} ∅)
            = Some (mkStore (<[2 := Department.mk "Backend" (Some 1) 11]>
                       {[1 := Department.mk "Engineering" None 10]}) ∅, inr tt))
    as H2 by (vm_compute; reflexivity).
  assert (run (handle (DeleteDepartment 1 "reassign" (Some 2)))
              (mkStore (<[2 := Department.mk "Backend" (Some 1) 11]>
                          {[1 := Department.mk "Engineering" None 10]}) ∅)
            = Some (store_with_cycle, inr tt))
    as H3 by (vm_compute; reflexivity).
  assert (descendant (departments store_with_cycle) 2 2) as Hcycle.
  { apply tc_once. exists (Department.mk "Backend" (Some 2) 11). split; [|done].
    simpl. by rewrite lookup_singleton_eq. }
  split; [done|]. split; [done|]. split; [done|]. split; [|split; [done|split]].
  - eapply reachable_request; [|exact H3].
    eapply reachable_request; [|exact H2].
    eapply reachable_request; [|exact H1].
    apply reachable_empty.
  - intros Hacyclic. by apply (Hacyclic 2).
  - apply update_department_on_cycle.
Qed.

(** ** A sample store, and the theorems at work on it *)

Lemma reachable_run_requests rs st st' :
  reachable st → run_requests rs st = Some st' → reachable st'.
Proof.
  revert st. induction rs as [|r rs IH]; intros st Hst; simpl.
  - by intros [= <-].
  - destruct (run (handle r) st) as [[st1 res]|] eqn:Hr; [|done].
    apply IH. by eapply reachable_request.
Qed.

Lemma sample_store_reachable : reachable sample_store.
Proof.
  apply (reachable_run_requests sample_requests empty_store);
    [apply reachable_empty|].
  vm_compute. reflexivity.
Qed.

Lemma reachable_outside_run_requests rs st st' :
  reachable_outside st →
  Forall (λ r, ∀ st0, target_outside_subtree st0 r) rs →
  run_requests rs st = Some st' → reachable_outside st'.
Proof.
  intros Hst Hrs. revert st Hst.
  induction Hrs as [|r rs Hr _ IH]; intros st Hst; simpl.
  - by intros [= <-].
  - destruct (run (handle r) st) as [[st1 res]|] eqn:Hrun; [|done].
    apply IH. by eapply reachable_outside_request.
Qed.

Lemma sample_store_reachable_outside : reachable_outside sample_store.
Proof.
  apply (reachable_outside_run_requests sample_requests empty_store).
  - apply reachable_outside_empty.
  - unfold sample_requests. repeat (apply Forall_cons; split; [done|]).
    apply Forall_nil_2.
  - vm_compute. reflexivity.
Qed.

Lemma sample_store_acyclic : acyclic (departments sample_store).
Proof. apply acyclic_reachable_outside, sample_store_reachable_outside. Qed.

Lemma sample_store_parents_exist : parents_exist (departments sample_store).
Proof. apply acyclic_reachable_outside, sample_store_reachable_outside. Qed.

Lemma create_department_spec_witness :
  run (create_department (DepartmentCreate.mk "Backend" (Some 1)) 30) sample_store
    = Some (sample_store, inl ConflictError).
Proof.
  destruct (create_department_spec sample_store
              (DepartmentCreate.mk "Backend" (Some 1)) 30) as (_ & H & _).
  apply H.
  - intros (p & Hp & Hnone). injection Hp as <-. vm_compute in Hnone. discriminate.
  - exists 3, (Department.mk "Backend" (Some 1) 12).
    split; [vm_compute; reflexivity|]. split; [reflexivity|].
    split; [reflexivity|discriminate].
Defined.

Lemma failure_atomicity_witness :
  run (handle (DeleteDepartment 3 "reassign" (Some 3))) sample_store
    = Some (sample_store, inl ConflictError) ∧
  (ConflictError ≠ IntegrityError →
   open_session sample_store = open_session sample_store).
Proof.
  apply (failure_atomicity sample_store (DeleteDepartment 3 "reassign" (Some 3))
           (open_session sample_store) ConflictError).
  vm_compute. reflexivity.
Defined.

Lemma reassign_delete_spec_witness :
  run (delete_department 3 "reassign" (Some 5)) sample_store
    = Some (after_delete (relinked sample_store 3 5) 3, inr tt) ∧
  departments (after_delete (relinked sample_store 3 5) 3) !! 3 = None ∧
  departments (after_delete (relinked sample_store 3 5) 3) !! 4
    = Some (Department.mk "API" (Some 5) 13) ∧
  employees (after_delete (relinked sample_store 3 5) 3) !! 2
    = Some (Employee.mk 5 "Carol" "Developer" (Some 100) 21).
Proof.
  assert (run (delete_department 3 "reassign" (Some 5)) sample_store
            = Some (after_delete (relinked sample_store 3 5) 3, inr tt)) as Hrun
    by (vm_compute; reflexivity).
  destruct (reassign_delete_spec sample_store _ 3 (Some 5) Hrun)
    as (t & Ht & _ & _ & _ & Hgone & Hemp & Hchild & _).
  injection Ht as <-.
  split; [exact Hrun|]. split; [exact Hgone|]. split.
  - apply (Hchild 4 (Department.mk "API" (Some 3) 13));
      [vm_compute; reflexivity|lia|reflexivity].
  - apply (Hemp 2 (Employee.mk 3 "Carol" "Developer" (Some 100) 21));
      [vm_compute; reflexivity|reflexivity].
Defined.

Lemma sibling_names_unique_reachable_witness :
  sibling_names_unique (departments sample_store).
Proof.
  apply (sibling_names_unique_reachable sample_store).
  apply (reachable_run_requests sample_requests empty_store);
    [apply reachable_empty|].
  vm_compute. reflexivity.
Defined.


Lemma effective_values_spec_witness :
  effective_name (DepartmentUpdate.mk (Some "Core") None)
                 (Department.mk "Backend" (Some 1) 12) = "Core" ∧
  effective_parent_id (DepartmentUpdate.mk (Some "Core") None)
                      (Department.mk "Backend" (Some 1) 12) = Some 1.
Proof.
  apply (effective_values_spec (PatchBody.mk (Given "  Core  ") Null)
           (DepartmentUpdate.mk (Some "Core") None)
           (Department.mk "Backend" (Some 1) 12)).
  vm_compute. reflexivity.
Defined.


Lemma get_department_tree_spec_witness :
  ∃ t, run (get_department_tree 1 1 true "full_name") sample_store
         = Some (sample_store, inr t) ∧
    tree_view sample_store true "full_name" (Z.to_nat 1)
              (1, Department.mk "Engineering" None 10) t ∧
    (1 ≤ 0 → tree_children t = []).
Proof.
  apply (get_department_tree_spec sample_store 1
           (Department.mk "Engineering" None 10) 1 true "full_name").
  vm_compute. reflexivity.
Defined.

Lemma update_department_never_makes_root_witness :
  ∃ d', departments (mkStore (<[3 := Department.mk "Core" (Some 1) 12]>
                                (departments sample_store))
                             (employees sample_store)) !! 3 = Some d' ∧
        Department.parent_id d' = Some 1.
Proof.
  destruct (update_department_never_makes_root sample_store 3
              (Department.mk "Backend" (Some 1) 12)
              (DepartmentUpdate.mk (Some "Core") None)) as (H & _).
  { vm_compute. reflexivity. }
  destruct (H 5%nat
              (mkStore (<[3 := Department.mk "Core" (Some 1) 12]>
                          (departments sample_store)) (employees sample_store))
              (inr (3, Department.mk "Core" (Some 1) 12))) as (_ & Hkeep).
  { vm_compute. reflexivity. }
  apply Hkeep. reflexivity.
Defined.

(** The scenarios of the specification. *)

Example scenario_engineering :
  ∃ st1 st2 st3,
    run (create_department (DepartmentCreate.mk "Engineering" None) 10) empty_store
      = Some (st1, inr (1, Department.mk "Engineering" None 10)) ∧
    run (create_department (DepartmentCreate.mk "Backend" (Some 1)) 11) st1
      = Some (st2, inr (2, Department.mk "Backend" (Some 1) 11)) ∧
    run (create_department (DepartmentCreate.mk "Backend" (Some 1)) 12) st2
      = Some (st2, inl ConflictError) ∧
    run (update_department 10 1 (DepartmentUpdate.mk None (Some 2))) st2
      = Some (st2, inl ConflictError) ∧
    run (delete_department 1 "cascade" None) st2 = Some (st3, inr tt) ∧
    run (get_department_tree 2 1 true "created_at") st3
      = Some (st3, inl DepartmentNotFoundError).
Proof.
  eexists _, _, _. repeat split; vm_compute; reflexivity.
Qed.

Example scenario_reassign :
  ∃ st,
    run_requests
      [ CreateDepartment (DepartmentCreate.mk "A" None) 10;
        CreateDepartment (DepartmentCreate.mk "B" None) 11;
        CreateEmployee 1 (EmployeeCreate.mk "Bob" "Dev" None) 12;
        DeleteDepartment 1 "reassign" (Some 2) ] empty_store = Some st ∧
    run (get_department_tree 2 1 true "created_at") st
      = Some (st, inr (Tree (DepartmentResponse.mk 2 "B" None 11)
                            [EmployeeResponse.mk 1 2 "Bob" "Dev" None 12] [])).
Proof.
  eexists. split; vm_compute; reflexivity.
Qed.

Example scenario_children_order :
  option_map (λ r, match r.2 with
                   | inr t => DepartmentResponse.name <$>
                                (tree_department <$> tree_children t)
                   | inl _ => []
                   end)
    (run (get_department_tree 1 1 true "created_at") sample_store)
  = Some ["Backend"; "Platform"].
Proof. vm_compute. reflexivity. Qed.

Example scenario_employees_by_name :
  option_map (λ r, match r.2 with
                   | inr t => EmployeeResponse.full_name <$> tree_employees t
                   | inl _ => []
                   end)
    (run (get_department_tree 3 1 true "full_name") sample_store)
  = Some ["Bob"; "Carol"].
Proof. vm_compute. reflexivity. Qed.

Lemma same_name_store_collision :
  ¬ uq_department_name_parent (departments (relinked same_name_store 1 2))
                              (relinked_rows same_name_store 1).
Proof.
  intros H. apply (H 3).
  - vm_compute. reflexivity.
  - exists (Department.mk "X" (Some 2) 12), 2. split; [vm_compute; reflexivity|].
    split; [reflexivity|]. exists 4, (Department.mk "X" (Some 2) 13).
    split; [vm_compute; reflexivity|]. split; [lia|]. split; reflexivity.
Qed.

(** A reassign delete whose relink would put two departments of the same
    name under the target: the service makes no check of its own, the
    store refuses the bulk update, and nothing is committed. *)
Example scenario_reassign_same_name :
  run_requests
    [ CreateDepartment (DepartmentCreate.mk "A" None) 10;
      CreateDepartment (DepartmentCreate.mk "B" None) 11;
      CreateDepartment (DepartmentCreate.mk "X" (Some 1)) 12;
      CreateDepartment (DepartmentCreate.mk "X" (Some 2)) 13 ] empty_store
    = Some same_name_store ∧
  run (delete_department 1 "reassign" (Some 2)) same_name_store
    = Some (same_name_store, inl IntegrityError).
Proof.
  split; [vm_compute; reflexivity|].
  rewrite delete_department_reassign_run.
  - by rewrite decide_False by apply same_name_store_collision.
  - by eexists.
  - by eexists.
  - lia.
Qed.

(** The cascade delete of a department that is its own parent, as a
    reassign delete to a target below the deleted department leaves one:
    the session cannot order the delete, and the department stays. *)
Example scenario_cascade_on_cycle :
  run (delete_department 2 "cascade" None) store_with_cycle
    = Some (store_with_cycle, inl CircularDependencyError).
Proof.
  apply delete_department_cascade_cycle, tc_once.
  exists (Department.mk "Backend" (Some 2) 11).
  split; [vm_compute; reflexivity|reflexivity].
Qed.

(** ** More on the descendant traversal *)

(** X1: when [_get_descendant_ids] returns it has not touched the
    session, and the set it returns holds exactly the departments below
    [department_id]: every one of them is a row of the table, and in a
    table without cycles the department itself is not among them. *)
Theorem get_descendant_ids_spec (fuel : nat) (department_id : Z)
    (s s' : Session) (r : Error + gset Z) :
  _get_descendant_ids fuel department_id s = Some (s', r) →
  s' = s ∧
  ∃ descendants, r = inr descendants ∧
    (∀ y, y ∈ descendants ↔ descendant (departments (pending s)) department_id y) ∧
    descendants ⊆ dom (departments (pending s)) ∧
    (acyclic (departments (pending s)) → department_id ∉ descendants).
Proof.
  unfold _get_descendant_ids.
  destruct (_get_descendant_ids_loop _ _ _ _) as [descendants|] eqn:Hloop; [|done].
  intros [= <- <-]. split; [done|]. exists descendants. split; [done|].
  pose proof (get_descendant_ids_correct _ _ _ _ Hloop) as Hdesc.
  split; [done|]. split.
  - intros y Hy%Hdesc%descendant_exists. by apply elem_of_dom.
  - intros Hacyclic Hin%Hdesc. by apply (Hacyclic department_id).
Qed.

(** X2: in a table without cycles [_get_descendant_ids] returns for every
    id, that of a department that does not exist included: some number
    of iterations is enough, and with more the result is the same. *)
Theorem get_descendant_ids_returns (department_id : Z) (s : Session) :
  acyclic (departments (pending s)) →
  ∃ n descendants, ∀ fuel, (n ≤ fuel)%nat →
    _get_descendant_ids fuel department_id s = Some (s, inr descendants).
Proof.
  intros Hacyclic.
  destruct (get_descendant_ids_terminates _ department_id Hacyclic)
    as (n & descendants & Hn).
  exists n, descendants. intros fuel Hfuel. unfold _get_descendant_ids.
  by rewrite (Hn fuel Hfuel).
Qed.

(** With a department that is on a cycle, or above one, on the stack, the
    loop never empties the stack. *)
Lemma traversal_loop_cycle fuel tbl c stack result :
  descendant tbl c c →
  (∃ z, z ∈ stack ∧ rtc (child_of tbl) z c) →
  _get_descendant_ids_loop fuel tbl stack result = None.
Proof.
  intros Hcycle. revert stack result.
  induction fuel as [|fuel IH]; intros stack result (z & Hz & Hzc).
  - destruct stack; [by apply elem_of_nil in Hz|done].
  - destruct stack as [|x stack]; [by apply elem_of_nil in Hz|].
    simpl. rewrite visit_rows_eq. simpl. apply IH.
    apply elem_of_cons in Hz as [->|Hz].
    + assert (descendant tbl x c) as Hxc.
      { apply rtc_tc in Hzc as [->|?]; done. }
      apply descendant_inv in Hxc as [Hc|(c' & Hc & Hc')].
      * exists c. split; [|reflexivity].
        apply elem_of_app. left. by apply elem_of_reverse, elem_of_child_ids.
      * exists c'. split; [|by apply tc_rtc].
        apply elem_of_app. left. by apply elem_of_reverse, elem_of_child_ids.
    + exists z. split; [|done]. apply elem_of_app. by right.
Qed.

(** X3: [_get_descendant_ids] does not return for a department that is
    on a cycle of the parent relation, or above one: whatever the number
    of iterations, the stack is not empty after them. *)
Theorem get_descendant_ids_never_returns (fuel : nat) (department_id c : Z)
    (s : Session) :
  descendant (departments (pending s)) c c →
  rtc (child_of (departments (pending s))) department_id c →
  _get_descendant_ids fuel department_id s = None.
Proof.
  intros Hcycle Hreach. unfold _get_descendant_ids.
  rewrite (traversal_loop_cycle _ _ c); [done|done|].
  exists department_id. split; [by apply list_elem_of_singleton|done].
Qed.

(** ** The name check *)

(** X4: [_check_name_unique_under_parent] always returns and leaves the
    session as it is; it raises [ConflictError] exactly when a row other
    than the excluded one has the name and the parent (for a null parent:
    when a root has the name), and it raises nothing else. *)
Theorem check_name_unique_under_parent_spec (name : string)
    (parent_id exclude : option Z) (s : Session) :
  ∃ r, _check_name_unique_under_parent name parent_id exclude s = Some (s, r) ∧
    (r = inl ConflictError ↔
       ∃ j d, departments (pending s) !! j = Some d ∧ Department.name d = name ∧
              Department.parent_id d = parent_id ∧ exclude ≠ Some j) ∧
    (r = inr tt ↔
       ∀ j d, departments (pending s) !! j = Some d → Department.name d = name →
              Department.parent_id d = parent_id → exclude = Some j).
Proof.
  destruct (decide (slot_taken (departments (pending s)) name parent_id exclude))
    as [Ht|Hf].
  - exists (inl ConflictError). split; [by apply check_name_taken|].
    split; [done|]. split; [done|]. intros Hall. exfalso.
    destruct Ht as (j & d & Hj & Hn & Hp & Hne). by apply Hne, (Hall j d).
  - exists (inr tt). split; [by apply check_name_free|].
    split; [split; [done|]; intros Ht; by destruct Hf|].
    split; [|done]. intros _ j d Hj Hn Hp.
    destruct (decide (exclude = Some j)) as [|Hne]; [done|].
    destruct Hf. by exists j, d.
Qed.

(** ** Creating an employee *)

(** X5: [create_employee] raises [DepartmentNotFoundError] and leaves
    the store as it was when the department does not exist; otherwise it
    succeeds whatever employees there are already (no uniqueness among
    employees): it commits one new row, for that department and with the
    fields of the request, under a key that was free, and leaves the
    departments and the other employees as they were. *)
Theorem create_employee_spec (st : Store) (department_id : Z)
    (data : EmployeeCreate.t) (now : Z) :
  let row := Employee.mk department_id (EmployeeCreate.full_name data)
               (EmployeeCreate.position data) (EmployeeCreate.hired_at data) now in
  (departments st !! department_id = None →
     run (create_employee department_id data now) st
       = Some (st, inl DepartmentNotFoundError)) ∧
  (is_Some (departments st !! department_id) →
     ∃ i, employees st !! i = None ∧
       run (create_employee department_id data now) st
         = Some (mkStore (departments st) (<[i := row]> (employees st)),
                 inr (i, row))).
Proof.
  simpl. unfold run, create_employee. rewrite bind_get_department.
  cbn [pending open_session]. split.
  - by intros ->.
  - intros [d ->]. exists (next_id (employees st)).
    split; [apply next_id_fresh|done].
Qed.

(** ** More on the tree view *)

Lemma tree_height_children d es cs n :
  Forall (λ c, tree_height c ≤ n)%nat cs →
  (tree_height (Tree d es cs) ≤ S n)%nat.
Proof.
  simpl. induction 1 as [|c cs Hc _ IH]; [lia|]. lia.
Qed.

Lemma tree_all_children (P : DepartmentTreeResponse → Prop) d es cs :
  P (Tree d es cs) → Forall (tree_all P) cs → tree_all P (Tree d es cs).
Proof.
  intros HP Hcs. split; [done|]. clear HP.
  induction Hcs as [|c cs Hc _ IH]; [done|]. by split.
Qed.

Lemma build_tree_height st include_employees sort_employees_by depth dept :
  (tree_height (_build_tree st include_employees sort_employees_by depth dept)
     ≤ depth)%nat.
Proof.
  revert dept. induction depth as [|depth IH]; intros dept; [simpl; lia|].
  cbn [_build_tree]. apply tree_height_children.
  apply Forall_fmap, Forall_forall. intros c _. apply IH.
Qed.

(** X6: [get_department_tree] returns whatever the store, a store with a
    cycle among its departments included, and leaves the session as it
    is; it raises [DepartmentNotFoundError] exactly when the department
    does not exist, and the tree it returns otherwise has the department
    at its root and no more levels below it than [depth] (none when
    [depth] is zero or negative). *)
Theorem get_department_tree_bounded (department_id depth : Z)
    (include_employees : bool) (sort_employees_by : string) (s : Session) :
  ∃ r, get_department_tree department_id depth include_employees
                           sort_employees_by s = Some (s, r) ∧
    (departments (pending s) !! department_id = None ↔
       r = inl DepartmentNotFoundError) ∧
    (∀ department, departments (pending s) !! department_id = Some department →
       ∃ t, r = inr t ∧
         tree_department t
           = DepartmentResponse.model_validate (department_id, department) ∧
         (Z.of_nat (tree_height t) ≤ Z.max 0 depth)).
Proof.
  unfold get_department_tree. rewrite bind_get_department.
  destruct (departments (pending s) !! department_id) as [department|] eqn:Hd.
  - eexists. split; [reflexivity|]. split; [split; intros [=]|].
    intros ? [= <-]. eexists. split; [reflexivity|].
    split; [by destruct (Z.to_nat depth)|].
    pose proof (build_tree_height (pending s) include_employees sort_employees_by
                  (Z.to_nat depth) (department_id, department)).
    lia.
  - eexists. split; [reflexivity|]. split; [split; done|]. by intros ?.
Qed.

(** X7: the sort key is compared with ["full_name"] only: with any other
    string, valid or not, the employees are sorted by [created_at], and
    the tree is the one that ["created_at"] gives. *)
Theorem build_tree_sort_fallback (st : Store) (include_employees : bool)
    (sort_employees_by : string) (depth : nat) (dept : Z * Department.t) :
  sort_employees_by ≠ "full_name" →
  _build_tree st include_employees sort_employees_by depth dept
    = _build_tree st include_employees "created_at" depth dept.
Proof.
  intros Hsort. revert dept. induction depth as [|depth IH]; intros dept.
  - simpl. unfold sort_employees. by rewrite !decide_False.
  - cbn [_build_tree]. f_equal.
    + unfold sort_employees. by rewrite !decide_False.
    + apply list_fmap_ext. intros _ c _. apply IH.
Qed.

(** X8: when [include_employees] is false no node of the tree carries
    employees, at any level. *)
Theorem build_tree_without_employees (st : Store) (sort_employees_by : string)
    (depth : nat) (dept : Z * Department.t) :
  tree_all (λ t, tree_employees t = [])
           (_build_tree st false sort_employees_by depth dept).
Proof.
  revert dept. induction depth as [|depth IH]; intros dept; [by split|].
  cbn [_build_tree]. apply tree_all_children; [done|].
  apply Forall_fmap, Forall_forall. intros c _. apply IH.
Qed.

(** ** More on updates *)

(** X9: whatever it does, a call of [update_department] that returns
    leaves the employees and every other department as they were; on a
    department that does not exist it raises [DepartmentNotFoundError]
    and changes nothing; on one that exists, the department is still
    there afterwards with the [created_at] it had. *)
Theorem update_department_frame (fuel : nat) (department_id : Z)
    (data : DepartmentUpdate.t) (st st' : Store)
    (res : Error + Z * Department.t) :
  run (update_department fuel department_id data) st = Some (st', res) →
  employees st' = employees st ∧
  (∀ j, j ≠ department_id → departments st' !! j = departments st !! j) ∧
  (departments st !! department_id = None →
     res = inl DepartmentNotFoundError ∧ st' = st) ∧
  (∀ d, departments st !! department_id = Some d →
     ∃ d', departments st' !! department_id = Some d' ∧
           Department.created_at d' = Department.created_at d).
Proof.
  intros Hrun.
  destruct (departments st !! department_id) as [d|] eqn:Hd.
  - destruct (update_department_inv _ _ _ _ _ _ _ Hd Hrun)
      as [(e & -> & ->)|(-> & -> & _)].
    + split; [done|]. split; [done|]. split; [done|].
      intros ? [= <-]. eauto.
    + simpl. split; [done|]. split.
      * intros j Hj. by rewrite lookup_insert_ne.
      * split; [done|]. intros ? [= <-]. rewrite lookup_insert_eq. eauto.
  - unfold run, update_department in Hrun.
    rewrite bind_get_department in Hrun. cbn [pending open_session] in Hrun.
    rewrite Hd in Hrun. injection Hrun as <- <-. done.
Qed.

(** X10: a request without a name and without a parent changes nothing,
    whether it raises or not; and in a table without cycles, where
    parents exist and sibling names are distinct, it succeeds (given
    enough fuel) and returns the department as it is. *)
Theorem update_department_empty_request (st : Store) (department_id : Z)
    (department : Department.t) :
  departments st !! department_id = Some department →
  (∀ fuel st' res,
     run (update_department fuel department_id (DepartmentUpdate.mk None None)) st
       = Some (st', res) → st' = st) ∧
  (acyclic (departments st) → parents_exist (departments st) →
   sibling_names_unique (departments st) →
   ∃ n, ∀ fuel, (n ≤ fuel)%nat →
     run (update_department fuel department_id (DepartmentUpdate.mk None None)) st
       = Some (st, inr (department_id, department))).
Proof.
  intros Hd.
  assert (Department.mk (Department.name department)
            (Department.parent_id department) (Department.created_at department)
          = department) as Hrow by (by destruct department).
  assert (mkStore (<[department_id := department]> (departments st)) (employees st)
          = st) as Hst by (rewrite insert_id by done; by destruct st).
  split.
  - intros fuel st' res Hrun.
    destruct (update_department_inv _ _ _ _ _ _ _ Hd Hrun)
      as [(e & -> & ->)|(-> & -> & _)]; [done|].
    unfold effective_name, effective_parent_id. simpl. by rewrite Hrow.
  - intros Hacyclic Hfk Huniq.
    destruct (get_descendant_ids_terminates _ department_id Hacyclic)
      as (n & descendants & Hn).
    exists n. intros fuel Hfuel.
    assert (effective_parent_id (DepartmentUpdate.mk None None) department
              ≠ Some department_id) as Hself.
    { unfold effective_parent_id. simpl. intros Hself.
      apply (Hacyclic department_id), tc_once. by exists department. }
    assert (parent_checks fuel department_id
              (effective_parent_id (DepartmentUpdate.mk None None) department)
              (open_session st) = Some (open_session st, inr tt)) as Hpc.
    { unfold effective_parent_id, parent_checks. simpl.
      destruct (Department.parent_id department) as [p|] eqn:Hp; [|done].
      unfold bind at 1, _get_descendant_ids. cbn [pending open_session].
      rewrite (Hn fuel Hfuel). rewrite decide_False.
      - rewrite bind_get_department. cbn [pending open_session].
        by destruct (Hfk department_id department p Hd Hp) as [? ->].
      - intros Hin%(get_descendant_ids_correct _ _ _ _ (Hn fuel Hfuel)).
        apply (Hacyclic department_id). eapply tc_r; [exact Hin|].
        by exists department. }
    rewrite (update_department_finish _ _ _ department) by done.
    unfold effective_name, effective_parent_id. simpl.
    rewrite decide_False.
    + by rewrite Hrow, Hst.
    + intros (j & dj & Hj & Hname & Hparent & Hne).
      apply (Huniq j department_id dj department); [done|done|congruence|done|done].
Qed.

(** ** More on deletes *)

Lemma delete_department_run department_id mode target st :
  run (delete_department department_id mode target) st =
    match departments st !! department_id with
    | None => Some (st, inl DepartmentNotFoundError)
    | Some _ =>
      if decide (mode = "cascade") then
        if decide (department_id ∈ children_of (departments st)
                     (cascade_closure (departments st) department_id))
        then Some (st, inl CircularDependencyError)
        else Some (after_delete st department_id, inr tt)
      else if decide (mode = "reassign") then
        match target with
        | None => Some (st, inl ValueError)
        | Some target_id =>
          match departments st !! target_id with
          | None => Some (st, inl DepartmentNotFoundError)
          | Some _ =>
            if decide (target_id = department_id)
            then Some (st, inl ConflictError)
            else if decide (uq_department_name_parent
                              (departments (relinked st department_id target_id))
                              (relinked_rows st department_id))
            then Some (after_delete (relinked st department_id target_id)
                                    department_id, inr tt)
            else Some (st, inl IntegrityError)
          end
        end
      else Some (st, inl ValueError)
    end.
Proof.
  destruct (departments st !! department_id) as [d|] eqn:Hd; cycle 1.
  { unfold run, delete_department. rewrite bind_get_department.
    cbn [pending open_session]. by rewrite Hd. }
  destruct (decide (mode = "cascade")) as [->|Hc].
  { by rewrite delete_department_cascade_run by (by eexists). }
  destruct (decide (mode = "reassign")) as [->|Hr]; cycle 1.
  { unfold run, delete_department. rewrite bind_get_department.
    cbn [pending open_session]. rewrite Hd. by rewrite !decide_False. }
  destruct target as [target_id|]; cycle 1.
  { unfold run, delete_department. rewrite bind_get_department.
    cbn [pending open_session]. rewrite Hd.
    by rewrite decide_False, decide_True. }
  destruct (departments st !! target_id) as [t|] eqn:Ht; cycle 1.
  { unfold run, delete_department. rewrite bind_get_department.
    cbn [pending open_session]. rewrite Hd.
    rewrite decide_False, decide_True by done.
    rewrite bind_get_department. cbn [pending open_session]. by rewrite Ht. }
  destruct (decide (target_id = department_id)) as [->|Hne].
  { unfold run, delete_department. rewrite bind_get_department.
    cbn [pending open_session]. rewrite Hd.
    rewrite decide_False, decide_True by done.
    rewrite bind_get_department. cbn [pending open_session]. rewrite Hd.
    by rewrite decide_True. }
  by rewrite delete_department_reassign_run by (done || by eexists).
Qed.

(** X11: the order of the checks of [delete_department].  A department
    that does not exist gives [DepartmentNotFoundError] whatever the mode,
    a bad one included; for a department that exists, a mode that is
    neither ["cascade"] nor ["reassign"] gives [ValueError], and in the
    reassign mode no target gives [ValueError], a target that does not
    exist [DepartmentNotFoundError], and the department itself as target
    [ConflictError].  None of them changes the store. *)
Theorem delete_department_errors (st : Store) (department_id : Z) (mode : string)
    (target : option Z) :
  (departments st !! department_id = None →
     run (delete_department department_id mode target) st
       = Some (st, inl DepartmentNotFoundError)) ∧
  (is_Some (departments st !! department_id) →
     (mode ≠ "cascade" → mode ≠ "reassign" →
        run (delete_department department_id mode target) st
          = Some (st, inl ValueError)) ∧
     (mode = "reassign" → target = None →
        run (delete_department department_id mode target) st
          = Some (st, inl ValueError)) ∧
     (mode = "reassign" → ∀ t, target = Some t → departments st !! t = None →
        run (delete_department department_id mode target) st
          = Some (st, inl DepartmentNotFoundError)) ∧
     (mode = "reassign" → target = Some department_id →
        run (delete_department department_id mode target) st
          = Some (st, inl ConflictError))).
Proof.
  unfold run, delete_department. rewrite bind_get_department.
  cbn [pending open_session]. split; [by intros ->|].
  intros [d Hd]. rewrite Hd. split; [|split; [|split]].
  - intros Hc Hr. by rewrite !decide_False.
  - intros -> ->. by rewrite decide_False, decide_True.
  - intros -> t -> Ht. rewrite decide_False, decide_True by done.
    rewrite bind_get_department. cbn [pending open_session]. by rewrite Ht.
  - intros -> ->. rewrite decide_False, decide_True by done.
    rewrite bind_get_department. cbn [pending open_session]. rewrite Hd.
    by rewrite decide_True.
Qed.

Lemma after_delete_relinked_departments st department_id target_id x :
  is_Some (departments st !! department_id) → target_id ≠ department_id →
  departments (after_delete (relinked st department_id target_id) department_id) !! x
    = if decide (x = department_id) then None
      else relink_child department_id target_id <$> departments st !! x.
Proof.
  intros Hd Hne.
  assert (is_Some (departments (relinked st department_id target_id) !! department_id))
    as Hd' by (simpl; rewrite lookup_fmap; by apply fmap_is_Some).
  case_decide as Hx.
  - subst x. apply after_delete_departments_removed; [done|by left].
  - rewrite after_delete_departments_kept; [by simpl; rewrite lookup_fmap|done|].
    intros [?|Hdesc]; [done|]. by apply relinked_no_child in Hdesc.
Qed.

Lemma after_delete_relinked_employees st department_id target_id i :
  is_Some (departments st !! department_id) → target_id ≠ department_id →
  employees (after_delete (relinked st department_id target_id) department_id) !! i
    = relink_employee department_id target_id <$> employees st !! i.
Proof.
  intros Hd Hne.
  assert (is_Some (departments (relinked st department_id target_id) !! department_id))
    as Hd' by (simpl; rewrite lookup_fmap; by apply fmap_is_Some).
  destruct (employees st !! i) as [e|] eqn:Hi.
  - apply (after_delete_employees_kept (relinked st department_id target_id)
             department_id i (relink_employee department_id target_id e));
      [done| |].
    + simpl. by rewrite lookup_fmap, Hi.
    + intros [Heq|Hdesc]; [|by apply relinked_no_child in Hdesc].
      unfold relink_employee in Heq. case_decide; simpl in Heq; congruence.
  - destruct (employees (after_delete _ _) !! i) as [e|] eqn:Hi'; [|done].
    apply after_delete_employees_inv in Hi' as [Hi' _]; [|done].
    simpl in Hi'. by rewrite lookup_fmap, Hi in Hi'.
Qed.

(** X12: a reassign delete that succeeds destroys no employee and no
    department but the one it deletes: the employees have the keys they
    had, and the departments the keys they had less that of the deleted
    department. *)
Theorem reassign_delete_keeps_keys (st st' : Store) (department_id : Z)
    (target : option Z) :
  run (delete_department department_id "reassign" target) st = Some (st', inr tt) →
  dom (employees st') = dom (employees st) ∧
  dom (departments st') = dom (departments st) ∖ {[department_id]}.
Proof.
  intros Hrun. apply delete_department_inv in Hrun
    as [(e & ? & _)|[(_ & ? & _)|(_ & _ & t & -> & Hne & Hd & Ht & _ & ->)]];
    [done..|].
  split; apply set_eq; intros x; rewrite !elem_of_dom.
  - rewrite after_delete_relinked_employees by done. by rewrite fmap_is_Some.
  - rewrite after_delete_relinked_departments by done.
    rewrite elem_of_difference, elem_of_singleton, elem_of_dom. case_decide.
    + split; [by intros [? ?]|by intros [_ ?]].
    + rewrite fmap_is_Some. naive_solver.
Qed.

(** X13: after a cascade delete no department that is left has a parent
    that was removed, and no employee that is left has a department that
    was removed: the delete leaves no orphans, and the [ON DELETE] actions
    of the foreign keys have nothing to do. *)
Theorem cascade_delete_no_orphans (st st' : Store) (department_id : Z)
    (target : option Z) :
  run (delete_department department_id "cascade" target) st = Some (st', inr tt) →
  (∀ x d p, departments st' !! x = Some d → Department.parent_id d = Some p →
     ¬ removed (departments st) department_id p ∧
     departments st' !! p = departments st !! p) ∧
  (∀ i e, employees st' !! i = Some e →
     ¬ removed (departments st) department_id (Employee.department_id e) ∧
     departments st' !! Employee.department_id e
       = departments st !! Employee.department_id e).
Proof.
  intros Hrun. apply delete_department_inv in Hrun
    as [(e & ? & _)|[(_ & _ & Hd & ->)|(_ & ? & _)]]; [done| |done].
  split.
  - intros x d p Hx Hp.
    pose proof (after_delete_parent_kept _ _ _ _ _ Hd Hx Hp) as Hkeep.
    split; [done|]. by apply after_delete_departments_kept.
  - intros i e Hi. apply after_delete_employees_inv in Hi as [_ Hkeep]; [|done].
    split; [done|]. by apply after_delete_departments_kept.
Qed.

Lemma uq_relinked_iff st department_id target_id :
  uq_department_name_parent (departments (relinked st department_id target_id))
                            (relinked_rows st department_id) ↔
  ¬ relink_name_clash (departments st) department_id target_id.
Proof.
  split.
  - intros Huq (c & j & dc & dj & Hne & Hc & Hj & Hpc & Hpj & Hname).
    apply (Huq c).
    + apply elem_of_dom. exists dc. by apply map_lookup_filter_Some.
    + exists (relink_child department_id target_id dc), target_id.
      split; [by simpl; rewrite lookup_fmap, Hc|].
      split; [by apply relink_child_parent_hit|].
      exists j, (relink_child department_id target_id dj).
      split; [by simpl; rewrite lookup_fmap, Hj|].
      split; [done|]. rewrite !relink_child_name. split; [done|].
      destruct Hpj as [Hpj|Hpj]; [|by apply relink_child_parent_hit].
      destruct (decide (Department.parent_id dj = Some department_id)).
      * by apply relink_child_parent_hit.
      * by rewrite relink_child_parent_miss.
  - intros Hclash c Hc (r & p & Hr & Hp & j & r' & Hj & Hne & Hname & Hp').
    unfold relinked_rows in Hc. apply elem_of_dom in Hc as [dc0 Hc].
    apply map_lookup_filter_Some in Hc as [Hc Hpc]. simpl in Hpc.
    simpl in Hr, Hj. rewrite lookup_fmap in Hr, Hj. rewrite Hc in Hr.
    simpl in Hr. injection Hr as <-.
    destruct (departments st !! j) as [dj|] eqn:Hj0; [|done].
    simpl in Hj. injection Hj as <-.
    rewrite relink_child_parent_hit in Hp by done. injection Hp as <-.
    rewrite !relink_child_name in Hname.
    apply Hclash. exists c, j, dc0, dj.
    split; [congruence|]. split; [done|]. split; [done|]. split; [done|].
    split; [|done].
    destruct (decide (Department.parent_id dj = Some department_id)) as [|Hmiss];
      [by right|].
    rewrite relink_child_parent_miss in Hp' by done. by left.
Qed.

(** X14: the outcome of a reassign delete once its checks have passed
    (the department and the target exist and differ).  The service makes
    no check on names: when a child of the deleted department has the
    name of another department that is under the target, or comes under
    it, the store refuses the relink, the call raises [IntegrityError]
    (not [ConflictError]) and nothing is committed; otherwise the call
    succeeds.  With sibling names distinct before the call, the other
    department is a child of the target. *)
Theorem reassign_delete_outcome (st : Store) (department_id target_id : Z) :
  is_Some (departments st !! department_id) →
  is_Some (departments st !! target_id) →
  target_id ≠ department_id →
  (relink_name_clash (departments st) department_id target_id →
     run (delete_department department_id "reassign" (Some target_id)) st
       = Some (st, inl IntegrityError)) ∧
  (¬ relink_name_clash (departments st) department_id target_id →
     ∃ st', run (delete_department department_id "reassign" (Some target_id)) st
              = Some (st', inr tt)) ∧
  (sibling_names_unique (departments st) →
   relink_name_clash (departments st) department_id target_id →
   ∃ c t dc dt, departments st !! c = Some dc ∧ departments st !! t = Some dt ∧
     Department.parent_id dc = Some department_id ∧
     Department.parent_id dt = Some target_id ∧
     Department.name dc = Department.name dt).
Proof.
  intros Hd Ht Hne. rewrite delete_department_reassign_run by done.
  split; [|split].
  - intros Hclash. rewrite decide_False; [done|].
    by intros Huq%uq_relinked_iff.
  - intros Hfree. rewrite decide_True by (by apply uq_relinked_iff). eauto.
  - intros Huniq (c & j & dc & dj & Hcj & Hc & Hj & Hpc & [Hpj|Hpj] & Hname).
    + exists c, j, dc, dj. done.
    + exfalso. apply (Huniq c j dc dj); [done..|congruence|done].
Qed.

(** ** Invariants of the reachable stores *)

Lemma referential_integrity_step st r st' res :
  parents_exist (departments st) → employees_have_department st →
  run (handle r) st = Some (st', res) →
  parents_exist (departments st') ∧ employees_have_department st'.
Proof.
  intros Hfk Hemp Hrun.
  destruct r as [data now|d data now|fuel d data|d mode target]; simpl in Hrun.
  - apply run_then_ret in Hrun as [res0 Hrun].
    rewrite create_department_run in Hrun.
    case_decide as Hpm; [by simplify_eq|].
    case_decide as Htaken; [by simplify_eq|]. simplify_eq. split.
    + apply parents_exist_insert; [done|]. simpl. intros p Hp.
      destruct (departments st !! p) eqn:Hl; [by eexists|].
      destruct Hpm. by exists p.
    + intros i e Hi. simpl. apply lookup_insert_is_Some'. right.
      by apply (Hemp i e).
  - apply run_then_ret in Hrun as [res0 Hrun].
    unfold run, create_employee in Hrun. rewrite bind_get_department in Hrun.
    cbn [pending open_session] in Hrun.
    destruct (departments st !! d) as [department|] eqn:Hd;
      injection Hrun as <- _; [|done].
    split; [done|]. intros i e. simpl.
    destruct (decide (i = next_id (employees st))) as [->|Hne].
    + rewrite lookup_insert_eq. intros [= <-]. simpl. by rewrite Hd.
    + rewrite lookup_insert_ne by done. apply Hemp.
  - apply run_then_ret in Hrun as [res0 Hrun].
    destruct (departments st !! d) as [department|] eqn:Hd.
    + destruct (update_department_inv _ _ _ _ _ _ _ Hd Hrun)
        as [(e & _ & ->)|(_ & -> & _ & _ & Hparent)]; [done|]. split.
      * apply parents_exist_insert; [done|]. simpl. intros p Hp.
        by destruct (Hparent p Hp).
      * intros i e Hi. simpl. apply lookup_insert_is_Some'. right.
        by apply (Hemp i e).
    + unfold run, update_department in Hrun.
      rewrite bind_get_department in Hrun. simpl in Hrun. rewrite Hd in Hrun.
      by injection Hrun as <- _.
  - apply delete_department_inv in Hrun
      as [(e & _ & ->)|[(_ & _ & Hd & ->)
                       |(_ & -> & t & -> & Hne & Hd & Ht & _ & ->)]]; [done| |].
    + split; [by apply parents_exist_after_delete|].
      intros i e Hi. apply after_delete_employees_inv in Hi as [Hi Hkeep]; [|done].
      rewrite after_delete_departments_kept by done. by apply (Hemp i e).
    + assert (is_Some (departments (relinked st d t) !! d)) as Hd'.
      { simpl. rewrite lookup_fmap. by apply fmap_is_Some. }
      split.
      * apply parents_exist_after_delete; [done|].
        by apply parents_exist_relinked.
      * intros i e'. rewrite after_delete_relinked_employees by done.
        intros (e & Hi & ->)%fmap_Some.
        rewrite after_delete_relinked_departments by done.
        destruct (decide (Employee.department_id e = d)) as [He|He].
        -- assert (Employee.department_id (relink_employee d t e) = t) as ->
             by (unfold relink_employee; by rewrite decide_True).
           rewrite decide_False by done. by apply fmap_is_Some.
        -- assert (relink_employee d t e = e) as ->
             by (unfold relink_employee; by rewrite decide_False).
           rewrite decide_False by done. apply fmap_is_Some.
           by apply (Hemp i e).
Qed.

(** X15: referential integrity holds in every store that calls of the
    service reach from the empty store, the reassign deletes that make a
    cycle included: the parent of every department is a department of
    the store, and so is the department of every employee.  The service
    keeps this by its own checks and relinks. *)
Theorem referential_integrity_reachable (st : Store) :
  reachable st →
  parents_exist (departments st) ∧ employees_have_department st.
Proof.
  induction 1 as [|st r st' res _ [IH1 IH2] Hrun].
  - split.
    + intros c d p Hc. simpl in Hc. by rewrite lookup_empty in Hc.
    + intros i e Hi. simpl in Hi. by rewrite lookup_empty in Hi.
  - by eapply referential_integrity_step.
Qed.

(** X16: as long as no reassign delete names a target below the
    department it deletes, the departments form a forest: no department
    is its own ancestor, and so every call of [update_department]
    returns, given enough fuel for its traversal. *)
Theorem forest_reachable_outside (st : Store) :
  reachable_outside st →
  acyclic (departments st) ∧
  ∀ department_id data, ∃ n, ∀ fuel, (n ≤ fuel)%nat →
    is_Some (run (update_department fuel department_id data) st).
Proof.
  intros [Hacyclic _]%acyclic_reachable_outside. split; [done|].
  intros department_id data.
  destruct (get_descendant_ids_terminates _ department_id Hacyclic)
    as (n & descendants & Hn).
  exists n. intros fuel Hfuel. apply update_department_returns.
  intros _ _ _ _ _. rewrite (Hn fuel Hfuel). by eexists.
Qed.

(** X17: [update_department] keeps a forest a forest, whether it raises
    or not: from a table without cycles it leaves a table without
    cycles, and parents that all exist still all exist. *)
Theorem update_department_keeps_forest (fuel : nat) (department_id : Z)
    (data : DepartmentUpdate.t) (st st' : Store)
    (res : Error + Z * Department.t) :
  acyclic (departments st) →
  run (update_department fuel department_id data) st = Some (st', res) →
  acyclic (departments st') ∧
  (parents_exist (departments st) → parents_exist (departments st')).
Proof.
  intros Hacyclic Hrun.
  split; [by eapply update_department_preserves_acyclic|].
  intros Hfk.
  destruct (departments st !! department_id) as [department|] eqn:Hd.
  - destruct (update_department_inv _ _ _ _ _ _ _ Hd Hrun)
      as [(e & _ & ->)|(_ & -> & _ & _ & Hparent)]; [done|].
    apply parents_exist_insert; [done|]. simpl. intros p Hp.
    by destruct (Hparent p Hp).
  - unfold run, update_department in Hrun.
    rewrite bind_get_department in Hrun. simpl in Hrun. rewrite Hd in Hrun.
    by injection Hrun as <- _.
Qed.

(** ** What each function can raise *)

Lemma update_department_raises fuel department_id data st st' e :
  run (update_department fuel department_id data) st = Some (st', inl e) →
  e = DepartmentNotFoundError ∨ e = ConflictError.
Proof.
  intros Hrun.
  destruct (departments st !! department_id) as [department|] eqn:Hd; cycle 1.
  { unfold run, update_department in Hrun.
    rewrite bind_get_department in Hrun. simpl in Hrun. rewrite Hd in Hrun.
    injection Hrun as _ <-. by left. }
  destruct (decide (effective_parent_id data department = Some department_id))
    as [Hself|Hself].
  { unfold run in Hrun.
    rewrite (update_department_unfold _ _ _ department) in Hrun by done.
    cbv zeta in Hrun. rewrite decide_True in Hrun by done.
    injection Hrun as _ <-. by right. }
  destruct (parent_checks fuel department_id (effective_parent_id data department)
              (open_session st)) as [[s r]|] eqn:Hpc.
  - pose proof Hpc as [-> Hcases]%parent_checks_inv. destruct r as [e'|[]].
    + unfold run in Hrun.
      rewrite (update_department_unfold _ _ _ department) in Hrun by done.
      cbv zeta in Hrun. rewrite decide_False in Hrun by done.
      rewrite (bind_raise _ _ _ _ _ Hpc) in Hrun. injection Hrun as _ <-.
      destruct (effective_parent_id data department) as [p|]; [|done].
      destruct Hcases as (descendants & _ & Hcases).
      case_decide; [right; congruence|].
      destruct (departments _ !! p); [done|left; congruence].
    + rewrite (update_department_finish _ _ _ department) in Hrun by done.
      case_decide; [|done]. injection Hrun as _ <-. by right.
  - unfold run in Hrun.
    rewrite (update_department_unfold _ _ _ department) in Hrun by done.
    cbv zeta in Hrun. rewrite decide_False in Hrun by done.
    by rewrite (bind_None _ _ _ Hpc) in Hrun.
Qed.

(** X18: the exceptions of each function.  [create_department] and
    [update_department] raise only [DepartmentNotFoundError] and
    [ConflictError] (the constraint of the store never fires after their
    name check); [create_employee] and [get_department_tree] raise only
    [DepartmentNotFoundError]; a cascade delete raises only
    [DepartmentNotFoundError] or, for a department that is below itself,
    [CircularDependencyError]; [IntegrityError] comes from the reassign
    mode of [delete_department] alone, and [CircularDependencyError] from
    its cascade mode alone, for a department that is below itself. *)
Theorem service_exceptions (st st' : Store) (e : Error) :
  (∀ data now,
     run (create_department data now) st = Some (st', inl e) →
     e = DepartmentNotFoundError ∨ e = ConflictError) ∧
  (∀ department_id data now,
     run (create_employee department_id data now) st = Some (st', inl e) →
     e = DepartmentNotFoundError) ∧
  (∀ department_id depth include_employees sort_employees_by,
     run (get_department_tree department_id depth include_employees
                              sort_employees_by) st = Some (st', inl e) →
     e = DepartmentNotFoundError) ∧
  (∀ fuel department_id data,
     run (update_department fuel department_id data) st = Some (st', inl e) →
     e = DepartmentNotFoundError ∨ e = ConflictError) ∧
  (∀ department_id mode target,
     run (delete_department department_id mode target) st = Some (st', inl e) →
     (mode = "cascade" →
        e = DepartmentNotFoundError ∨
        (e = CircularDependencyError ∧
         descendant (departments st) department_id department_id)) ∧
     (e = IntegrityError → mode = "reassign") ∧
     (e = CircularDependencyError →
        mode = "cascade" ∧
        descendant (departments st) department_id department_id)).
Proof.
  split; [|split; [|split; [|split]]].
  - intros data now. rewrite create_department_run.
    repeat case_decide; intros [= _ <-]; auto.
  - intros department_id data now. unfold run, create_employee.
    rewrite bind_get_department. cbn [pending open_session].
    destruct (departments st !! department_id); by intros [= _ <-].
  - intros department_id depth include_employees sort_employees_by.
    unfold run, get_department_tree. rewrite bind_get_department.
    cbn [pending open_session].
    destruct (departments st !! department_id); by intros [= _ <-].
  - intros fuel department_id data. apply update_department_raises.
  - intros department_id mode target. rewrite delete_department_run.
    destruct (departments st !! department_id) as [d|] eqn:Hd; cycle 1.
    { intros [= _ <-]. split; [auto|]. split; intros [=]. }
    destruct (decide (mode = "cascade")) as [->|Hc].
    { case_decide as Hcycle; intros [= _ <-].
      apply delete_order_descendant in Hcycle; [|by eexists].
      split; [auto|]. split; [done|]. auto. }
    destruct (decide (mode = "reassign")) as [->|Hr]; cycle 1.
    { intros [= _ <-]. split; [done|]. split; intros [=]. }
    destruct target as [target_id|]; cycle 1.
    { intros [= _ <-]. split; [done|]. split; intros [=]. }
    destruct (departments st !! target_id); cycle 1.
    { intros [= _ <-]. split; [done|]. split; [done|]. intros [=]. }
    repeat case_decide; intros [= _ <-]; (split; [done|]);
      (split; [done|]); intros [=].
Qed.

(** ** Stripping and the validation of the bodies *)

Lemma string_app_cons (c : Ascii.ascii) (a b : string) :
  String.app (String c a) b = String c (String.app a b).
Proof. reflexivity. Qed.

Lemma string_app_nil_l (b : string) : String.app "" b = b.
Proof. reflexivity. Qed.

Lemma string_app_nil_r (s : string) : String.app s "" = s.
Proof.
  induction s as [|c s IH]; [done|]. by rewrite string_app_cons, IH.
Qed.

Lemma string_app_assoc (a b c : string) :
  String.app (String.app a b) c = String.app a (String.app b c).
Proof.
  induction a as [|x a IH]; [done|]. by rewrite !string_app_cons, IH.
Qed.

Lemma rev_app_rev_app (s1 s2 s3 : string) :
  String.rev_app (String.rev_app s1 s2) s3 = String.rev_app s2 (String.app s1 s3).
Proof.
  revert s2 s3. induction s1 as [|c s1 IH]; intros s2 s3; [done|].
  cbn [String.rev_app]. by rewrite IH, string_app_cons.
Qed.

Lemma string_rev_involutive (s : string) : String.rev (String.rev s) = s.
Proof.
  unfold String.rev. rewrite rev_app_rev_app. cbn [String.rev_app].
  apply string_app_nil_r.
Qed.

Lemma rev_app_app (s acc : string) :
  String.rev_app s acc = String.app (String.rev s) acc.
Proof.
  unfold String.rev. revert acc. induction s as [|c s IH]; intros acc; [done|].
  cbn [String.rev_app]. rewrite IH, (IH (String c "")).
  by rewrite string_app_assoc, string_app_cons, string_app_nil_l.
Qed.

Lemma string_rev_app (a b : string) :
  String.rev (String.app a b) = String.app (String.rev b) (String.rev a).
Proof.
  revert b. induction a as [|c a IH]; intros b.
  - by rewrite string_app_nil_l, string_app_nil_r.
  - rewrite string_app_cons. unfold String.rev at 1 3. cbn [String.rev_app].
    rewrite !rev_app_app, IH. by rewrite string_app_assoc.
Qed.

Lemma rev_app_length (s acc : string) :
  String.length (String.rev_app s acc) = (String.length s + String.length acc)%nat.
Proof.
  revert acc. induction s as [|c s IH]; intros acc; [done|].
  cbn. rewrite IH. cbn. lia.
Qed.

Lemma string_rev_length (s : string) :
  String.length (String.rev s) = String.length s.
Proof. unfold String.rev. rewrite rev_app_length. cbn. lia. Qed.

Lemma string_app_length (a b : string) :
  String.length (String.app a b) = (String.length a + String.length b)%nat.
Proof.
  induction a as [|c a IH]; [done|]. rewrite string_app_cons. cbn. by rewrite IH.
Qed.

Lemma drop_prefix_Some (w s r : string) :
  drop_prefix w s = Some r ↔ s = String.app w r.
Proof.
  revert s. induction w as [|a w IH]; intros s.
  - cbn. rewrite string_app_nil_l. naive_solver.
  - destruct s as [|b s]; [done|]. cbn [drop_prefix]. rewrite string_app_cons.
    case_decide as Hab; [subst b; rewrite IH|]; naive_solver.
Qed.

Lemma drop_any_Some (ws : list string) (s r : string) :
  drop_any ws s = Some r → ∃ w, w ∈ ws ∧ s = String.app w r.
Proof.
  induction ws as [|w ws IH]; [done|]. cbn.
  destruct (drop_prefix w s) as [r'|] eqn:Hw.
  - intros [= ->]. exists w. split; [by left|]. by apply drop_prefix_Some.
  - intros (w' & Hin & Hs)%IH. exists w'. split; [by right|done].
Qed.

Lemma drop_any_app (ws : list string) (p x : string) :
  is_Some (drop_any ws p) → is_Some (drop_any ws (String.app p x)).
Proof.
  induction ws as [|w ws IH]; [done|]. cbn.
  destruct (drop_prefix w p) as [r|] eqn:Hw.
  - intros _. apply drop_prefix_Some in Hw as ->.
    rewrite string_app_assoc.
    by rewrite (proj2 (drop_prefix_Some w _ (String.app r x)) eq_refl).
  - intros H. destruct (drop_prefix w (String.app p x)); [done|by apply IH].
Qed.

Lemma lstrip_loop_id (n : nat) (ws : list string) (s : string) :
  drop_any ws s = None → lstrip_loop n ws s = s.
Proof. intros H. destruct n; [done|]. cbn. by rewrite H. Qed.

Lemma lstrip_loop_done (n : nat) (ws : list string) (s : string) :
  Forall (λ w, w ≠ "") ws → (String.length s ≤ n)%nat →
  drop_any ws (lstrip_loop n ws s) = None.
Proof.
  intros Hws. revert s. induction n as [|n IH]; intros s Hn.
  - destruct s; [|cbn in Hn; lia]. cbn.
    destruct (drop_any ws "") as [r|] eqn:H; [|done].
    apply drop_any_Some in H as (w & Hin & Hs).
    rewrite Forall_forall in Hws. specialize (Hws w Hin). by destruct w.
  - cbn. destruct (drop_any ws s) as [r|] eqn:H; [|done]. apply IH.
    apply drop_any_Some in H as (w & Hin & ->).
    rewrite Forall_forall in Hws. specialize (Hws w Hin).
    rewrite string_app_length in Hn. destruct w; [done|]. cbn in Hn. lia.
Qed.

Lemma lstrip_loop_suffix (n : nat) (ws : list string) (s : string) :
  ∃ p, s = String.app p (lstrip_loop n ws s).
Proof.
  revert s. induction n as [|n IH]; intros s; [by exists ""|]. cbn.
  destruct (drop_any ws s) as [r|] eqn:H; [|by exists ""].
  apply drop_any_Some in H as (w & _ & ->). destruct (IH r) as [p Hp].
  exists (String.app w p). by rewrite string_app_assoc, <- Hp.
Qed.

Lemma utf8_nonempty (c : N) : utf8 c ≠ "".
Proof. unfold utf8. by repeat case_match. Qed.

Lemma whitespace_nonempty : Forall (λ w, w ≠ "") (utf8 <$> whitespace).
Proof. apply Forall_fmap, Forall_forall. intros c _. apply utf8_nonempty. Qed.

Lemma whitespace_rev_nonempty :
  Forall (λ w, w ≠ "") (String.rev ∘ utf8 <$> whitespace).
Proof.
  apply Forall_fmap, Forall_forall. intros c _ H. cbn in H.
  apply (f_equal String.rev) in H. rewrite string_rev_involutive in H.
  by apply utf8_nonempty in H.
Qed.

Lemma lstrip_no_leading_space (s : string) : no_leading_space (lstrip s).
Proof. apply lstrip_loop_done; [apply whitespace_nonempty|done]. Qed.

Lemma lstrip_id (s : string) : no_leading_space s → lstrip s = s.
Proof. apply lstrip_loop_id. Qed.

Lemma rstrip_no_trailing_space (s : string) : no_trailing_space (rstrip s).
Proof.
  unfold no_trailing_space, rstrip. rewrite string_rev_involutive.
  apply lstrip_loop_done; [apply whitespace_rev_nonempty|].
  by rewrite string_rev_length.
Qed.

Lemma rstrip_id (s : string) : no_trailing_space s → rstrip s = s.
Proof.
  intros H. unfold rstrip. rewrite lstrip_loop_id by done.
  apply string_rev_involutive.
Qed.

Lemma rstrip_prefix (s : string) : ∃ x, s = String.app (rstrip s) x.
Proof.
  unfold rstrip.
  destruct (lstrip_loop_suffix (String.length s)
              (String.rev ∘ utf8 <$> whitespace) (String.rev s)) as [p Hp].
  exists (String.rev p). apply (f_equal String.rev) in Hp.
  by rewrite string_rev_involutive, string_rev_app in Hp.
Qed.

Lemma strip_no_leading_space (s : string) : no_leading_space (strip s).
Proof.
  unfold strip, no_leading_space.
  destruct (drop_any _ (rstrip (lstrip s))) as [r|] eqn:H; [|done].
  destruct (rstrip_prefix (lstrip s)) as [x Hx].
  pose proof (lstrip_no_leading_space s) as Hl. unfold no_leading_space in Hl.
  rewrite Hx in Hl.
  destruct (drop_any_app (utf8 <$> whitespace) (rstrip (lstrip s)) x) as [r' Hr'];
    [by eexists|congruence].
Qed.

Lemma strip_no_trailing_space (s : string) : no_trailing_space (strip s).
Proof. apply rstrip_no_trailing_space. Qed.

(** Stripping a stripped string changes nothing. *)
Lemma strip_idempotent (s : string) : strip (strip s) = strip s.
Proof.
  unfold strip at 1.
  rewrite (lstrip_id (strip s)) by apply strip_no_leading_space.
  apply rstrip_id, strip_no_trailing_space.
Qed.

Lemma len_nonempty (s : string) : (1 ≤ len s)%nat → s ≠ "".
Proof. intros H ->. cbn in H. lia. Qed.

Lemma required_str_Some f n :
  required_str f = Some n ↔
  ∃ s, f = Given s ∧ n = strip s ∧ (1 ≤ len (strip s) ≤ 200)%nat.
Proof.
  unfold required_str, str_field, not_empty. split.
  - destruct f as [| |s]; [done|done|]. cbn [field_value trim_str].
    case_decide as Hlen; [|done]. case_decide as Hempty; [done|].
    intros [= <-]. by exists s.
  - intros (s & -> & -> & Hlen). cbn [field_value trim_str].
    rewrite decide_True by done. rewrite decide_False; [done|].
    apply len_nonempty. lia.
Qed.

Lemma required_str_valid f n : required_str f = Some n → valid_name n.
Proof.
  intros (s & -> & -> & Hlen)%required_str_Some.
  split; [apply strip_idempotent|]. split; [|done]. apply len_nonempty. lia.
Qed.

(** X20: the validation of the body of [POST /departments/].  The body is
    accepted exactly when its name is a string whose stripped form has
    between 1 and 200 characters; the request then carries the stripped
    name and the [parent_id] of the body (none when the field is absent
    or [null]).  The name of an accepted request is stripped, not empty
    and of at most 200 characters, and the validator [name_not_empty]
    never raises: the length bounds have refused the empty name before
    it runs. *)
Theorem DepartmentCreate_validate_spec (body : PostDepartmentBody.t) :
  (∀ data, DepartmentCreate_validate body = Some data ↔
     ∃ s, PostDepartmentBody.name body = Given s ∧
          (1 ≤ len (strip s) ≤ 200)%nat ∧
          data = DepartmentCreate.mk (strip s)
                   (validate_parent_id (PostDepartmentBody.parent_id body))) ∧
  (∀ data, DepartmentCreate_validate body = Some data →
     valid_name (DepartmentCreate.name data)) ∧
  (∀ v s, str_field 1 200 v = Some s → not_empty s = Some s).
Proof.
  split; [|split].
  - intros data. unfold DepartmentCreate_validate. split.
    + destruct (required_str _) as [n|] eqn:Hn; [|done].
      apply required_str_Some in Hn as (s & Hs & -> & Hlen).
      intros [= <-]. by exists s.
    + intros (s & Hs & Hlen & ->).
      assert (required_str (PostDepartmentBody.name body) = Some (strip s)) as ->;
        [|done].
      apply required_str_Some. by exists s.
  - intros data. unfold DepartmentCreate_validate.
    destruct (required_str _) as [n|] eqn:Hn; [|done].
    intros [= <-]. by apply required_str_valid in Hn.
  - intros [v|] s; [|done]. unfold str_field, not_empty.
    case_decide as Hlen; [|done]. intros [= ->].
    rewrite decide_False; [done|]. apply len_nonempty. lia.
Qed.

(** X21: the validation of the body of
    [POST /departments/{department_id}/employees/].  The body is accepted
    exactly when [full_name] and [position] are both strings whose
    stripped forms have between 1 and 200 characters; the request then
    carries the two stripped strings and the [hired_at] of the body (none
    when the field is absent or [null]). *)
Theorem EmployeeCreate_validate_spec (body : PostEmployeeBody.t) (data : EmployeeCreate.t) :
  EmployeeCreate_validate body = Some data ↔
  ∃ n p, PostEmployeeBody.full_name body = Given n ∧
         PostEmployeeBody.position body = Given p ∧
         (1 ≤ len (strip n) ≤ 200)%nat ∧
         (1 ≤ len (strip p) ≤ 200)%nat ∧
         data = EmployeeCreate.mk (strip n) (strip p)
                  (field_value (PostEmployeeBody.hired_at body)).
Proof.
  unfold EmployeeCreate_validate. split.
  - destruct (required_str (PostEmployeeBody.full_name body)) as [n'|] eqn:Hn; [|done].
    destruct (required_str (PostEmployeeBody.position body)) as [p'|] eqn:Hp; [|done].
    apply required_str_Some in Hn as (n & Hn & -> & Hnlen).
    apply required_str_Some in Hp as (p & Hp & -> & Hplen).
    intros [= <-]. by exists n, p.
  - intros (n & p & Hn & Hp & Hnlen & Hplen & ->).
    assert (required_str (PostEmployeeBody.full_name body) = Some (strip n)) as ->
      by (apply required_str_Some; by exists n).
    assert (required_str (PostEmployeeBody.position body) = Some (strip p)) as ->
      by (apply required_str_Some; by exists p).
    done.
Qed.

Lemma validate_name_valid f v :
  validate_name f = Some v → v = None ∨ ∃ n, v = Some n ∧ valid_name n.
Proof.
  destruct f as [| |s]; cbn [validate_name trim_name]; [naive_solver..|].
  cbv zeta. case_decide as Hempty; [naive_solver|].
  case_decide as Hlen; [|done]. intros [= <-]. right. exists (strip s).
  split; [done|]. split; [apply strip_idempotent|]. done.
Qed.

(** X22: the validation of the body of [PATCH /departments/{id}].  A
    body without a name, or with a [null] name, is accepted without a
    name, and so is one whose name is empty once stripped; a name whose
    stripped form has between 1 and 200 characters is accepted stripped,
    and one whose stripped form has more than 200 characters is refused.
    The name of an accepted request is either absent or stripped, not
    empty and of at most 200 characters, so the validator
    [name_not_empty_if_present] never raises on the value that reaches
    it. *)
Theorem DepartmentUpdate_validate_spec (body : PatchBody.t) :
  let parent_id := validate_parent_id (PatchBody.parent_id body) in
  (DepartmentUpdate_validate body = Some (DepartmentUpdate.mk None parent_id) ↔
     PatchBody.name body = Omitted ∨ PatchBody.name body = Null ∨
     ∃ s, PatchBody.name body = Given s ∧ strip s = "") ∧
  (∀ s, PatchBody.name body = Given s →
     ((1 ≤ len (strip s) ≤ 200)%nat →
        DepartmentUpdate_validate body
          = Some (DepartmentUpdate.mk (Some (strip s)) parent_id)) ∧
     ((200 < len (strip s))%nat → DepartmentUpdate_validate body = None)) ∧
  (∀ data, DepartmentUpdate_validate body = Some data →
     (DepartmentUpdate.name data = None ∨
      ∃ n, DepartmentUpdate.name data = Some n ∧ valid_name n) ∧
     name_not_empty_if_present (DepartmentUpdate.name data)
       = Some (DepartmentUpdate.name data)).
Proof.
  cbv zeta. unfold DepartmentUpdate_validate. split; [|split].
  - destruct (PatchBody.name body) as [| |s]; cbn [validate_name trim_name].
    + naive_solver.
    + naive_solver.
    + cbv zeta. case_decide as Hempty; [naive_solver|].
      case_decide as Hlen; naive_solver.
  - intros s ->. cbn [validate_name trim_name]. cbv zeta. split.
    + intros Hlen. rewrite decide_False by (apply len_nonempty; lia).
      by rewrite decide_True.
    + intros Hlen. rewrite decide_False by (apply len_nonempty; lia).
      rewrite decide_False; [done|lia].
  - intros data. destruct (validate_name _) as [v|] eqn:Hv; [|done].
    intros [= <-]. cbn. apply validate_name_valid in Hv as Hvalid.
    split; [done|]. destruct Hvalid as [->|(n & -> & _ & Hn & _)]; [done|].
    cbn. by rewrite decide_False.
Qed.

(** ** The endpoints *)

Lemma delete_department_value_error department_id mode target st st' :
  run (delete_department department_id mode target) st = Some (st', inl ValueError) →
  mode ≠ "cascade" ∧ (mode = "reassign" → target = None).
Proof.
  rewrite delete_department_run. intros Hrun.
  destruct (departments st !! department_id); [|done].
  destruct (decide (mode = "cascade")); [by case_decide|].
  split; [done|]. intros ->.
  rewrite decide_True in Hrun by done. destruct target as [tid|]; [|done].
  destruct (departments st !! tid); [|done].
  by repeat case_decide.
Qed.

(** X23: the answers of [DELETE /departments/{department_id}].  The
    endpoint always answers.  The status is 422 exactly when [mode] is
    absent or is neither ["cascade"] nor ["reassign"], and 400 exactly
    when the mode is ["reassign"] without a target, also for a department
    that does not exist: the [ValueError] of the service is never raised
    by a call that comes through the endpoint.  Otherwise it is 404
    exactly when the department, or in reassign mode the target, does not
    exist, and 409 exactly when the target is the department itself.
    Any answer other than 204 leaves the store as it was. *)
Theorem delete_department_endpoint_spec (department_id : Z) (mode : option string)
    (target : option Z) (st : Store) :
  ∃ st' reply,
    delete_department_endpoint department_id mode target st = Some (st', reply) ∧
    (status_code reply = 422 ↔ mode ≠ Some "cascade" ∧ mode ≠ Some "reassign") ∧
    (status_code reply = 400 ↔ mode = Some "reassign" ∧ target = None) ∧
    (∀ m st1, mode = Some m →
       status_code reply ≠ 400 → status_code reply ≠ 422 →
       run (delete_department department_id m target) st
         ≠ Some (st1, inl ValueError)) ∧
    (status_code reply = 404 ↔
       (mode = Some "cascade" ∧ departments st !! department_id = None) ∨
       (mode = Some "reassign" ∧ ∃ t, target = Some t ∧
          (departments st !! department_id = None ∨ departments st !! t = None))) ∧
    (status_code reply = 409 ↔
       mode = Some "reassign" ∧ target = Some department_id ∧
       is_Some (departments st !! department_id)) ∧
    (status_code reply ≠ 204 → st' = st).
Proof.
  unfold delete_department_endpoint.
  destruct mode as [m|]; cycle 1.
  { eexists _, _. split; [reflexivity|]. cbn. naive_solver. }
  destruct (decide (m = "cascade" ∨ m = "reassign")) as [Hm|Hm]; cycle 1.
  { eexists _, _. split; [reflexivity|]. cbn. naive_solver. }
  destruct (decide (m = "reassign" ∧ target = None)) as [Hr|Hr].
  { eexists _, _. split; [reflexivity|]. cbn. naive_solver. }
  assert (∀ m' st1, Some m = Some m' →
            run (delete_department department_id m' target) st
              ≠ Some (st1, inl ValueError)) as Hvalue.
  { intros m' st1 [= <-] [Hc Ht]%delete_department_value_error. naive_solver. }
  unfold respond. rewrite delete_department_run.
  destruct (departments st !! department_id) as [d|] eqn:Hd; cycle 1.
  { eexists _, _. split; [reflexivity|]. cbn.
    destruct Hm as [->| ->]; [naive_solver|].
    destruct target as [t|]; naive_solver. }
  destruct Hm as [->| ->].
  { rewrite decide_True by done.
    case_decide; eexists _, _; (split; [reflexivity|]); cbn; naive_solver. }
  rewrite decide_False, decide_True by done.
  destruct target as [t|]; [|naive_solver].
  destruct (departments st !! t) as [dt|] eqn:Ht; cycle 1.
  { eexists _, _. split; [reflexivity|]. cbn. naive_solver. }
  destruct (decide (t = department_id)) as [->|Hne].
  { eexists _, _. split; [reflexivity|]. cbn. naive_solver. }
  destruct (decide (uq_department_name_parent _ _)).
  - eexists _, _. split; [reflexivity|]. cbn. naive_solver.
  - eexists _, _. split; [reflexivity|]. cbn. naive_solver.
Qed.

(** X24: the answers of [GET /departments/{department_id}].  The endpoint
    always answers and leaves the store as it is.  The status is 422
    exactly when [depth] is given outside 1..5 or [sort_employees] is
    given and is neither ["created_at"] nor ["full_name"]; with valid
    parameters it is 404 exactly when the department does not exist.  A
    success has the status 200 and the tree of the department built with
    the defaults [depth = 1], [include_employees = True] and
    [sort_employees = "created_at"] for the parameters that are absent;
    the tree has at most five levels below its root. *)
Theorem get_department_endpoint_spec (department_id : Z) (depth : option Z)
    (include_employees : option bool) (sort_employees : option string)
    (st : Store) :
  let valid :=
    1 ≤ default 1 depth ≤ 5 ∧
    (default "created_at" sort_employees = "created_at" ∨
     default "created_at" sort_employees = "full_name") in
  ∃ reply,
    get_department department_id depth include_employees sort_employees st
      = Some (st, reply) ∧
    (status_code reply = 422 ↔ ¬ valid) ∧
    (status_code reply = 404 ↔ valid ∧ departments st !! department_id = None) ∧
    (∀ code tree, reply = Success code tree →
       code = 200 ∧
       (∃ department, departments st !! department_id = Some department ∧
          tree = _build_tree st (default true include_employees)
                   (default "created_at" sort_employees)
                   (Z.to_nat (default 1 depth)) (department_id, department)) ∧
       (tree_height tree ≤ 5)%nat).
Proof.
  intros valid. unfold get_department. fold valid.
  destruct (decide valid) as [Hvalid|Hvalid]; cycle 1.
  { eexists. split; [reflexivity|]. cbn. naive_solver. }
  unfold respond, run, get_department_tree. rewrite bind_get_department.
  cbn [pending open_session].
  destruct (departments st !! department_id) as [department|] eqn:Hd.
  - eexists. split; [reflexivity|]. cbn [status_code].
    split; [naive_solver|]. split; [naive_solver|].
    intros code tree [= <- <-]. split; [done|]. split; [by eexists|].
    etrans; [apply build_tree_height|]. destruct Hvalid as [? _]. lia.
  - eexists. split; [reflexivity|]. cbn [status_code exception_status].
    naive_solver.
Qed.

Lemma run_then_ret_of {A} (m : M A) st st' (res0 : Error + A) :
  run m st = Some (st', res0) →
  ∃ res : Error + unit, run (m ;;; ret tt) st = Some (st', res).
Proof.
  unfold run. destruct (m (open_session st)) as [[s r]|] eqn:H; [|done].
  intros [= <- <-]. destruct r as [e|a].
  - rewrite (bind_raise _ _ _ _ _ H). eauto.
  - rewrite (bind_ok _ _ _ _ _ H). eauto.
Qed.

Lemma respond_inv {A B} (ok : Z) (content : A → B) (m : M A) st st' reply :
  respond ok content m st = Some (st', reply) →
  (∃ e, run m st = Some (st', inl e) ∧ reply = Failure (exception_status e)) ∨
  (∃ a, run m st = Some (st', inr a) ∧ reply = Success ok (content a)).
Proof.
  unfold respond. destruct (run m st) as [[st1 [e|a]]|]; [| |done].
  - intros [= <- <-]. left. by exists e.
  - intros [= <- <-]. right. by exists a.
Qed.

(** What a call of an endpoint does to the store: nothing, or what a call
    of the service does. *)
Lemma api_call_request c st st' status :
  api_call c st = Some (st', status) →
  st' = st ∨ ∃ r res, run (handle r) st = Some (st', res).
Proof.
  destruct c as [body now|department_id body now|fuel department_id body
                |department_id mode target]; cbn [api_call].
  - intros ([st1 reply] & Hcall & Heq)%fmap_Some. cbn in Heq.
    injection Heq as -> _.
    unfold post_department in Hcall.
    destruct (DepartmentCreate_validate body) as [data|]; [|left; congruence].
    right. exists (CreateDepartment data now). cbn [handle].
    apply respond_inv in Hcall as [(e & Hrun & _)|(a & Hrun & _)];
      by eapply run_then_ret_of.
  - intros ([st1 reply] & Hcall & Heq)%fmap_Some. cbn in Heq.
    injection Heq as -> _.
    unfold post_employee in Hcall.
    destruct (EmployeeCreate_validate body) as [data|]; [|left; congruence].
    right. exists (CreateEmployee department_id data now). cbn [handle].
    apply respond_inv in Hcall as [(e & Hrun & _)|(a & Hrun & _)];
      by eapply run_then_ret_of.
  - intros ([st1 reply] & Hcall & Heq)%fmap_Some. cbn in Heq.
    injection Heq as -> _.
    unfold patch_department in Hcall.
    destruct (DepartmentUpdate_validate body) as [data|]; [|left; congruence].
    right. exists (UpdateDepartment fuel department_id data). cbn [handle].
    apply respond_inv in Hcall as [(e & Hrun & _)|(a & Hrun & _)];
      by eapply run_then_ret_of.
  - intros ([st1 reply] & Hcall & Heq)%fmap_Some. cbn in Heq.
    injection Heq as -> _.
    unfold delete_department_endpoint in Hcall.
    destruct mode as [mode|]; [|left; congruence].
    case_decide; [|left; congruence]. case_decide; [left; congruence|].
    right. exists (DeleteDepartment department_id mode target). cbn [handle].
    apply respond_inv in Hcall as [(e & Hrun & _)|(a & Hrun & _)]; eauto.
Qed.

(** X25: the endpoints reach no store that the service does not reach: a
    call of an endpoint that writes either leaves the store as it is (a
    body or a query that is refused) or does what one call of the service
    does.  What holds of every store the service reaches, such as
    distinct names among siblings, holds of every store the endpoints
    reach. *)
Theorem api_reachable_reachable (st : Store) :
  api_reachable st → reachable st.
Proof.
  induction 1 as [|st c st' status _ IH Hcall]; [apply reachable_empty|].
  apply api_call_request in Hcall as [->|(r & res & Hrun)]; [done|].
  by eapply reachable_request.
Qed.

Lemma create_employee_run department_id data now st :
  run (create_employee department_id data now) st =
    match departments st !! department_id with
    | None => Some (st, inl DepartmentNotFoundError)
    | Some _ =>
      let i := next_id (employees st) in
      let row := Employee.mk department_id (EmployeeCreate.full_name data)
                   (EmployeeCreate.position data) (EmployeeCreate.hired_at data) now in
      Some (mkStore (departments st) (<[i := row]> (employees st)), inr (i, row))
    end.
Proof.
  unfold run, create_employee. rewrite bind_get_department.
  cbn [pending open_session]. by destruct (departments st !! department_id).
Qed.

Lemma relink_employee_names department_id target_id e :
  Employee.full_name (relink_employee department_id target_id e)
    = Employee.full_name e ∧
  Employee.position (relink_employee department_id target_id e)
    = Employee.position e.
Proof. unfold relink_employee. by case_decide. Qed.

Lemma names_valid_after_delete st department_id :
  names_valid st → names_valid (after_delete st department_id).
Proof.
  intros [Hdep Hemp]. split.
  - intros i d Hi. apply (Hdep i).
    by eapply lookup_weaken; [|apply after_delete_departments_subseteq].
  - intros i e Hi. apply (Hemp i). unfold after_delete in Hi.
    cbn [employees] in Hi. by apply map_lookup_filter_Some in Hi as [Hi _].
Qed.

Lemma names_valid_relinked st department_id target_id :
  names_valid st → names_valid (relinked st department_id target_id).
Proof.
  intros [Hdep Hemp]. split.
  - intros i d'. cbn [relinked departments]. rewrite lookup_fmap.
    intros (d & Hi & ->)%fmap_Some. rewrite relink_child_name. by apply (Hdep i).
  - intros i e'. cbn [relinked employees]. rewrite lookup_fmap.
    intros (e & Hi & ->)%fmap_Some.
    destruct (relink_employee_names department_id target_id e) as [-> ->].
    by apply (Hemp i).
Qed.

Lemma names_valid_call c st st' status :
  names_valid st → api_call c st = Some (st', status) → names_valid st'.
Proof.
  intros Hvalid.
  destruct c as [body now|department_id body now|fuel department_id body
                |department_id mode target]; cbn [api_call].
  - intros ([st1 reply] & Hcall & Heq)%fmap_Some. cbn in Heq.
    injection Heq as -> _. unfold post_department in Hcall.
    destruct (DepartmentCreate_validate body) as [data|] eqn:Hbody;
      [|congruence].
    unfold DepartmentCreate_validate in Hbody.
    destruct (required_str _) as [n|] eqn:Hn; [|done].
    apply required_str_valid in Hn. injection Hbody as <-.
    unfold respond in Hcall. rewrite create_department_run in Hcall.
    cbn [DepartmentCreate.name DepartmentCreate.parent_id] in Hcall.
    repeat case_decide; injection Hcall as <- _; try done.
    destruct Hvalid as [Hdep Hemp]. split; [|done].
    intros i d. cbn [departments].
    intros [[<- <-]|[_ Hi]]%lookup_insert_Some; [done|by apply (Hdep i)].
  - intros ([st1 reply] & Hcall & Heq)%fmap_Some. cbn in Heq.
    injection Heq as -> _. unfold post_employee in Hcall.
    destruct (EmployeeCreate_validate body) as [data|] eqn:Hbody;
      [|congruence].
    unfold EmployeeCreate_validate in Hbody.
    destruct (required_str (PostEmployeeBody.full_name body)) as [n|] eqn:Hn;
      [|done].
    destruct (required_str (PostEmployeeBody.position body)) as [p|] eqn:Hp;
      [|done].
    apply required_str_valid in Hn, Hp. injection Hbody as <-.
    unfold respond in Hcall. rewrite create_employee_run in Hcall.
    destruct (departments st !! department_id); injection Hcall as <- _;
      [|done].
    destruct Hvalid as [Hdep Hemp]. split; [done|].
    intros i e. cbn [employees].
    intros [[<- <-]|[_ Hi]]%lookup_insert_Some; [done|by apply (Hemp i)].
  - intros ([st1 reply] & Hcall & Heq)%fmap_Some. cbn in Heq.
    injection Heq as -> _. unfold patch_department in Hcall.
    destruct (DepartmentUpdate_validate body) as [data|] eqn:Hbody;
      [|congruence].
    unfold DepartmentUpdate_validate in Hbody.
    destruct (validate_name _) as [v|] eqn:Hv; [|done].
    apply validate_name_valid in Hv. injection Hbody as <-.
    assert (∃ res, run (update_department fuel department_id
              (DepartmentUpdate.mk v (validate_parent_id (PatchBody.parent_id body))))
              st = Some (st1, res)) as [res Hrun].
    { apply respond_inv in Hcall as [(e & Hrun & _)|(a & Hrun & _)]; eauto. }
    destruct (departments st !! department_id) as [department|] eqn:Hd; cycle 1.
    { unfold run, update_department in Hrun.
      rewrite bind_get_department in Hrun. cbn [pending open_session] in Hrun.
      rewrite Hd in Hrun. by injection Hrun as <- _. }
    apply (update_department_inv _ _ _ department) in Hrun; [|done].
    cbv zeta in Hrun. destruct Hrun as [(e & _ & ->)|(_ & -> & _)]; [done|].
    destruct Hvalid as [Hdep Hemp]. split; [|done].
    intros i d. cbn [departments].
    intros [[<- <-]|[_ Hi]]%lookup_insert_Some; [|by apply (Hdep i)].
    cbn [Department.name]. unfold effective_name. cbn [DepartmentUpdate.name].
    destruct Hv as [->|(n & -> & Hn)]; [by apply (Hdep department_id)|done].
  - intros ([st1 reply] & Hcall & Heq)%fmap_Some. cbn in Heq.
    injection Heq as -> _. unfold delete_department_endpoint in Hcall.
    destruct mode as [mode|]; [|congruence].
    case_decide; [|congruence]. case_decide; [congruence|].
    assert (∃ res, run (delete_department department_id mode target) st
                     = Some (st1, res)) as [res Hrun].
    { apply respond_inv in Hcall as [(e & Hrun & _)|(a & Hrun & _)]; eauto. }
    apply delete_department_inv in Hrun
      as [(e & _ & ->)|[(_ & _ & _ & ->)|(_ & _ & t & _ & _ & _ & _ & _ & ->)]].
    + done.
    + by apply names_valid_after_delete.
    + by apply names_valid_after_delete, names_valid_relinked.
Qed.

(** X26: every name in a store that the endpoints reach is as the
    validators let names through: the name of each department and the
    full name and the position of each employee are stripped, not empty
    and of at most 200 characters.  No update, relink or delete brings in
    a name that was not validated. *)
Theorem names_valid_api_reachable (st : Store) :
  api_reachable st → names_valid st.
Proof.
  induction 1 as [|st c st' status _ IH Hcall].
  - split; intros i x Hi; cbn in Hi; by rewrite lookup_empty in Hi.
  - by eapply names_valid_call.
Qed.

(** X27: the statuses of the endpoints that write.  [POST /departments/]
    and [PATCH] answer 200, 404, 409 or 422, and
    [POST .../employees/] 200, 404 or 422; 204, 400 and 500 come from
    [DELETE] alone, and 500 (an exception for which the application has
    no handler) from a reassign delete with a target, where it is the
    constraint of the store, or from a cascade delete of a department
    that is below itself, where it is the order of the deletes.  Whatever
    the endpoint, an answer other than 200 or 204 leaves the store as it
    was. *)
Theorem api_call_statuses (c : ApiCall) (st st' : Store) (status : Z) :
  api_call c st = Some (st', status) →
  status ∈ [200; 204; 400; 404; 409; 422; 500] ∧
  (status ≠ 200 → status ≠ 204 → st' = st) ∧
  (status = 204 ∨ status = 400 ∨ status = 500 →
     ∃ department_id mode target, c = DeleteDepartmentCall department_id mode target) ∧
  (status = 500 →
     ∃ department_id target,
       (c = DeleteDepartmentCall department_id (Some "reassign") target ∧
        is_Some target) ∨
       (c = DeleteDepartmentCall department_id (Some "cascade") target ∧
        descendant (departments st) department_id department_id)) ∧
  (status = 409 → ∀ department_id body now, c ≠ PostEmployee department_id body now).
Proof.
  destruct c as [body now|department_id body now|fuel department_id body
                |department_id mode target]; cbn [api_call].
  - intros ([st1 reply] & Hcall & Heq)%fmap_Some. cbn in Heq.
    injection Heq as -> ->. unfold post_department in Hcall.
    destruct (DepartmentCreate_validate body) as [data|].
    + unfold respond in Hcall. rewrite create_department_run in Hcall.
      cbv zeta in Hcall.
      repeat case_decide; injection Hcall as <- <-; cbn;
        (split; [set_solver|]); naive_solver.
    + injection Hcall as <- <-. cbn. split; [set_solver|]. naive_solver.
  - intros ([st1 reply] & Hcall & Heq)%fmap_Some. cbn in Heq.
    injection Heq as -> ->. unfold post_employee in Hcall.
    destruct (EmployeeCreate_validate body) as [data|].
    + unfold respond in Hcall. rewrite create_employee_run in Hcall.
      destruct (departments st !! department_id); injection Hcall as <- <-; cbn;
        (split; [set_solver|]); naive_solver.
    + injection Hcall as <- <-. cbn. split; [set_solver|]. naive_solver.
  - intros ([st1 reply] & Hcall & Heq)%fmap_Some. cbn in Heq.
    injection Heq as -> ->. unfold patch_department in Hcall.
    destruct (DepartmentUpdate_validate body) as [data|]; cycle 1.
    { injection Hcall as <- <-. cbn. split; [set_solver|]. naive_solver. }
    apply respond_inv in Hcall as [(e & Hrun & ->)|(a & Hrun & ->)].
    + pose proof (run_raise_unchanged _ _ _ _
                    (raise_safe_update_department _ _ _) Hrun) as ->.
      apply update_department_raises in Hrun as [-> | ->]; cbn;
        (split; [set_solver|]); naive_solver.
    + cbn. split; [set_solver|]. naive_solver.
  - intros ([st1 reply] & Hcall & Heq)%fmap_Some. cbn in Heq.
    injection Heq as -> ->. unfold delete_department_endpoint in Hcall.
    destruct mode as [mode|]; cycle 1.
    { injection Hcall as <- <-. cbn. split; [set_solver|]. naive_solver. }
    case_decide as Hm; cycle 1.
    { injection Hcall as <- <-. cbn. split; [set_solver|]. naive_solver. }
    case_decide as Hr.
    { injection Hcall as <- <-. cbn. split; [set_solver|]. naive_solver. }
    unfold respond in Hcall. rewrite delete_department_run in Hcall.
    destruct (departments st !! department_id) as [d|] eqn:Hd; cycle 1.
    { injection Hcall as <- <-. cbn. split; [set_solver|]. naive_solver. }
    destruct Hm as [-> | ->].
    { rewrite decide_True in Hcall by done. case_decide as Hcycle.
      - apply delete_order_descendant in Hcycle; [|by eexists].
        injection Hcall as <- <-. cbn. split; [set_solver|]. naive_solver.
      - injection Hcall as <- <-. cbn. split; [set_solver|]. naive_solver. }
    rewrite decide_False, decide_True in Hcall by done.
    destruct target as [tid|]; [|naive_solver].
    destruct (departments st !! tid); cycle 1.
    { injection Hcall as <- <-. cbn. split; [set_solver|]. naive_solver. }
    repeat case_decide; injection Hcall as <- <-; cbn;
      (split; [set_solver|]); naive_solver.
Qed.

(** ** The sample store again *)

Lemma api_reachable_run_calls cs st st' :
  api_reachable st → run_calls cs st = Some st' → api_reachable st'.
Proof.
  revert st. induction cs as [|c cs IH]; intros st Hst; simpl.
  - by intros [= <-].
  - destruct (api_call c st) as [[st1 status]|] eqn:Hc; [|done].
    apply IH. by eapply api_reachable_call.
Qed.

Lemma sample_store_api_reachable : api_reachable sample_store.
Proof.
  apply (api_reachable_run_calls sample_calls empty_store);
    [apply api_reachable_empty|].
  vm_compute. reflexivity.
Qed.

Lemma sibling_names_unique_run_requests rs st st' :
  sibling_names_unique (departments st) → run_requests rs st = Some st' →
  sibling_names_unique (departments st').
Proof.
  revert st. induction rs as [|r rs IH]; intros st Hst; simpl.
  - by intros [= <-].
  - destruct (run (handle r) st) as [[st1 res]|] eqn:Hrun; [|done].
    apply IH. by eapply sibling_names_unique_step.
Qed.

Lemma sample_store_sibling_names : sibling_names_unique (departments sample_store).
Proof.
  apply (sibling_names_unique_run_requests sample_requests empty_store).
  - intros i j di dj Hi. simpl in Hi. by rewrite lookup_empty in Hi.
  - vm_compute. reflexivity.
Qed.

Lemma get_descendant_ids_spec_witness :
  _get_descendant_ids 10 1 (open_session sample_store)
    = Some (open_session sample_store, inr {[2; 3; 4]}) ∧
  (∀ y, y ∈ ({[2; 3; 4]} : gset Z) ↔ descendant (departments sample_store) 1 y) ∧
  ({[2; 3; 4]} : gset Z) ⊆ dom (departments sample_store).
Proof.
  assert (_get_descendant_ids 10 1 (open_session sample_store)
            = Some (open_session sample_store, inr {[2; 3; 4]})) as Hrun
    by (vm_compute; reflexivity).
  destruct (get_descendant_ids_spec 10 1 (open_session sample_store) _ _ Hrun)
    as (_ & descendants & Heq & Hiff & Hdom & _).
  injection Heq as <-. split; [exact Hrun|]. split; [exact Hiff|exact Hdom].
Defined.

Lemma get_descendant_ids_returns_witness :
  ∃ n descendants, ∀ fuel, (n ≤ fuel)%nat →
    _get_descendant_ids fuel 1 (open_session sample_store)
      = Some (open_session sample_store, inr descendants).
Proof.
  apply (get_descendant_ids_returns 1 (open_session sample_store)).
  apply sample_store_acyclic.
Defined.

Lemma get_descendant_ids_never_returns_witness :
  _get_descendant_ids 1000 2 (open_session store_with_cycle) = None.
Proof.
  apply (get_descendant_ids_never_returns 1000 2 2 (open_session store_with_cycle)).
  - apply tc_once. exists (Department.mk "Backend" (Some 2) 11).
    split; [vm_compute; reflexivity|reflexivity].
  - apply rtc_refl.
Defined.

Lemma create_employee_spec_witness :
  ∃ i, employees sample_store !! i = None ∧
    run (create_employee 5 (EmployeeCreate.mk "Alice" "Lead" None) 30) sample_store
      = Some (mkStore (departments sample_store)
                (<[i := Employee.mk 5 "Alice" "Lead" None 30]>
                   (employees sample_store)),
              inr (i, Employee.mk 5 "Alice" "Lead" None 30)).
Proof.
  apply (create_employee_spec sample_store 5 (EmployeeCreate.mk "Alice" "Lead" None) 30).
  exists (Department.mk "Sales" None 14). vm_compute. reflexivity.
Defined.

Lemma build_tree_sort_fallback_witness :
  _build_tree sample_store true "hired_at" 2 (1, Department.mk "Engineering" None 10)
    = _build_tree sample_store true "created_at" 2
                  (1, Department.mk "Engineering" None 10).
Proof.
  apply (build_tree_sort_fallback sample_store true "hired_at" 2
           (1, Department.mk "Engineering" None 10)).
  discriminate.
Defined.

Lemma update_department_frame_witness :
  employees (mkStore (<[3 := Department.mk "Core" (Some 1) 12]>
                        (departments sample_store)) (employees sample_store))
    = employees sample_store ∧
  departments (mkStore (<[3 := Department.mk "Core" (Some 1) 12]>
                          (departments sample_store)) (employees sample_store)) !! 4
    = departments sample_store !! 4.
Proof.
  destruct (update_department_frame 5 3 (DepartmentUpdate.mk (Some "Core") None)
              sample_store
              (mkStore (<[3 := Department.mk "Core" (Some 1) 12]>
                          (departments sample_store)) (employees sample_store))
              (inr (3, Department.mk "Core" (Some 1) 12)))
    as (Hemp & Hother & _).
  { vm_compute. reflexivity. }
  split; [exact Hemp|]. apply Hother. lia.
Defined.

Lemma update_department_empty_request_witness :
  ∃ n, ∀ fuel, (n ≤ fuel)%nat →
    run (update_department fuel 3 (DepartmentUpdate.mk None None)) sample_store
      = Some (sample_store, inr (3, Department.mk "Backend" (Some 1) 12)).
Proof.
  destruct (update_department_empty_request sample_store 3
              (Department.mk "Backend" (Some 1) 12)) as (_ & H).
  { vm_compute. reflexivity. }
  apply H.
  - apply sample_store_acyclic.
  - apply sample_store_parents_exist.
  - apply sample_store_sibling_names.
Defined.

Lemma delete_department_errors_witness :
  run (delete_department 9 "purge" None) sample_store
    = Some (sample_store, inl DepartmentNotFoundError) ∧
  run (delete_department 3 "purge" None) sample_store
    = Some (sample_store, inl ValueError) ∧
  run (delete_department 3 "reassign" (Some 9)) sample_store
    = Some (sample_store, inl DepartmentNotFoundError).
Proof.
  split; [|split].
  - apply (delete_department_errors sample_store 9 "purge" None).
    vm_compute. reflexivity.
  - destruct (delete_department_errors sample_store 3 "purge" None) as (_ & H).
    destruct H as (H & _).
    + exists (Department.mk "Backend" (Some 1) 12). vm_compute. reflexivity.
    + apply H; discriminate.
  - destruct (delete_department_errors sample_store 3 "reassign" (Some 9)) as (_ & H).
    destruct H as (_ & _ & H & _).
    + exists (Department.mk "Backend" (Some 1) 12). vm_compute. reflexivity.
    + apply (H eq_refl 9 eq_refl). vm_compute. reflexivity.
Defined.

Lemma reassign_delete_keeps_keys_witness :
  dom (employees (after_delete (relinked sample_store 3 5) 3))
    = dom (employees sample_store) ∧
  dom (departments (after_delete (relinked sample_store 3 5) 3))
    = dom (departments sample_store) ∖ {[3]}.
Proof.
  apply (reassign_delete_keeps_keys sample_store _ 3 (Some 5)).
  vm_compute. reflexivity.
Defined.

Lemma cascade_delete_no_orphans_witness :
  ¬ removed (departments sample_store) 3 1 ∧
  departments (after_delete sample_store 3) !! 1 = departments sample_store !! 1.
Proof.
  destruct (cascade_delete_no_orphans sample_store (after_delete sample_store 3) 3 None)
    as (_ & H).
  { vm_compute. reflexivity. }
  apply (H 1 (Employee.mk 1 "Alice" "Lead" None 20)).
  vm_compute. reflexivity.
Defined.

Lemma reassign_delete_outcome_witness :
  run (delete_department 1 "reassign" (Some 2)) same_name_store
    = Some (same_name_store, inl IntegrityError).
Proof.
  destruct (reassign_delete_outcome same_name_store 1 2) as (H & _).
  - exists (Department.mk "A" None 10). vm_compute. reflexivity.
  - exists (Department.mk "B" None 11). vm_compute. reflexivity.
  - lia.
  - apply H. exists 3, 4, (Department.mk "X" (Some 1) 12),
      (Department.mk "X" (Some 2) 13).
    split; [lia|]. split; [vm_compute; reflexivity|].
    split; [vm_compute; reflexivity|]. split; [reflexivity|].
    split; [left; reflexivity|reflexivity].
Defined.

Lemma referential_integrity_reachable_witness :
  parents_exist (departments sample_store) ∧ employees_have_department sample_store.
Proof.
  apply (referential_integrity_reachable sample_store).
  apply sample_store_reachable.
Defined.

Lemma forest_reachable_outside_witness :
  acyclic (departments sample_store) ∧
  ∀ department_id data, ∃ n, ∀ fuel, (n ≤ fuel)%nat →
    is_Some (run (update_department fuel department_id data) sample_store).
Proof.
  apply (forest_reachable_outside sample_store).
  apply sample_store_reachable_outside.
Defined.

Lemma update_department_keeps_forest_witness :
  acyclic (<[4 := Department.mk "API" (Some 2) 13]> (departments sample_store)).
Proof.
  destruct (update_department_keeps_forest 5 4 (DepartmentUpdate.mk None (Some 2))
              sample_store
              (mkStore (<[4 := Department.mk "API" (Some 2) 13]>
                          (departments sample_store)) (employees sample_store))
              (inr (4, Department.mk "API" (Some 2) 13))) as (H & _).
  - apply sample_store_acyclic.
  - vm_compute. reflexivity.
  - exact H.
Defined.

Lemma service_exceptions_witness :
  run (create_department (DepartmentCreate.mk "Backend" (Some 1)) 30) sample_store
    = Some (sample_store, inl ConflictError) ∧
  (ConflictError = DepartmentNotFoundError ∨ ConflictError = ConflictError).
Proof.
  assert (run (create_department (DepartmentCreate.mk "Backend" (Some 1)) 30)
              sample_store = Some (sample_store, inl ConflictError)) as Hrun
    by (vm_compute; reflexivity).
  split; [exact Hrun|].
  destruct (service_exceptions sample_store sample_store ConflictError) as (H & _).
  exact (H _ _ Hrun).
Defined.

Lemma DepartmentCreate_validate_spec_witness :
  DepartmentCreate_validate (PostDepartmentBody.mk (Given "  Core ") Null)
    = Some (DepartmentCreate.mk "Core" None) ∧
  valid_name "Core".
Proof.
  assert (DepartmentCreate_validate (PostDepartmentBody.mk (Given "  Core ") Null)
            = Some (DepartmentCreate.mk "Core" None)) as Hbody
    by (vm_compute; reflexivity).
  split; [exact Hbody|].
  destruct (DepartmentCreate_validate_spec
              (PostDepartmentBody.mk (Given "  Core ") Null)) as (_ & H & _).
  exact (H _ Hbody).
Defined.

Lemma DepartmentUpdate_validate_spec_witness :
  DepartmentUpdate_validate (PatchBody.mk (Given "  Core ") Omitted)
    = Some (DepartmentUpdate.mk (Some "Core") None) ∧
  name_not_empty_if_present (Some "Core") = Some (Some "Core").
Proof.
  destruct (DepartmentUpdate_validate_spec
              (PatchBody.mk (Given "  Core ") Omitted)) as (_ & Hgiven & Hvalid).
  destruct (Hgiven "  Core " eq_refl) as (Hbody & _).
  assert (DepartmentUpdate_validate (PatchBody.mk (Given "  Core ") Omitted)
            = Some (DepartmentUpdate.mk (Some "Core") None)) as Hdata.
  { rewrite Hbody; [vm_compute; reflexivity|vm_compute; lia]. }
  split; [exact Hdata|]. exact (proj2 (Hvalid _ Hdata)).
Defined.

Lemma api_reachable_reachable_witness : reachable sample_store.
Proof.
  apply (api_reachable_reachable sample_store).
  apply sample_store_api_reachable.
Defined.

Lemma names_valid_api_reachable_witness : names_valid sample_store.
Proof.
  apply (names_valid_api_reachable sample_store).
  apply sample_store_api_reachable.
Defined.

Lemma api_call_statuses_witness :
  api_call (DeleteDepartmentCall 9 (Some "reassign") None) sample_store
    = Some (sample_store, 400) ∧
  (400 ≠ 200 → 400 ≠ 204 → sample_store = sample_store).
Proof.
  assert (api_call (DeleteDepartmentCall 9 (Some "reassign") None) sample_store
            = Some (sample_store, 400)) as Hcall
    by (vm_compute; reflexivity).
  split; [exact Hcall|].
  destruct (api_call_statuses _ _ _ _ Hcall) as (_ & H & _). exact H.
Defined.
